(** * Gravity Weaver: the simulation core of [src/App.tsx]

    A shallow embedding of the game's per-frame driver ([gameLoop]), of the
    callbacks it composes ([checkObstacleCollisions], [collectPowerUps],
    [triggerRandomEvent], the generators), of the input hook
    ([toggleGravity], [handleGameAction], [startGame]) and of the two
    score-driven effects (level advance, adaptive spawn rate).

    Conventions of the embedding.
    - A JavaScript [number] that holds a measure (position, velocity, speed,
      probability, time) is an exact rational [Q]; decimal literals of the
      source ([0.4], [0.7], [16.66]) are the rationals they denote.  Rounding
      of binary floating point is outside the model, with one exception: the
      two speed updaters of the [slow] power-up are also given with the
      correctly rounded binary64 product and quotient ([slowDown64],
      [slowRestore64]), to state how far a slow-down and its restore can
      drift from the speed they started from.
    - [score] and [combo] only ever receive [0], [+ Math.round(..)] and
      [+ 500] / [+ 5]; they are integers [Z].  The level index is a [nat].
    - [Math.random()] is an oracle: every call site of a frame reads its own
      field of a record [Rand] handed to the frame.
    - React state and the [xxxRef] mirrors are one record [RunState]: a frame
      starts from a committed render, where every mirror equals its state.
      The updaters a frame queues ([setX(prev => ..)]) are applied in the
      order the frame queued them, at the render that follows the frame; what
      runs inside an updater ([generateObstacle], the body of
      [collectPowerUps]) therefore still reads the mirrors of the committed
      state.
    - [setTimeout] callbacks are pending due times stored in the state and
      fired by [runTimers]; [createParticles] calls are collected in a log
      of [Feedback] returned next to the new state.
    - Outside the model: the motion of the particles, vibration, the audio
      analysis (its outcome is the [Beat] action), persistence, localisation
      and rendering. *)

From Stdlib Require Import QArith ZArith List String Bool Lia Lqa Qround Qabs Qpower Sorted.
Import ListNotations.
Open Scope Q_scope.

(** ** JavaScript arithmetic used by the source *)

Definition Qltb (a b : Q) : bool := negb (Qle_bool b a).

Definition Math_min (a b : Q) : Q := if Qle_bool a b then a else b.

Definition Math_max (a b : Q) : Q := if Qle_bool a b then b else a.

(** [Math.round] rounds half up: [floor (x + 0.5)]. *)
Definition Math_round (x : Q) : Z := Qfloor (x + 0.5).

Definition Math_floor (x : Q) : Z := Qfloor x.

(** [Math.PI] is the binary64 number [3.141592653589793], a rational. *)
Definition Math_PI : Q := 884279719003555 # 281474976710656.

(** *** binary64

    A JavaScript [number] is an IEEE 754 binary64: every arithmetic
    operation returns its exact result rounded to the nearest number with 53
    significant bits, ties going to the even significand.  [binary64] is that
    rounding on the rationals.  The exponent range is not modelled: the
    function agrees with the engine's rounding wherever the exact and the
    rounded result have a magnitude in [[2^-1022, 2^1024)] (no subnormal
    number, no overflow). *)

Definition pow2 (e : Z) : Q :=
  match e with
  | Z0 => 1
  | Zpos p => inject_Z (Zpos (2 ^ p))
  | Zneg p => 1 # (2 ^ p)
  end.

(** The nearest integer, ties to even. *)
Definition roundHalfEven (y : Q) : Z :=
  let f := Qfloor y in
  match Qcompare (y - inject_Z f) (1 # 2) with
  | Lt => f
  | Gt => (f + 1)%Z
  | Eq => if Z.even f then f else (f + 1)%Z
  end.

(** For [0 < x]: the exponent [e] of the last significant bit,
    [2^52 <= x / 2^e < 2^53]. *)
Definition exponent (x : Q) : Z :=
  let e0 := (Z.log2 (Qnum x) - Z.log2 (Zpos (Qden x)) - 52)%Z in
  if Qle_bool (pow2 (e0 + 52)) x then e0 else (e0 - 1)%Z.

Definition roundPos (x : Q) : Q :=
  inject_Z (roundHalfEven (x / pow2 (exponent x))) * pow2 (exponent x).

Definition binary64 (x : Q) : Q :=
  match Qcompare x 0 with
  | Eq => 0
  | Gt => roundPos x
  | Lt => - roundPos (- x)
  end.

(** Half the distance between [1] and the next binary64 number. *)
Definition unit_roundoff : Q := 1 # (2 ^ 53).

(** The exact and the rounded result are in the range where [binary64] is
    the engine's rounding. *)
Definition inRange64 (x : Q) : Prop :=
  pow2 (-1022) <= Qabs x /\ Qabs (binary64 x) < pow2 1024.

(** ** Constants *)

Definition CANVAS_WIDTH : Q := 400.
Definition CANVAS_HEIGHT : Q := 600.
Definition BALL_RADIUS : Q := 12.
Definition BASE_GRAVITY_FORCE : Q := 0.4.
Definition MAX_VELOCITY : Q := 8.
Definition POWERUP_COLLECTION_RADIUS_SQUARED : Q := 900.
Definition BOUNCE_DAMPING : Q := 0.7.

Definition SHIELD_DURATION : Q := 5000.
Definition SLOW_MOTION_DURATION : Q := 3000.
(** The literal [4000] of [triggerRandomEvent]'s [setTimeout]. *)
Definition EVENT_DURATION : Q := 4000.
(** The literal [0.6] of the [slow] power-up. *)
Definition SLOW_FACTOR : Q := 0.6.

(** ** Entity types *)

Inductive GameState := menu | playing | gameOver.
Inductive PowerUpType := shield | slow | magnet.
Inductive ObstacleType := spinner | wave | portal | crusher.
(** [possibleEvents = ['storm', 'fog', 'invertShock']]. *)
Inductive EventType := storm | fog | invertShock.

Definition GameState_eqb (a b : GameState) : bool :=
  match a, b with
  | menu, menu | playing, playing | gameOver, gameOver => true
  | _, _ => false
  end.

Definition ObstacleType_eqb (a b : ObstacleType) : bool :=
  match a, b with
  | spinner, spinner | wave, wave | portal, portal | crusher, crusher => true
  | _, _ => false
  end.

Record Position := mkPosition { x : Q; y : Q }.
Definition Velocity := Position.

Module Obstacle.
Record t := mk {
  id : string; type : ObstacleType; position : Position;
  width : Q; height : Q; rotation : Q;
  speed : Q; phase : Q; color : string
}.
End Obstacle.

Module PowerUp.
Record t := mk {
  id : string; type : PowerUpType; position : Position;
  collected : bool; pulse : Q
}.
End PowerUp.

(** One [createParticles(position, count, color, gravityEffect)] call.  The
    particles themselves are cosmetic and live outside the model. *)
Record Feedback := mkFeedback {
  at_position : Position; count : Z; burst_color : string; gravityEffect : bool
}.

(** ** Levels and patterns *)

Record LevelConfig := mkLevel {
  thresholdScore : Z;
  obstacleBaseChance : Q;
  obstacleMax : nat;
  allowedObstacleTypes : list ObstacleType;
  obstacleSpeedFactor : Q;
  powerUpChance : Q;
  eventProbability : Q
}.

Definition LEVELS : list LevelConfig :=
  [ mkLevel 0 0.01 4 [spinner; wave] 1 0.01 0.0005;
    mkLevel 500 0.015 5 [spinner; wave; crusher] 1.1 0.009 0.001;
    mkLevel 1500 0.02 6 [spinner; wave; crusher; portal] 1.25 0.008 0.002;
    mkLevel 3000 0.025 7 [spinner; wave; crusher; portal] 1.4 0.007 0.003;
    mkLevel 5000 0.03 8 [spinner; wave; crusher; portal] 1.6 0.006 0.005 ].

(** [LEVELS[i]].  The index is in range on every state a run reaches (see
    [level_in_range]); out of range the source would read [undefined], here
    the first level stands in. *)
Definition level (i : nat) : LevelConfig :=
  nth i LEVELS (mkLevel 0 0.01 4 [spinner; wave] 1 0.01 0.0005).

Record Offset := mkOffset { dx : Q; dy : Q; slot_type : ObstacleType }.

Record ObstaclePattern := mkPattern { offsets : list Offset }.

Definition PATTERNS : list ObstaclePattern :=
  [ mkPattern [mkOffset 0 0 spinner; mkOffset (-60) (-40) spinner; mkOffset 120 80 spinner];
    mkPattern [mkOffset 0 0 wave; mkOffset 0 (-80) crusher; mkOffset 80 0 wave];
    mkPattern [mkOffset 0 0 portal; mkOffset (-100) 50 wave; mkOffset 100 (-50) wave];
    mkPattern [mkOffset 0 0 crusher; mkOffset (-80) 30 crusher; mkOffset 80 (-30) crusher] ].

(** ** The random oracle *)

(** The draws of one generated obstacle: type choice, speed jitter, vertical
    placement, phase, and the two random strings. *)
Record ObstacleDraws := mkObstacleDraws {
  dType : Q; dSpeed : Q; dY : Q; dPhase : Q; dId : string; dColor : string
}.

Record PowerUpDraws := mkPowerUpDraws { pType : Q; pY : Q; pId : string }.

Record Rand := mkRand {
  rEvent : Q;                    (* gameLoop: event trigger *)
  rEventKind : Q;                (* triggerRandomEvent: which event *)
  rSpawn : Q;                    (* gameLoop: obstacle spawn *)
  rPattern : Q;                  (* gameLoop: pattern or single *)
  rPatternIndex : Q;             (* generateObstaclePattern: which pattern *)
  rObstacle : ObstacleDraws;     (* generateObstacle *)
  rSlot : nat -> ObstacleDraws;  (* generateObstaclePattern: one per slot *)
  rPowerUpChance : Q;            (* gameLoop: power-up spawn *)
  rPowerUp : PowerUpDraws        (* generatePowerUp *)
}.

(** ** The run state *)

Record RunState := mkRunState {
  gameState : GameState;
  score : Z;
  currentLevelIndex : nat;
  speedMultiplier : Q;
  ballPos : Position;
  ballVel : Velocity;
  gravityDir : Q;
  obstacles : list Obstacle.t;
  powerUps : list PowerUp.t;
  invulnerable : bool;
  combo : Z;
  shake : Q;
  isEventActive : bool;
  activeEventType : option EventType;
  lastScore : Z;                 (* lastScoreRef *)
  lastScoreTime : Q;             (* lastScoreTimeRef *)
  spawnMultiplier : Q;
  beatActive : bool;
  prevTime : option Q;           (* prevTimeRef; [None] is [undefined] *)
  shieldTimer : option Q;        (* live timer behind shieldTimeoutRef *)
  slowTimer : option Q;          (* live timer behind slowTimeoutRef *)
  eventTimers : list Q           (* live timers of triggerRandomEvent *)
}.

(** The component as first mounted, at wall-clock time [now]. *)
Definition initialState (now : Q) : RunState :=
  {| gameState := menu; score := 0; currentLevelIndex := 0;
     speedMultiplier := 1;
     ballPos := mkPosition 100 (CANVAS_HEIGHT / 2);
     ballVel := mkPosition 0 0;
     gravityDir := 1; obstacles := []; powerUps := [];
     invulnerable := false; combo := 0; shake := 0;
     isEventActive := false; activeEventType := None;
     lastScore := 0; lastScoreTime := now;
     spawnMultiplier := 1; beatActive := false;
     prevTime := None; shieldTimer := None; slowTimer := None;
     eventTimers := [] |}.

(** ** Procedural generator *)

Section Generator.

(** The mirrors the generators read: level, score, event and beat. *)
Variable s : RunState.

Definition stormFactor : Q :=
  if isEventActive s &&
     match activeEventType s with Some storm => true | _ => false end
  then 1.2 else 1.

Definition beatFactor : Q := if beatActive s then 1.3 else 1.

Definition obstacleSpeed (jitter : Q) : Q :=
  (2.5 + jitter * 2 + inject_Z (score s) / 5000)
  * obstacleSpeedFactor (level (currentLevelIndex s))
  * stormFactor * beatFactor.

Definition obstacleWidth (type : ObstacleType) : Q :=
  match type with portal => 50 | crusher => 30 | _ => 40 end.

Definition obstacleHeight (type : ObstacleType) : Q :=
  match type with portal => 50 | crusher => 180 | _ => 70 end.

(** [types[Math.floor(Math.random() * types.length)]]; a draw in [[0,1)]
    keeps the index in range. *)
Definition generateObstacle (d : ObstacleDraws) : Obstacle.t :=
  let types := allowedObstacleTypes (level (currentLevelIndex s)) in
  let type :=
    nth (Z.to_nat (Math_floor (dType d * inject_Z (Z.of_nat (List.length types)))))
        types spinner in
  {| Obstacle.id := dId d;
     Obstacle.type := type;
     Obstacle.position :=
       mkPosition (CANVAS_WIDTH + 60) (dY d * (CANVAS_HEIGHT - 250) + 125);
     Obstacle.width := obstacleWidth type;
     Obstacle.height := obstacleHeight type;
     Obstacle.rotation := 0;
     Obstacle.speed := obstacleSpeed (dSpeed d);
     Obstacle.phase := dPhase d * Math_PI * 2;
     Obstacle.color := dColor d |}.

Definition generateSlot (offset : Offset) (d : ObstacleDraws) : Obstacle.t :=
  let allowed := allowedObstacleTypes (level (currentLevelIndex s)) in
  let type :=
    if existsb (ObstacleType_eqb (slot_type offset)) allowed
    then slot_type offset
    else nth 0 allowed spinner in
  {| Obstacle.id := dId d;
     Obstacle.type := type;
     Obstacle.position :=
       mkPosition (CANVAS_WIDTH + 60 + dx offset)
         (Math_min (Math_max (dy offset + CANVAS_HEIGHT / 2) 50)
                   (CANVAS_HEIGHT - 50));
     Obstacle.width := obstacleWidth type;
     Obstacle.height := obstacleHeight type;
     Obstacle.rotation := 0;
     Obstacle.speed := obstacleSpeed (dSpeed d);
     Obstacle.phase := dPhase d * Math_PI * 2;
     Obstacle.color := dColor d |}.

Fixpoint generateSlots (i : nat) (draws : nat -> ObstacleDraws)
    (offs : list Offset) : list Obstacle.t :=
  match offs with
  | [] => []
  | o :: rest => generateSlot o (draws i) :: generateSlots (S i) draws rest
  end.

(** [pattern.offsets.map(..)] over [PATTERNS[Math.floor(Math.random() * 4)]]. *)
Definition generateObstaclePattern (r : Rand) : list Obstacle.t :=
  let patternIndex :=
    Z.to_nat (Math_floor (rPatternIndex r * inject_Z (Z.of_nat (List.length PATTERNS)))) in
  let pattern := nth patternIndex PATTERNS (mkPattern []) in
  generateSlots 0 (rSlot r) (offsets pattern).

End Generator.

Definition generatePowerUp (d : PowerUpDraws) : PowerUp.t :=
  let types := [shield; slow; magnet] in
  {| PowerUp.id := pId d;
     PowerUp.type :=
       nth (Z.to_nat (Math_floor (pType d * inject_Z (Z.of_nat (List.length types)))))
           types shield;
     PowerUp.position :=
       mkPosition (CANVAS_WIDTH + 40) (pY d * (CANVAS_HEIGHT - 150) + 75);
     PowerUp.collected := false;
     PowerUp.pulse := 0 |}.

(** ** Physics integrator (the head of [gameLoop]) *)

(** [Math.min(2, Math.max(0.1, timeDelta / 16.66))]; a falsy [prevTimeRef]
    ([undefined] or [0]) makes [timeDelta] the reference interval. *)
Definition effectiveDeltaRatio (prev : option Q) (timestamp : Q) : Q :=
  let timeDelta :=
    match prev with
    | Some p => if Qeq_bool p 0 then 16.66 else timestamp - p
    | None => 16.66
    end in
  Math_min 2 (Math_max 0.1 (timeDelta / 16.66)).

Inductive Bounce := BounceTop | BounceBottom.

(** The outcome of the integration: the new vertical position and velocity
    and, in [flips], one entry per [setGravityDir(prevDir => -prevDir)] the
    frame queued. *)
Record Integrated := mkIntegrated {
  newTentativePosY : Q; newTentativeVelY : Q; flips : list Bounce
}.

(** [newTentativeVelY] after the clamp, before any bounce. *)
Definition clampedVelY (s : RunState) (effectiveDeltaRatio : Q) : Q :=
  let currentVelY := y (ballVel s) in
  let gravityForce := BASE_GRAVITY_FORCE * speedMultiplier s in
  Math_max (- MAX_VELOCITY * speedMultiplier s)
    (Math_min (MAX_VELOCITY * speedMultiplier s)
       (currentVelY + gravityForce * gravityDir s * effectiveDeltaRatio)).

(** [newTentativePosY] before any bounce. *)
Definition steppedPosY (s : RunState) (effectiveDeltaRatio : Q) : Q :=
  y (ballPos s) + clampedVelY s effectiveDeltaRatio * effectiveDeltaRatio.

(** The conditions of the [if] and of the [else if]. *)
Definition crossesTop (s : RunState) (dt : Q) : bool :=
  Qle_bool (steppedPosY s dt - BALL_RADIUS) 0 && Qltb (clampedVelY s dt) 0.

Definition crossesBottom (s : RunState) (dt : Q) : bool :=
  Qle_bool CANVAS_HEIGHT (steppedPosY s dt + BALL_RADIUS)
  && Qltb 0 (clampedVelY s dt).

Definition integrate (s : RunState) (effectiveDeltaRatio : Q) : Integrated :=
  if crossesTop s effectiveDeltaRatio then
    mkIntegrated BALL_RADIUS
      (- clampedVelY s effectiveDeltaRatio * BOUNCE_DAMPING) [BounceTop]
  else if crossesBottom s effectiveDeltaRatio then
    mkIntegrated (CANVAS_HEIGHT - BALL_RADIUS)
      (- clampedVelY s effectiveDeltaRatio * BOUNCE_DAMPING) [BounceBottom]
  else
    mkIntegrated (steppedPosY s effectiveDeltaRatio)
      (clampedVelY s effectiveDeltaRatio) [].

(** The queued [prevDir => -prevDir] updaters applied in order. *)
Definition applyFlips (fl : list Bounce) (dir : Q) : Q :=
  fold_left (fun d _ => - d) fl dir.

Definition bounceFeedback (currentPosX : Q) (b : Bounce) : Feedback :=
  match b with
  | BounceTop =>
      mkFeedback (mkPosition currentPosX BALL_RADIUS) 12 "#88FFFF" false
  | BounceBottom =>
      mkFeedback (mkPosition currentPosX (CANVAS_HEIGHT - BALL_RADIUS)) 12
                 "#FF88FF" false
  end.

(** ** Event modulator *)

(** [triggerRandomEvent], called at wall-clock time [now]. *)
Definition triggerRandomEvent (r : Rand) (now : Q) (s : RunState) : RunState :=
  if isEventActive s then s
  else
    let possibleEvents := [storm; fog; invertShock] in
    let chosen :=
      nth_error possibleEvents
        (Z.to_nat (Math_floor (rEventKind r
                               * inject_Z (Z.of_nat (List.length possibleEvents))))) in
    {| gameState := gameState s; score := score s;
       currentLevelIndex := currentLevelIndex s;
       speedMultiplier := speedMultiplier s;
       ballPos := ballPos s; ballVel := ballVel s; gravityDir := gravityDir s;
       obstacles := obstacles s; powerUps := powerUps s;
       invulnerable := invulnerable s; combo := combo s; shake := shake s;
       isEventActive := true;
       activeEventType := chosen;
       lastScore := lastScore s; lastScoreTime := lastScoreTime s;
       spawnMultiplier := spawnMultiplier s; beatActive := beatActive s;
       prevTime := prevTime s; shieldTimer := shieldTimer s;
       slowTimer := slowTimer s;
       eventTimers := eventTimers s ++ [now + EVENT_DURATION] |}.

(** The guard of [gameLoop] around the call. *)
Definition eventPhase (r : Rand) (dt now : Q) (s : RunState) : RunState :=
  if negb (isEventActive s)
     && Qltb (rEvent r) (eventProbability (level (currentLevelIndex s)) * dt)
  then triggerRandomEvent r now s
  else s.

(** ** Collision and interaction resolver *)

(** The geometric test of [checkObstacleCollisions]: the bounding boxes meet
    and the closest point of the obstacle's box lies inside the ball. *)
Definition overlaps (ballCurrentPos : Position) (obs : Obstacle.t) : bool :=
  let halfW := Obstacle.width obs / 2 in
  let halfH := Obstacle.height obs / 2 in
  let obsLeft := x (Obstacle.position obs) - halfW in
  let obsRight := x (Obstacle.position obs) + halfW in
  let obsTop := y (Obstacle.position obs) - halfH in
  let obsBottom := y (Obstacle.position obs) + halfH in
  if Qltb (x ballCurrentPos + BALL_RADIUS) obsLeft
     || Qltb obsRight (x ballCurrentPos - BALL_RADIUS)
     || Qltb (y ballCurrentPos + BALL_RADIUS) obsTop
     || Qltb obsBottom (y ballCurrentPos - BALL_RADIUS)
  then false
  else
    let closestX := Math_max obsLeft (Math_min (x ballCurrentPos) obsRight) in
    let closestY := Math_max obsTop (Math_min (y ballCurrentPos) obsBottom) in
    let dx := x ballCurrentPos - closestX in
    let dy := y ballCurrentPos - closestY in
    let distanceSquared := dx * dx + dy * dy in
    Qltb distanceSquared (BALL_RADIUS * BALL_RADIUS).

(** The loop returns [true] at the first obstacle that overlaps while the
    ball is vulnerable. *)
Definition checkObstacleCollisions (ballCurrentPos : Position)
    (obstaclesRef : list Obstacle.t) (invulnerableRef : bool) : bool :=
  existsb (fun obs => overlaps ballCurrentPos obs && negb invulnerableRef)
          obstaclesRef.

(** What the updater of [collectPowerUps] changes besides the power-ups. *)
Record Effects := mkEffects {
  e_invulnerable : bool; e_shieldTimer : option Q;
  e_obstacles : list Obstacle.t; e_slowTimer : option Q;
  e_score : Z; e_combo : Z;
  e_log : list Feedback; changed : bool
}.

Definition scaleSpeed (f : Q -> Q) (o : Obstacle.t) : Obstacle.t :=
  {| Obstacle.id := Obstacle.id o; Obstacle.type := Obstacle.type o;
     Obstacle.position := Obstacle.position o;
     Obstacle.width := Obstacle.width o; Obstacle.height := Obstacle.height o;
     Obstacle.rotation := Obstacle.rotation o;
     Obstacle.speed := f (Obstacle.speed o);
     Obstacle.phase := Obstacle.phase o; Obstacle.color := Obstacle.color o |}.

(** [obs.map(o => ({...o, speed: o.speed * 0.6}))] and its inverse. *)
Definition slowDown : list Obstacle.t -> list Obstacle.t :=
  map (scaleSpeed (fun v => v * SLOW_FACTOR)).

Definition slowRestore : list Obstacle.t -> list Obstacle.t :=
  map (scaleSpeed (fun v => v / SLOW_FACTOR)).

(** The same two updaters with the arithmetic of the engine: the literal
    [0.6] is the binary64 number nearest to it, and the product and the
    quotient are rounded. *)
Definition slowDown64 : list Obstacle.t -> list Obstacle.t :=
  map (scaleSpeed (fun v => binary64 (v * binary64 0.6))).

Definition slowRestore64 : list Obstacle.t -> list Obstacle.t :=
  map (scaleSpeed (fun v => binary64 (v / binary64 0.6))).

Definition inPickupRange (ballPosRef : Position) (p : PowerUp.t) : bool :=
  let dx := x ballPosRef - x (PowerUp.position p) in
  let dy := y ballPosRef - y (PowerUp.position p) in
  Qltb (dx * dx + dy * dy) POWERUP_COLLECTION_RADIUS_SQUARED.

Definition markCollected (p : PowerUp.t) : PowerUp.t :=
  {| PowerUp.id := PowerUp.id p; PowerUp.type := PowerUp.type p;
     PowerUp.position := PowerUp.position p;
     PowerUp.collected := true; PowerUp.pulse := PowerUp.pulse p |}.

(** The [switch (p.type)] of a pickup; a fresh timer replaces the live one. *)
Definition applyPowerUp (now : Q) (p : PowerUp.t) (e : Effects) : Effects :=
  let log := e_log e ++ [mkFeedback (PowerUp.position p) 15 "#32CD32" false] in
  match PowerUp.type p with
  | shield =>
      mkEffects true (Some (now + SHIELD_DURATION))
                (e_obstacles e) (e_slowTimer e) (e_score e) (e_combo e) log true
  | slow =>
      mkEffects (e_invulnerable e) (e_shieldTimer e)
                (slowDown (e_obstacles e)) (Some (now + SLOW_MOTION_DURATION))
                (e_score e) (e_combo e) log true
  | magnet =>
      mkEffects (e_invulnerable e) (e_shieldTimer e)
                (e_obstacles e) (e_slowTimer e)
                (e_score e + 500)%Z (e_combo e + 5)%Z log true
  end.

(** One iteration of the loop, which runs from the last power-up to the
    first: [acc] holds the entries already visited and their effects. *)
Definition collectOne (now : Q) (ballPosRef : Position) (p : PowerUp.t)
    (acc : list PowerUp.t * Effects) : list PowerUp.t * Effects :=
  if PowerUp.collected p then (p :: fst acc, snd acc)
  else if inPickupRange ballPosRef p
       then (markCollected p :: fst acc, applyPowerUp now p (snd acc))
       else (p :: fst acc, snd acc).

Definition collectPowerUps (now : Q) (ballPosRef : Position)
    (prevPowerUps : list PowerUp.t) (e : Effects) : list PowerUp.t * Effects :=
  let res := fold_right (collectOne now ballPosRef) ([], e) prevPowerUps in
  (if changed (snd res)
   then filter (fun p => negb (PowerUp.collected p)
                         || Qltb (-50) (x (PowerUp.position p))) (fst res)
   else prevPowerUps,
   snd res).

(** The test under which the loop collects [p], and how many power-ups of
    one type a pass over [pows] collects. *)
Definition picked (ballPosRef : Position) (p : PowerUp.t) : bool :=
  negb (PowerUp.collected p) && inPickupRange ballPosRef p.

Definition PowerUpType_eqb (a b : PowerUpType) : bool :=
  match a, b with
  | shield, shield | slow, slow | magnet, magnet => true
  | _, _ => false
  end.

Definition countPicked (ballPosRef : Position) (ty : PowerUpType)
    (pows : list PowerUp.t) : nat :=
  List.length
    (filter (fun p => picked ballPosRef p && PowerUpType_eqb (PowerUp.type p) ty)
            pows).

(** ** Input hook, run start, effects and timers *)

(** [toggleGravity]: the flip and its feedback ([setShake(6)], a burst whose
    colour depends on the direction before the flip). *)
Definition toggleGravity (s : RunState) : RunState * list Feedback :=
  match gameState s with
  | playing =>
      ({| gameState := gameState s; score := score s;
          currentLevelIndex := currentLevelIndex s;
          speedMultiplier := speedMultiplier s;
          ballPos := ballPos s; ballVel := ballVel s;
          gravityDir := - gravityDir s;
          obstacles := obstacles s; powerUps := powerUps s;
          invulnerable := invulnerable s; combo := combo s;
          shake := 6;
          isEventActive := isEventActive s;
          activeEventType := activeEventType s;
          lastScore := lastScore s; lastScoreTime := lastScoreTime s;
          spawnMultiplier := spawnMultiplier s; beatActive := beatActive s;
          prevTime := prevTime s; shieldTimer := shieldTimer s;
          slowTimer := slowTimer s; eventTimers := eventTimers s |},
       [mkFeedback (ballPos s) 8
          (if Qeq_bool (gravityDir s) 1 then "#FFB6C1" else "#87CEFA") false])
  | _ => (s, [])
  end.

(** [startGame] at wall-clock time [now]; the effect on [gameState] that
    follows it sets [prevTimeRef] to [performance.now()].  The shield and
    slow timers are cleared, the event timers are not. *)
Definition startGame (r : Rand) (now : Q) (s : RunState) : RunState :=
  {| gameState := playing; score := 0; currentLevelIndex := 0;
     speedMultiplier := speedMultiplier s;
     ballPos := mkPosition 100 (CANVAS_HEIGHT / 2);
     ballVel := mkPosition 0 0;
     gravityDir := 1;
     obstacles := [generateObstacle s (rObstacle r)];
     powerUps := [];
     invulnerable := false; combo := 0; shake := 0;
     isEventActive := false; activeEventType := None;
     lastScore := lastScore s; lastScoreTime := lastScoreTime s;
     spawnMultiplier := 1; beatActive := false;
     prevTime := Some now; shieldTimer := None; slowTimer := None;
     eventTimers := eventTimers s |}.

Definition handleGameAction (r : Rand) (now : Q) (s : RunState)
    : RunState * list Feedback :=
  match gameState s with
  | menu | gameOver => (startGame r now s, [])
  | playing => toggleGravity s
  end.

(** The level-advance effect, run after a render in which [score] or
    [currentLevelIndex] changed. *)
Definition levelEffect (s : RunState) : RunState * list Feedback :=
  let nextLevelIndex := S (currentLevelIndex s) in
  if (nextLevelIndex <? List.length LEVELS)%nat
     && (thresholdScore (level nextLevelIndex) <=? score s)%Z
  then
    ({| gameState := gameState s; score := score s;
        currentLevelIndex := nextLevelIndex;
        speedMultiplier := speedMultiplier s;
        ballPos := ballPos s; ballVel := ballVel s; gravityDir := gravityDir s;
        obstacles := obstacles s; powerUps := powerUps s;
        invulnerable := invulnerable s; combo := combo s; shake := shake s;
        isEventActive := isEventActive s;
        activeEventType := activeEventType s;
        lastScore := lastScore s; lastScoreTime := lastScoreTime s;
        spawnMultiplier := spawnMultiplier s; beatActive := beatActive s;
        prevTime := prevTime s; shieldTimer := shieldTimer s;
        slowTimer := slowTimer s; eventTimers := eventTimers s |},
     [mkFeedback (mkPosition (CANVAS_WIDTH / 2) (CANVAS_HEIGHT / 2)) 30
                 "#FFD700" false])
  else (s, []).

(** Whether the effect emits its celebratory burst. *)
Definition firesLevelUp (s : RunState) : bool :=
  match snd (levelEffect s) with [] => false | _ :: _ => true end.

(** The adaptive spawn-rate effect, run at wall-clock time [now]. *)
Definition spawnRateEffect (now : Q) (s : RunState) : RunState :=
  let elapsed := (now - lastScoreTime s) / 1000 in
  if Qle_bool 2 elapsed then
    let gained := (score s - lastScore s)%Z in
    let pps := inject_Z gained / elapsed in
    {| gameState := gameState s; score := score s;
       currentLevelIndex := currentLevelIndex s;
       speedMultiplier := speedMultiplier s;
       ballPos := ballPos s; ballVel := ballVel s; gravityDir := gravityDir s;
       obstacles := obstacles s; powerUps := powerUps s;
       invulnerable := invulnerable s; combo := combo s; shake := shake s;
       isEventActive := isEventActive s;
       activeEventType := activeEventType s;
       lastScore := score s; lastScoreTime := now;
       spawnMultiplier :=
         if Qltb 15 pps then Math_min 1.5 (spawnMultiplier s + 0.05)
         else if Qltb pps 5 then Math_max 0.8 (spawnMultiplier s - 0.05)
         else spawnMultiplier s;
       beatActive := beatActive s;
       prevTime := prevTime s; shieldTimer := shieldTimer s;
       slowTimer := slowTimer s; eventTimers := eventTimers s |}
  else s.

Definition due (now : Q) (t : Q) : bool := Qle_bool t now.

Definition dueOpt (now : Q) (t : option Q) : bool :=
  match t with Some d => due now d | None => false end.

(** The [setTimeout] callbacks that are due at wall-clock time [now]: the
    shield ends, the slow motion is undone, the event slot is emptied. *)
Definition runTimers (now : Q) (s : RunState) : RunState :=
  let eventDue := existsb (due now) (eventTimers s) in
  {| gameState := gameState s; score := score s;
     currentLevelIndex := currentLevelIndex s;
     speedMultiplier := speedMultiplier s;
     ballPos := ballPos s; ballVel := ballVel s; gravityDir := gravityDir s;
     obstacles :=
       if dueOpt now (slowTimer s) then slowRestore (obstacles s)
       else obstacles s;
     powerUps := powerUps s;
     invulnerable :=
       if dueOpt now (shieldTimer s) then false else invulnerable s;
     combo := combo s; shake := shake s;
     isEventActive := if eventDue then false else isEventActive s;
     activeEventType := if eventDue then None else activeEventType s;
     lastScore := lastScore s; lastScoreTime := lastScoreTime s;
     spawnMultiplier := spawnMultiplier s; beatActive := beatActive s;
     prevTime := prevTime s;
     shieldTimer := if dueOpt now (shieldTimer s) then None else shieldTimer s;
     slowTimer := if dueOpt now (slowTimer s) then None else slowTimer s;
     eventTimers := filter (fun t => negb (due now t)) (eventTimers s) |}.

(** The speed slider, rendered only on the menu, with range [[0.8, 1.5]]. *)
Definition setSpeedMultiplier (v : Q) (s : RunState) : RunState :=
  match gameState s with
  | menu =>
      if Qle_bool 0.8 v && Qle_bool v 1.5 then
        {| gameState := gameState s; score := score s;
           currentLevelIndex := currentLevelIndex s;
           speedMultiplier := v;
           ballPos := ballPos s; ballVel := ballVel s;
           gravityDir := gravityDir s;
           obstacles := obstacles s; powerUps := powerUps s;
           invulnerable := invulnerable s; combo := combo s; shake := shake s;
           isEventActive := isEventActive s;
           activeEventType := activeEventType s;
           lastScore := lastScore s; lastScoreTime := lastScoreTime s;
           spawnMultiplier := spawnMultiplier s; beatActive := beatActive s;
           prevTime := prevTime s; shieldTimer := shieldTimer s;
           slowTimer := slowTimer s; eventTimers := eventTimers s |}
      else s
  | _ => s
  end.

(** The beat signal of the audio analyser ([setBeatActive]). *)
Definition setBeatActive (b : bool) (s : RunState) : RunState :=
  {| gameState := gameState s; score := score s;
     currentLevelIndex := currentLevelIndex s;
     speedMultiplier := speedMultiplier s;
     ballPos := ballPos s; ballVel := ballVel s; gravityDir := gravityDir s;
     obstacles := obstacles s; powerUps := powerUps s;
     invulnerable := invulnerable s; combo := combo s; shake := shake s;
     isEventActive := isEventActive s; activeEventType := activeEventType s;
     lastScore := lastScore s; lastScoreTime := lastScoreTime s;
     spawnMultiplier := spawnMultiplier s; beatActive := b;
     prevTime := prevTime s; shieldTimer := shieldTimer s;
     slowTimer := slowTimer s; eventTimers := eventTimers s |}.

(** ** Tick orchestrator *)

Section Simulation.

(** [Math.sin], used by the wave and crusher motions only. *)
Variable Math_sin : Q -> Q.

(** The body of the [map] over the obstacles; it reads the event and beat
    mirrors of the committed state [s]. *)
Definition advanceObstacle (s : RunState) (effectiveDeltaRatio : Q)
    (obs : Obstacle.t) : Obstacle.t :=
  let speedMultiplierEvent := stormFactor s in
  let speedMultiplierBeat := beatFactor s in
  let type := Obstacle.type obs in
  let speed := Obstacle.speed obs in
  let px := x (Obstacle.position obs)
            - speed * speedMultiplierEvent * speedMultiplierBeat
              * effectiveDeltaRatio in
  let phase := Obstacle.phase obs
               + 0.05 * effectiveDeltaRatio
                 * (match type with crusher => 2 | _ => 1 end) in
  {| Obstacle.id := Obstacle.id obs;
     Obstacle.type := type;
     Obstacle.position :=
       mkPosition px
         (match type with
          | wave => y (Obstacle.position obs)
                    + Math_sin phase * 1.5 * effectiveDeltaRatio
          | _ => y (Obstacle.position obs)
          end);
     Obstacle.width := Obstacle.width obs;
     Obstacle.height :=
       match type with
       | crusher => 150 + Qabs (Math_sin phase) * 100
       | _ => Obstacle.height obs
       end;
     Obstacle.rotation :=
       match type with
       | spinner => Obstacle.rotation obs + 4 * effectiveDeltaRatio * (speed / 3)
       | portal => Obstacle.rotation obs - 2.5 * effectiveDeltaRatio
       | _ => Obstacle.rotation obs
       end;
     Obstacle.speed := speed;
     Obstacle.phase := phase;
     Obstacle.color := Obstacle.color obs |}.

Definition onScreen (obs : Obstacle.t) : bool :=
  Qltb (-150) (x (Obstacle.position obs)).

Definition advanceObstacles (s : RunState) (dt : Q)
    (prevObs : list Obstacle.t) : list Obstacle.t :=
  filter onScreen (map (advanceObstacle s dt) prevObs).

Definition advancePowerUp (dt : Q) (p : PowerUp.t) : PowerUp.t :=
  {| PowerUp.id := PowerUp.id p; PowerUp.type := PowerUp.type p;
     PowerUp.position :=
       mkPosition (x (PowerUp.position p) - 2.5 * dt) (y (PowerUp.position p));
     PowerUp.collected := PowerUp.collected p;
     PowerUp.pulse := PowerUp.pulse p + 0.15 * dt |}.

Definition advancePowerUps (dt : Q) (prevPows : list PowerUp.t)
    : list PowerUp.t :=
  filter (fun p => negb (PowerUp.collected p)
                   || Qltb (PowerUp.pulse p) (Math_PI * 4))
    (filter (fun p => Qltb (-80) (x (PowerUp.position p))
                      || PowerUp.collected p)
       (map (advancePowerUp dt) prevPows)).

Definition dynamicObstacleChance (s : RunState) : Q :=
  obstacleBaseChance (level (currentLevelIndex s)) * spawnMultiplier s
  + inject_Z (score s) * 0.00001.

(** The spawn gate: the draw, then the count of the committed obstacles. *)
Definition spawnGate (r : Rand) (dt : Q) (s : RunState) : bool :=
  Qltb (rSpawn r) (dynamicObstacleChance s * dt)
  && (List.length (obstacles s) <? obstacleMax (level (currentLevelIndex s)))%nat.

Definition patternChosen (r : Rand) : bool := Qltb (rPattern r) 0.25.

(** What the spawn updater appends. *)
Definition spawnObstacles (r : Rand) (dt : Q) (s : RunState)
    : list Obstacle.t :=
  if spawnGate r dt s then
    if patternChosen r then generateObstaclePattern s r
    else [generateObstacle s (rObstacle r)]
  else [].

Definition spawnPowerUps (r : Rand) (dt : Q) (s : RunState)
    : list PowerUp.t :=
  if Qltb (rPowerUpChance r)
          (powerUpChance (level (currentLevelIndex s)) * dt)
     && (List.length (filter (fun p => negb (PowerUp.collected p)) (powerUps s))
         <? 2)%nat
  then [generatePowerUp (rPowerUp r)]
  else [].

(** The pickups of a frame: [collectPowerUps] applied to the power-ups and
    obstacles as the earlier updaters of the frame left them, with the ball
    position still the committed one. *)
Definition pickups (r : Rand) (timestamp dt : Q) (s : RunState)
    : list PowerUp.t * Effects :=
  collectPowerUps timestamp (ballPos s)
    (advancePowerUps dt (powerUps s) ++ spawnPowerUps r dt s)
    {| e_invulnerable := invulnerable s; e_shieldTimer := shieldTimer s;
       e_obstacles := advanceObstacles s dt (obstacles s) ++ spawnObstacles r dt s;
       e_slowTimer := slowTimer s;
       e_score := (score s + Math_round (1 * dt))%Z;
       e_combo := (combo s + Math_round (1 * dt))%Z;
       e_log := []; changed := false |}.

(** One frame: [gameLoop(timestamp)] followed by the render that applies the
    queued updaters. *)
Definition gameLoop (r : Rand) (timestamp : Q) (s : RunState)
    : RunState * list Feedback :=
  match gameState s with
  | playing =>
      let dt := effectiveDeltaRatio (prevTime s) timestamp in
      let currentPosX := x (ballPos s) in
      let ph := integrate s dt in
      let collisionCheckPos := mkPosition currentPosX (newTentativePosY ph) in
      let ev := eventPhase r dt timestamp s in
      let collidedWithObstacle :=
        checkObstacleCollisions collisionCheckPos (obstacles s) (invulnerable s) in
      let pk := pickups r timestamp dt s in
      ({| gameState := if collidedWithObstacle then gameOver else gameState s;
          score := e_score (snd pk);
          currentLevelIndex := currentLevelIndex s;
          speedMultiplier := speedMultiplier s;
          ballPos := collisionCheckPos;
          ballVel := mkPosition 0 (newTentativeVelY ph);
          gravityDir := applyFlips (flips ph) (gravityDir s);
          obstacles := e_obstacles (snd pk);
          powerUps := fst pk;
          invulnerable := e_invulnerable (snd pk);
          combo := e_combo (snd pk);
          shake := Math_max 0 ((match flips ph with [] => shake s | _ => 5 end)
                               - 0.5 * dt);
          isEventActive := isEventActive ev;
          activeEventType := activeEventType ev;
          lastScore := lastScore s; lastScoreTime := lastScoreTime s;
          spawnMultiplier := spawnMultiplier s; beatActive := beatActive s;
          prevTime := Some timestamp;
          shieldTimer := e_shieldTimer (snd pk);
          slowTimer := e_slowTimer (snd pk);
          eventTimers := eventTimers ev |},
       map (bounceFeedback currentPosX) (flips ph)
       ++ (if collidedWithObstacle
           then [mkFeedback (ballPos s) 30 "#FF4500" true] else [])
       ++ e_log (snd pk))
  | _ => (s, [])
  end.

(** ** Runs *)

(** What can happen to a mounted component, one entry at a time. *)
Inductive Action :=
| Frame (r : Rand) (timestamp : Q)
| Press (r : Rand) (now : Q)
| LevelEffect
| SpawnRateEffect (now : Q)
| Timers (now : Q)
| Slider (v : Q)
| Beat (b : bool).

Definition step (a : Action) (s : RunState) : RunState * list Feedback :=
  match a with
  | Frame r timestamp => gameLoop r timestamp s
  | Press r now => handleGameAction r now s
  | LevelEffect => levelEffect s
  | SpawnRateEffect now => (spawnRateEffect now s, [])
  | Timers now => (runTimers now s, [])
  | Slider v => (setSpeedMultiplier v s, [])
  | Beat b => (setBeatActive b s, [])
  end.

(** The state after a list of actions, the first action first, and the
    feedback of each action in turn. *)
Fixpoint run (acts : list Action) (s : RunState) : RunState * list (list Feedback) :=
  match acts with
  | [] => (s, [])
  | a :: rest =>
      let (s1, fb) := step a s in
      let (s2, fbs) := run rest s1 in
      (s2, fb :: fbs)
  end.

(** A state some run reaches from the mount. *)
Definition reachable (s : RunState) : Prop :=
  exists now acts, s = fst (run acts (initialState now)).

(** No action of the list starts a new game: every [Press] falls on a state
    that is [playing], where it only flips gravity. *)
Fixpoint sameRun (acts : list Action) (s : RunState) : bool :=
  match acts with
  | [] => true
  | a :: rest =>
      match a with
      | Press _ _ => GameState_eqb (gameState s) playing
      | _ => true
      end
      && sameRun rest (fst (step a s))
  end.

(** The level-advance bursts of a run, each by the level it announces. *)
Fixpoint levelSignals (acts : list Action) (s : RunState) : list nat :=
  match acts with
  | [] => []
  | a :: rest =>
      match a with
      | LevelEffect =>
          if firesLevelUp s then [currentLevelIndex (fst (levelEffect s))]
          else []
      | _ => []
      end
      ++ levelSignals rest (fst (step a s))
  end.

(** An obstacle carried through the frames of [ctx], each given by the
    committed state it starts from and its time ratio. *)
Definition obstacleLife (ctx : list (RunState * Q)) (o : Obstacle.t)
    : Obstacle.t :=
  fold_left (fun o c => advanceObstacle (fst c) (snd c) o) ctx o.

End Simulation.

(** ** Sample inputs *)

(** A trivial stand-in for [Math.sin], for closed examples. *)
Definition flat_sin (q : Q) : Q := 0.

Definition sampleObstacle : ObstacleDraws :=
  mkObstacleDraws 0 0 0.5 0 "obs-a" "hsl(0, 75%, 65%)".

Definition samplePowerUp : PowerUpDraws := mkPowerUpDraws 0.9 0.5 "pow-a".

(** Draws under which a frame triggers nothing and spawns nothing. *)
Definition quiet : Rand :=
  mkRand 0.99 0 0.99 0.99 0 sampleObstacle (fun _ => sampleObstacle)
         0.99 samplePowerUp.

(** Draws under which a frame spawns one obstacle, or a pattern. *)
Definition spawnSingle : Rand :=
  mkRand 0.99 0 0 0.5 0 sampleObstacle (fun _ => sampleObstacle)
         0.99 samplePowerUp.

Definition spawnPattern : Rand :=
  mkRand 0.99 0 0 0 0 sampleObstacle (fun _ => sampleObstacle)
         0.99 samplePowerUp.

(** Draws under which a frame triggers the first event kind. *)
Definition stormy : Rand :=
  mkRand 0 0 0.99 0.99 0 sampleObstacle (fun _ => sampleObstacle)
         0.99 samplePowerUp.

(** A run in progress at wall-clock time [1000], level 0, no event. *)
Definition sampleRun (sc : Z) (ballY velY dir : Q) (obs : list Obstacle.t)
    (pows : list PowerUp.t) (shielded : bool) : RunState :=
  {| gameState := playing; score := sc; currentLevelIndex := 0;
     speedMultiplier := 1;
     ballPos := mkPosition 100 ballY; ballVel := mkPosition 0 velY;
     gravityDir := dir; obstacles := obs; powerUps := pows;
     invulnerable := shielded; combo := sc; shake := 0;
     isEventActive := false; activeEventType := None;
     lastScore := 0; lastScoreTime := 0;
     spawnMultiplier := 1; beatActive := false;
     prevTime := Some 1000;
     shieldTimer := if shielded then Some 5000 else None;
     slowTimer := None; eventTimers := [] |}.

(** An obstacle on the ball, and one far to the right. *)
Definition hitObstacle : Obstacle.t :=
  Obstacle.mk "obs-hit" spinner (mkPosition 100 300) 40 70 0 2.5 0
              "hsl(0, 75%, 65%)".

Definition farObstacle : Obstacle.t :=
  Obstacle.mk "obs-far" spinner (mkPosition 400 300) 40 70 0 2.5 0
              "hsl(0, 75%, 65%)".

(** Power-ups ten pixels right of the ball. *)
Definition nearMagnet : PowerUp.t :=
  PowerUp.mk "pow-m" magnet (mkPosition 110 300) false 0.

Definition nearSlow : PowerUp.t :=
  PowerUp.mk "pow-s" slow (mkPosition 110 300) false 0.

(** From the mount: start a game, then two frames that each spawn one
    obstacle.  Three obstacles are live at level 0, whose [obstacleMax]
    is 4. *)
Definition capRun : list Action :=
  [Press quiet 0; Frame spawnSingle 16.66; Frame spawnSingle 33.32].

(** * Properties *)

(** ** Comparisons, [Math.min] and [Math.max] *)

Lemma Qltb_lt (a b : Q) : Qltb a b = true <-> a < b.
Proof.
  unfold Qltb. rewrite negb_true_iff. split; intro H.
  - apply Qnot_le_lt. intro Hle. apply Qle_bool_iff in Hle. congruence.
  - destruct (Qle_bool b a) eqn:E; [|reflexivity].
    apply Qle_bool_iff in E. exfalso. apply (Qlt_not_le _ _ H E).
Qed.

Lemma Qltb_ge (a b : Q) : Qltb a b = false <-> b <= a.
Proof.
  unfold Qltb. rewrite negb_false_iff. apply Qle_bool_iff.
Qed.

Lemma Qle_bool_gt (a b : Q) : Qle_bool a b = false <-> b < a.
Proof.
  rewrite <- Qltb_lt. unfold Qltb. now rewrite negb_true_iff.
Qed.

Lemma Math_min_spec (a b : Q) :
  (a <= b /\ Math_min a b = a) \/ (b < a /\ Math_min a b = b).
Proof.
  unfold Math_min. destruct (Qle_bool a b) eqn:E.
  - left. split; [now apply Qle_bool_iff | reflexivity].
  - right. split; [now apply Qle_bool_gt | reflexivity].
Qed.

Lemma Math_max_spec (a b : Q) :
  (a <= b /\ Math_max a b = b) \/ (b < a /\ Math_max a b = a).
Proof.
  unfold Math_max. destruct (Qle_bool a b) eqn:E.
  - left. split; [now apply Qle_bool_iff | reflexivity].
  - right. split; [now apply Qle_bool_gt | reflexivity].
Qed.

(** A clamp between [-m] and [m] lands between them when [0 <= m]. *)
Lemma clamp_bounds (m v : Q) :
  0 <= m -> - m <= Math_max (- m) (Math_min m v) <= m.
Proof.
  intro Hm.
  destruct (Math_min_spec m v) as [[H1 ->] | [H1 ->]];
    destruct (Math_max_spec (- m) m) as [[H2 E2] | [H2 E2]];
    destruct (Math_max_spec (- m) v) as [[H3 E3] | [H3 E3]];
    try rewrite E2; try rewrite E3; split; lra.
Qed.

Lemma Qabs_bound (m v : Q) : - m <= v <= m -> Qabs v <= m.
Proof. intros [H1 H2]. apply Qabs_Qle_condition. split; assumption. Qed.

Lemma effectiveDeltaRatio_range (prev : option Q) (timestamp : Q) :
  0.1 <= effectiveDeltaRatio prev timestamp <= 2.
Proof.
  unfold effectiveDeltaRatio.
  set (d := match prev with
            | Some p => if Qeq_bool p 0 then 16.66 else timestamp - p
            | None => 16.66 end / 16.66).
  destruct (Math_max_spec 0.1 d) as [[H1 E1] | [H1 E1]]; rewrite E1;
    [ destruct (Math_min_spec 2 d) as [[H2 E2] | [H2 E2]]
    | destruct (Math_min_spec 2 0.1) as [[H2 E2] | [H2 E2]] ];
    rewrite E2; split; lra.
Qed.

(** ** binary64 rounding *)

Lemma pow2_Qpower_pos (p : positive) : inject_Z (Zpos (2 ^ p)) == 2 ^ Zpos p.
Proof. rewrite Pos2Z.inj_pow. rewrite Zpower_Qpower by lia. reflexivity. Qed.

Lemma pow2_Qpower (e : Z) : pow2 e == 2 ^ e.
Proof.
  destruct e as [|p|p]; cbn [pow2].
  - reflexivity.
  - apply pow2_Qpower_pos.
  - change (Z.neg p) with (- Z.pos p)%Z. rewrite Qpower_opp.
    rewrite <- pow2_Qpower_pos. reflexivity.
Qed.

Lemma pow2_pos (e : Z) : 0 < pow2 e.
Proof. rewrite pow2_Qpower. apply Qpower_0_lt. reflexivity. Qed.

Lemma pow2_add (a b : Z) : pow2 (a + b) == pow2 a * pow2 b.
Proof. rewrite !pow2_Qpower. apply Qpower_plus. discriminate. Qed.

Lemma pow2_Z (n : Z) : (0 <= n)%Z -> pow2 n == inject_Z (2 ^ n).
Proof. intro H. rewrite pow2_Qpower, Zpower_Qpower by exact H. reflexivity. Qed.

Lemma roundHalfEven_error (y : Q) :
  Qabs (inject_Z (roundHalfEven y) - y) <= 1 # 2.
Proof.
  unfold roundHalfEven.
  pose proof (Qfloor_le y) as Hlo. pose proof (Qlt_floor y) as Hhi.
  rewrite inject_Z_plus in Hhi. change (inject_Z 1) with 1 in Hhi.
  set (f := inject_Z (Qfloor y)) in *.
  apply Qabs_Qle_condition.
  destruct (Qcompare (y - f) (1 # 2)) eqn:E.
  - apply Qeq_alt in E.
    destruct (Z.even (Qfloor y)); rewrite ?inject_Z_plus; fold f;
      change (inject_Z 1) with 1; clearbody f.
    all: split; lra.
  - apply Qlt_alt in E. fold f. clearbody f. split; lra.
  - apply Qgt_alt in E. rewrite inject_Z_plus. fold f.
    change (inject_Z 1) with 1. clearbody f. split; lra.
Qed.

Lemma Q_log2_bounds (x : Q) :
  0 < x ->
  pow2 (Z.log2 (Qnum x) - Z.log2 (Zpos (Qden x)) - 1) <= x
  /\ x < pow2 (Z.log2 (Qnum x) - Z.log2 (Zpos (Qden x)) + 1).
Proof.
  intro Hx. destruct x as [n d]. cbn [Qnum Qden].
  assert (Hn : (0 < n)%Z).
  { unfold Qlt in Hx. cbn in Hx. lia. }
  destruct (Z.log2_spec n Hn) as [Hn1 Hn2].
  destruct (Z.log2_spec (Zpos d) (Pos2Z.is_pos d)) as [Hd1 Hd2].
  pose proof (Z.log2_nonneg n) as Ha. pose proof (Z.log2_nonneg (Zpos d)) as Hb.
  set (a := Z.log2 n) in *. set (b := Z.log2 (Zpos d)) in *.
  rewrite (Qmake_Qdiv n d).
  assert (Ha1 : pow2 a <= inject_Z n).
  { rewrite pow2_Z by lia. rewrite <- Zle_Qle. exact Hn1. }
  assert (Ha2 : inject_Z n < pow2 (a + 1)).
  { rewrite pow2_Z by lia. rewrite <- Zlt_Qlt. replace (a + 1)%Z with (Z.succ a) by lia. exact Hn2. }
  assert (Hb1 : pow2 b <= inject_Z (Zpos d)).
  { rewrite pow2_Z by lia. rewrite <- Zle_Qle. exact Hd1. }
  assert (Hb2 : inject_Z (Zpos d) < pow2 (b + 1)).
  { rewrite pow2_Z by lia. rewrite <- Zlt_Qlt. replace (b + 1)%Z with (Z.succ b) by lia. exact Hd2. }
  assert (Hdpos : 0 < inject_Z (Zpos d)).
  { change 0 with (inject_Z 0). rewrite <- Zlt_Qlt. lia. }
  assert (E1 : pow2 (a - b - 1) * pow2 (b + 1) == pow2 a).
  { rewrite <- pow2_add. replace (a - b - 1 + (b + 1))%Z with a by lia. reflexivity. }
  assert (E2 : pow2 (a - b + 1) * pow2 b == pow2 (a + 1)).
  { rewrite <- pow2_add. replace (a - b + 1 + b)%Z with (a + 1)%Z by lia. reflexivity. }
  pose proof (pow2_pos (a - b - 1)) as P1. pose proof (pow2_pos (a - b + 1)) as P2.
  pose proof (pow2_pos b) as P3. pose proof (pow2_pos (b + 1)) as P4.
  set (N := inject_Z n) in *. set (D := inject_Z (Zpos d)) in *.
  set (L := pow2 (a - b - 1)) in *. set (U := pow2 (a - b + 1)) in *.
  set (pa := pow2 a) in *. set (pa1 := pow2 (a + 1)) in *.
  set (pb := pow2 b) in *. set (pb1 := pow2 (b + 1)) in *.
  clearbody N D L U pa pa1 pb pb1.
  split.
  - apply Qle_shift_div_l; [exact Hdpos|]. nra.
  - apply Qlt_shift_div_r; [exact Hdpos|]. nra.
Qed.

Lemma exponent_spec (x : Q) :
  0 < x ->
  pow2 52 * pow2 (exponent x) <= x /\ x < pow2 53 * pow2 (exponent x).
Proof.
  intro Hx. destruct (Q_log2_bounds x Hx) as [Hlo Hhi].
  unfold exponent.
  set (k := (Z.log2 (Qnum x) - Z.log2 (Zpos (Qden x)))%Z) in *.
  destruct (Qle_bool (pow2 (k - 52 + 52)) x) eqn:E.
  - apply Qle_bool_iff in E. rewrite <- !pow2_add.
    replace (52 + (k - 52))%Z with (k - 52 + 52)%Z by lia.
    replace (53 + (k - 52))%Z with (k + 1)%Z by lia. split; assumption.
  - assert (E' : x < pow2 (k - 52 + 52)).
    { apply Qnot_le_lt. intro H. apply Qle_bool_iff in H. congruence. }
    rewrite <- !pow2_add.
    replace (52 + (k - 52 - 1))%Z with (k - 1)%Z by lia.
    replace (53 + (k - 52 - 1))%Z with (k - 52 + 52)%Z by lia. split; assumption.
Qed.

Lemma roundPos_error (x : Q) :
  0 < x -> Qabs (roundPos x - x) <= x * unit_roundoff.
Proof.
  intro Hx. destruct (exponent_spec x Hx) as [Hlo _].
  unfold roundPos. pose proof (pow2_pos (exponent x)) as Hp.
  pose proof (roundHalfEven_error (x / pow2 (exponent x))) as Hr.
  set (p := pow2 (exponent x)) in *.
  set (m := inject_Z (roundHalfEven (x / p))) in *.
  assert (Ex : x == x / p * p) by (field; lra).
  set (y := x / p) in *. clearbody m y p.
  apply Qabs_Qle_condition in Hr. apply Qabs_Qle_condition.
  change (pow2 52) with (inject_Z 4503599627370496) in Hlo.
  unfold unit_roundoff.
  change (1 # 2 ^ 53) with (/ inject_Z 9007199254740992).
  set (T := inject_Z 4503599627370496) in *.
  assert (HT : inject_Z 9007199254740992 == 2 * T) by reflexivity.
  assert (HTpos : 0 < T) by reflexivity.
  rewrite HT. clearbody T.
  assert (Hh : p * (1 # 2) <= x * / (2 * T)).
  { apply Qle_shift_div_l; [lra|]. nra. }
  split; nra.
Qed.

Lemma binary64_error (x : Q) :
  Qabs (binary64 x - x) <= Qabs x * unit_roundoff.
Proof.
  unfold binary64. destruct (Qcompare x 0) eqn:E.
  - apply Qeq_alt in E. rewrite E. vm_compute. discriminate.
  - apply Qlt_alt in E. assert (H : 0 < - x) by lra.
    pose proof (roundPos_error (- x) H) as Hr.
    rewrite (Qabs_neg x) by lra.
    apply Qabs_Qle_condition in Hr. apply Qabs_Qle_condition.
    set (w := roundPos (- x)) in *. clearbody w. split; lra.
  - apply Qgt_alt in E. rewrite (Qabs_pos x) by lra.
    now apply roundPos_error.
Qed.

Lemma Qabs_bounds (x : Q) : - Qabs x <= x <= Qabs x.
Proof. apply Qabs_Qle_condition. apply Qle_refl. Qed.

Lemma Qabs_le_of_bounds (x b : Q) : - b <= x <= b -> Qabs x <= b.
Proof. apply Qabs_Qle_condition. Qed.

Lemma binary64_magnitude (x : Q) :
  Qabs x * (1 - unit_roundoff) <= Qabs (binary64 x)
  /\ Qabs (binary64 x) <= Qabs x * (1 + unit_roundoff).
Proof.
  pose proof (binary64_error x) as H.
  pose proof (Qabs_triangle_reverse (binary64 x) x) as H1.
  pose proof (Qabs_triangle_reverse x (binary64 x)) as H2.
  rewrite (Qabs_Qminus x (binary64 x)) in H2.
  set (a := Qabs (binary64 x)) in *. set (b := Qabs x) in *.
  set (d := Qabs (binary64 x - x)) in *. set (u := unit_roundoff) in *.
  clearbody a b d u. split; lra.
Qed.

Lemma binary64_06 : binary64 0.6 == 5404319552844595 # 9007199254740992.
Proof. vm_compute. reflexivity. Qed.

(** A product by a factor [c] and the quotient by the same [c], each rounded. *)
Lemma scaled_round_trip (c v : Q) :
  1 # 2 <= c <= 1 ->
  pow2 (-1021) <= Qabs v <= pow2 1023 ->
  inRange64 (v * c)
  /\ inRange64 (binary64 (v * c) / c)
  /\ Qabs (binary64 (binary64 (v * c) / c) - v)
     <= Qabs v * (2 * unit_roundoff + unit_roundoff * unit_roundoff).
Proof.
  intros [Hc1 Hc2] [Hv1 Hv2].
  assert (Hc : 0 < c) by lra.
  assert (Elo : pow2 (-1021) == 2 * pow2 (-1022)).
  { change (-1021)%Z with (1 + -1022)%Z. rewrite pow2_add. reflexivity. }
  assert (Ehi : pow2 1024 == 2 * pow2 1023).
  { change 1024%Z with (1 + 1023)%Z. rewrite pow2_add. reflexivity. }
  pose proof (pow2_pos (-1022)) as Plo. pose proof (pow2_pos 1023) as Phi.
  unfold inRange64. rewrite Ehi. rewrite Elo in Hv1.
  set (lo := pow2 (-1022)) in *. set (hi := pow2 1023) in *.
  pose proof (binary64_error (v * c)) as H1.
  pose proof (binary64_magnitude (v * c)) as [M1 M2].
  rewrite Qabs_Qmult, (Qabs_pos c) in H1, M1, M2 by lra.
  rewrite Qabs_Qmult, (Qabs_pos c) by lra.
  set (w := binary64 (v * c)) in *.
  pose proof (binary64_error (w / c)) as H2.
  pose proof (binary64_magnitude (w / c)) as [N1 N2].
  set (r := binary64 (w / c)) in *.
  assert (Hu : 0 < unit_roundoff) by reflexivity.
  assert (Hu' : unit_roundoff <= 1 # 4) by discriminate.
  set (u := unit_roundoff) in *.
  pose proof (Qabs_nonneg v) as HA.
  pose proof (Qabs_bounds v) as Hv.
  set (A := Qabs v) in *.
  apply Qabs_Qle_condition in H1.
  assert (Hz : - (A * u) <= w / c - v <= A * u).
  { assert (E : w / c - v == (w - v * c) / c) by (field; lra).
    rewrite E. destruct H1 as [H1a H1b]. split.
    - apply Qle_shift_div_l; [exact Hc|]. lra.
    - apply Qle_shift_div_r; [exact Hc|]. lra. }
  set (z := w / c) in *.
  assert (HZ : Qabs z <= A + A * u).
  { apply Qabs_le_of_bounds. split; lra. }
  assert (HZ' : A - A * u <= Qabs z).
  { pose proof (Qabs_triangle_reverse v (v - z)) as T.
    assert (E : v - (v - z) == z) by ring. rewrite E in T. fold A in T.
    assert (Qabs (v - z) <= A * u) by (apply Qabs_le_of_bounds; split; lra).
    lra. }
  apply Qabs_Qle_condition in H2.
  set (Z := Qabs z) in *. set (W := Qabs w) in *. set (R := Qabs r) in *.
  clearbody r z Z w W R A u lo hi.
  split; [|split].
  - split; nra.
  - split; nra.
  - apply Qabs_le_of_bounds.
    assert (Zu : Z * u <= (A + A * u) * u) by nra.
    split; nra.
Qed.

(** ** Physics integrator *)

Lemma clampedVelY_bounds (s : RunState) (dt : Q) :
  0 <= speedMultiplier s ->
  - (MAX_VELOCITY * speedMultiplier s) <= clampedVelY s dt
    <= MAX_VELOCITY * speedMultiplier s.
Proof.
  intro Hs. unfold clampedVelY.
  assert (Hm : 0 <= MAX_VELOCITY * speedMultiplier s)
    by (unfold MAX_VELOCITY; lra).
  pose proof (clamp_bounds (MAX_VELOCITY * speedMultiplier s)
    (y (ballVel s) + BASE_GRAVITY_FORCE * speedMultiplier s * gravityDir s * dt) Hm)
    as H.
  assert (E : - MAX_VELOCITY * speedMultiplier s
              = (- MAX_VELOCITY) * speedMultiplier s) by reflexivity.
  revert H.
  generalize (Math_min (MAX_VELOCITY * speedMultiplier s)
    (y (ballVel s) + BASE_GRAVITY_FORCE * speedMultiplier s * gravityDir s * dt)).
  intros c H.
  destruct (Math_max_spec (- (MAX_VELOCITY * speedMultiplier s)) c)
    as [[H1 E1] | [H1 E1]];
  destruct (Math_max_spec (- MAX_VELOCITY * speedMultiplier s) c)
    as [[H2 E2] | [H2 E2]];
  rewrite E1 in H; rewrite E2; split; try lra.
Qed.

(** The velocity a frame stores is within the cap, bounce or not. *)
Lemma integrate_velocity_bound (s : RunState) (dt : Q) :
  0 <= speedMultiplier s ->
  Qabs (newTentativeVelY (integrate s dt)) <= MAX_VELOCITY * speedMultiplier s.
Proof.
  intro Hs. pose proof (clampedVelY_bounds s dt Hs) as [Hlo Hhi].
  apply Qabs_bound. unfold integrate.
  destruct (crossesTop s dt) eqn:Et; [|destruct (crossesBottom s dt) eqn:Eb];
    cbn [newTentativeVelY].
  - unfold crossesTop in Et. apply andb_true_iff in Et as [_ Hv].
    apply Qltb_lt in Hv. unfold BOUNCE_DAMPING. split; lra.
  - unfold crossesBottom in Eb. apply andb_true_iff in Eb as [_ Hv].
    apply Qltb_lt in Hv. unfold BOUNCE_DAMPING. split; lra.
  - split; lra.
Qed.

(** ** Pickups: what the loop of [collectPowerUps] preserves *)

Lemma collect_fold_preserves (P : Effects -> Prop) (now : Q) (ball : Position) :
  (forall p e, P e -> P (applyPowerUp now p e)) ->
  forall pows e, P e -> P (snd (fold_right (collectOne now ball) ([], e) pows)).
Proof.
  intros HP pows e He. induction pows as [|p pows IH]; cbn; [exact He|].
  unfold collectOne at 1.
  destruct (PowerUp.collected p); [exact IH|].
  destruct (inPickupRange ball p); cbn; [apply HP|]; exact IH.
Qed.

Lemma slowDown_length (l : list Obstacle.t) :
  List.length (slowDown l) = List.length l.
Proof. apply length_map. Qed.

Lemma slowRestore_length (l : list Obstacle.t) :
  List.length (slowRestore l) = List.length l.
Proof. apply length_map. Qed.

Lemma collect_obstacles_length now ball pows e :
  List.length (e_obstacles (snd (collectPowerUps now ball pows e)))
  = List.length (e_obstacles e).
Proof.
  unfold collectPowerUps; cbn [snd].
  apply (collect_fold_preserves
           (fun e' => List.length (e_obstacles e') = List.length (e_obstacles e)));
    [|reflexivity].
  intros p e' H. unfold applyPowerUp.
  destruct (PowerUp.type p); cbn; [assumption | | assumption].
  now rewrite slowDown_length.
Qed.

(** ** Generator: sizes of what a spawn appends *)

Lemma generateSlots_length s i draws offs :
  List.length (generateSlots s i draws offs) = List.length offs.
Proof.
  revert i. induction offs as [|o offs IH]; intro i; cbn; [reflexivity|].
  now rewrite IH.
Qed.

Lemma pattern_size (i : nat) :
  (List.length (offsets (nth i PATTERNS (mkPattern []))) <= 3)%nat.
Proof.
  do 4 (destruct i as [|i]; [cbn; lia|]). destruct i; cbn; lia.
Qed.

Lemma generateObstaclePattern_length s r :
  (List.length (generateObstaclePattern s r) <= 3)%nat.
Proof.
  unfold generateObstaclePattern. rewrite generateSlots_length.
  apply pattern_size.
Qed.

(** With the draw in [[0,1)], a pattern has exactly three obstacles. *)
Lemma generateObstaclePattern_three s r :
  0 <= rPatternIndex r < 1 ->
  List.length (generateObstaclePattern s r) = 3%nat.
Proof.
  intros [Hlo Hhi]. unfold generateObstaclePattern.
  rewrite generateSlots_length.
  set (q := rPatternIndex r * inject_Z (Z.of_nat (List.length PATTERNS))).
  assert (Hq : 0 <= q < 4).
  { subst q. change (inject_Z (Z.of_nat (List.length PATTERNS))) with 4.
    split; lra. }
  clearbody q.
  assert (Hf : (0 <= Math_floor q < 4)%Z).
  { unfold Math_floor. split.
    - change 0%Z with (Qfloor 0). apply Qfloor_resp_le. tauto.
    - apply Z.lt_nge. intro Hge.
      assert (H4 : inject_Z 4 <= q).
      { eapply Qle_trans; [|apply Qfloor_le]. rewrite <- Zle_Qle. exact Hge. }
      change (inject_Z 4) with 4 in H4. lra. }
  assert (Hn : (Z.to_nat (Math_floor q) < 4)%nat) by lia.
  destruct (Z.to_nat (Math_floor q)) as [|[|[|[|n]]]]; try reflexivity; lia.
Qed.

Section Properties.

Variable Math_sin : Q -> Q.

Lemma advanceObstacles_length s dt l :
  (List.length (advanceObstacles Math_sin s dt l) <= List.length l)%nat.
Proof.
  unfold advanceObstacles.
  eapply Nat.le_trans; [apply filter_length_le|]. now rewrite length_map.
Qed.

Lemma spawnObstacles_length r dt s :
  (List.length (spawnObstacles r dt s)
   <= if spawnGate r dt s then 3 else 0)%nat.
Proof.
  unfold spawnObstacles. destruct (spawnGate r dt s); [|cbn; lia].
  destruct (patternChosen r); [apply generateObstaclePattern_length|cbn; lia].
Qed.

(** The obstacles after a frame: never more than before plus a spawn. *)
Lemma frame_obstacles_length r timestamp dt s :
  List.length (e_obstacles (snd (pickups Math_sin r timestamp dt s)))
  = List.length (advanceObstacles Math_sin s dt (obstacles s)
                 ++ spawnObstacles r dt s).
Proof. unfold pickups. now rewrite collect_obstacles_length. Qed.

Lemma obstacleMax_mono (i : nat) :
  (S i < List.length LEVELS)%nat ->
  (obstacleMax (level i) <= obstacleMax (level (S i)))%nat.
Proof.
  cbn. intro H. do 4 (destruct i as [|i]; [cbn; lia|]). lia.
Qed.

(** ** The invariant of a mounted component *)

Record Inv (s : RunState) : Prop := mkInv {
  inv_level : (currentLevelIndex s < List.length LEVELS)%nat;
  inv_speed : 0.8 <= speedMultiplier s <= 1.5;
  inv_vel : Qabs (y (ballVel s)) <= MAX_VELOCITY * speedMultiplier s;
  inv_menu : gameState s = menu -> ballVel s = mkPosition 0 0;
  inv_ballx : x (ballPos s) = 100;
  inv_cap : (List.length (obstacles s)
             <= obstacleMax (level (currentLevelIndex s)) + 2)%nat;
  inv_event : isEventActive s = true -> eventTimers s <> []
}.

Lemma Inv_initial now : Inv (initialState now).
Proof.
  constructor; cbn; try lia; try reflexivity; try discriminate.
  split; discriminate.
Qed.

Lemma Inv_gameLoop r timestamp s :
  Inv s -> Inv (fst (gameLoop Math_sin r timestamp s)).
Proof.
  intro H. unfold gameLoop.
  destruct (gameState s) eqn:G; cbn [fst]; try exact H.
  destruct H as [Hl Hs Hv Hm Hx Hc He].
  set (dt := effectiveDeltaRatio (prevTime s) timestamp).
  constructor;
    cbn [currentLevelIndex speedMultiplier ballVel gameState ballPos
         obstacles isEventActive eventTimers x y].
  - exact Hl.
  - exact Hs.
  - apply integrate_velocity_bound. lra.
  - destruct (checkObstacleCollisions _ _ _); discriminate.
  - exact Hx.
  - rewrite frame_obstacles_length, length_app.
    pose proof (advanceObstacles_length s dt (obstacles s)) as Ha.
    pose proof (spawnObstacles_length r dt s) as Hsp.
    destruct (spawnGate r dt s) eqn:Eg; [|lia].
    unfold spawnGate in Eg. apply andb_true_iff in Eg as [_ Eg].
    apply Nat.ltb_lt in Eg. lia.
  - unfold eventPhase.
    destruct (negb (isEventActive s) && _); [|exact He].
    unfold triggerRandomEvent. destruct (isEventActive s) eqn:Ea.
    { intros _. apply He. reflexivity. }
    cbn. intros _ Hnil. apply app_eq_nil in Hnil as [_ Hnil]. discriminate.
Qed.

Lemma Inv_toggleGravity s : Inv s -> Inv (fst (toggleGravity s)).
Proof.
  intro H. unfold toggleGravity.
  destruct (gameState s) eqn:G; cbn [fst]; try exact H.
  destruct H as [Hl Hs Hv Hm Hx Hc He].
  constructor; try assumption. cbn. discriminate.
Qed.

Lemma Inv_startGame r now s : Inv s -> Inv (startGame r now s).
Proof.
  intros [Hl Hs Hv Hm Hx Hc He].
  constructor; cbn; try lia; try reflexivity; try discriminate; try assumption.
  unfold MAX_VELOCITY. lra.
Qed.

Lemma Inv_levelEffect s : Inv s -> Inv (fst (levelEffect s)).
Proof.
  intros [Hl Hs Hv Hm Hx Hc He]. unfold levelEffect.
  destruct ((S (currentLevelIndex s) <? List.length LEVELS)%nat
            && (thresholdScore (level (S (currentLevelIndex s))) <=? score s)%Z)
    eqn:E; cbn [fst]; [|constructor; assumption].
  apply andb_true_iff in E as [E _]. apply Nat.ltb_lt in E.
  constructor; cbn [currentLevelIndex speedMultiplier ballVel gameState ballPos
                    obstacles isEventActive eventTimers]; try assumption.
  pose proof (obstacleMax_mono (currentLevelIndex s) E). lia.
Qed.

Lemma Inv_spawnRateEffect now s : Inv s -> Inv (spawnRateEffect now s).
Proof.
  intros [Hl Hs Hv Hm Hx Hc He]. unfold spawnRateEffect.
  destruct (Qle_bool 2 _); constructor; assumption.
Qed.

Lemma Inv_runTimers now s : Inv s -> Inv (runTimers now s).
Proof.
  intros [Hl Hs Hv Hm Hx Hc He].
  constructor; cbn; try assumption.
  - destruct (dueOpt now (slowTimer s)); [rewrite slowRestore_length|]; exact Hc.
  - destruct (existsb (due now) (eventTimers s)) eqn:E; [discriminate|].
    intros Ha Hnil. apply (He Ha).
    destruct (eventTimers s) as [|t ts]; [reflexivity|].
    cbn in E. apply orb_false_iff in E as [E _].
    cbn in Hnil. rewrite E in Hnil. discriminate.
Qed.

Lemma Inv_setSpeedMultiplier v s : Inv s -> Inv (setSpeedMultiplier v s).
Proof.
  intro H. unfold setSpeedMultiplier.
  destruct (gameState s) eqn:G; try exact H.
  destruct (Qle_bool 0.8 v && Qle_bool v 1.5) eqn:E; [|exact H].
  destruct H as [Hl Hs Hv Hm Hx Hc He].
  apply andb_true_iff in E as [E1 E2].
  apply Qle_bool_iff in E1. apply Qle_bool_iff in E2.
  constructor; cbn; try assumption.
  - split; assumption.
  - rewrite (Hm G). cbn. unfold MAX_VELOCITY. lra.
  - intros _. exact (Hm G).
Qed.

Lemma Inv_setBeatActive b s : Inv s -> Inv (setBeatActive b s).
Proof. intros [Hl Hs Hv Hm Hx Hc He]. constructor; assumption. Qed.

Lemma Inv_step a s : Inv s -> Inv (fst (step Math_sin a s)).
Proof.
  intro H. destruct a; cbn [step fst].
  - now apply Inv_gameLoop.
  - unfold handleGameAction. destruct (gameState s);
      [apply Inv_startGame | apply Inv_toggleGravity | apply Inv_startGame];
      exact H.
  - now apply Inv_levelEffect.
  - now apply Inv_spawnRateEffect.
  - now apply Inv_runTimers.
  - now apply Inv_setSpeedMultiplier.
  - now apply Inv_setBeatActive.
Qed.

Lemma run_cons a acts s :
  fst (run Math_sin (a :: acts) s)
  = fst (run Math_sin acts (fst (step Math_sin a s))).
Proof.
  cbn [run]. destruct (step Math_sin a s) as [s1 fb]. cbn [fst].
  destruct (run Math_sin acts s1). reflexivity.
Qed.

Lemma Inv_run acts : forall s, Inv s -> Inv (fst (run Math_sin acts s)).
Proof.
  induction acts as [|a acts IH]; intros s H; [exact H|].
  rewrite run_cons. apply IH, Inv_step, H.
Qed.

Lemma Inv_reachable s : reachable Math_sin s -> Inv s.
Proof. intros (now & acts & ->). apply Inv_run, Inv_initial. Qed.

(** [LEVELS[currentLevelIndexRef.current]] is always defined. *)
Lemma level_in_range s :
  reachable Math_sin s -> (currentLevelIndex s < List.length LEVELS)%nat.
Proof. intro H. apply (inv_level _ (Inv_reachable s H)). Qed.

Lemma reachable_ball_x s : reachable Math_sin s -> x (ballPos s) = 100.
Proof. intro H. apply (inv_ballx _ (Inv_reachable s H)). Qed.

Lemma reachable_step a s :
  reachable Math_sin s -> reachable Math_sin (fst (step Math_sin a s)).
Proof.
  intros (now & acts & ->). exists now, (acts ++ [a]).
  generalize (initialState now). induction acts as [|b acts IH]; intro s0.
  - cbn [app]. rewrite run_cons. reflexivity.
  - cbn [app]. rewrite !run_cons. apply IH.
Qed.

(** ** Shield *)

Lemma checkObstacleCollisions_shielded pos obs :
  checkObstacleCollisions pos obs true = false.
Proof.
  unfold checkObstacleCollisions. induction obs as [|o obs IH]; [reflexivity|].
  cbn. rewrite andb_false_r. exact IH.
Qed.

Lemma scaleSpeed_id o : scaleSpeed (fun v => v) o = o.
Proof. destruct o; reflexivity. Qed.

(** The pickups of a frame touch the obstacles' speeds only. *)
Lemma collect_obstacles_rescaled now ball pows e :
  exists f : Q -> Q,
    e_obstacles (snd (collectPowerUps now ball pows e))
    = map (scaleSpeed f) (e_obstacles e).
Proof.
  unfold collectPowerUps; cbn [snd].
  apply (collect_fold_preserves
           (fun e' => exists f, e_obstacles e' = map (scaleSpeed f) (e_obstacles e))).
  - intros p e' [f Hf]. unfold applyPowerUp.
    destruct (PowerUp.type p); cbn [e_obstacles]; try (exists f; exact Hf).
    exists (fun v => f v * SLOW_FACTOR). rewrite Hf. unfold slowDown.
    rewrite map_map. apply map_ext. intros o. reflexivity.
  - exists (fun v => v). rewrite (map_ext _ (fun o => o) scaleSpeed_id).
    now rewrite map_id.
Qed.

(** C1. While the ball is shielded ([invulnerable] is [true]) a frame never
    ends the run, whatever overlaps the ball: the collision test answers
    [false] at every position, the state stays [playing], and the frame
    emits no collision burst.  The shield removes no obstacle either: every
    obstacle of the frame, overlapping or not, that its own motion leaves on
    screen is among the obstacles after the frame, at its advanced position
    (pickups of the same frame may rescale its speed, nothing else). *)
Theorem C1_shield_ignores_overlap (r : Rand) (timestamp : Q) (s : RunState) :
  gameState s = playing ->
  invulnerable s = true ->
  let dt := effectiveDeltaRatio (prevTime s) timestamp in
  let s' := fst (gameLoop Math_sin r timestamp s) in
  gameState s' = playing
  /\ checkObstacleCollisions (ballPos s') (obstacles s) (invulnerable s) = false
  /\ snd (gameLoop Math_sin r timestamp s)
     = map (bounceFeedback (x (ballPos s))) (flips (integrate s dt))
       ++ e_log (snd (pickups Math_sin r timestamp dt s))
  /\ forall obs,
       In obs (obstacles s) ->
       onScreen (advanceObstacle Math_sin s dt obs) = true ->
       exists obs',
         In obs' (obstacles s')
         /\ Obstacle.id obs' = Obstacle.id obs
         /\ Obstacle.type obs' = Obstacle.type obs
         /\ Obstacle.position obs'
            = Obstacle.position (advanceObstacle Math_sin s dt obs).
Proof.
  intros G Hinv dt s'. subst s'. unfold gameLoop. rewrite G, Hinv.
  fold dt. cbn [fst snd gameState ballPos obstacles].
  rewrite checkObstacleCollisions_shielded.
  repeat split.
  intros obs Hin Hon.
  destruct (collect_obstacles_rescaled timestamp (ballPos s)
              (advancePowerUps dt (powerUps s) ++ spawnPowerUps r dt s)
              {| e_invulnerable := invulnerable s; e_shieldTimer := shieldTimer s;
                 e_obstacles := advanceObstacles Math_sin s dt (obstacles s)
                                ++ spawnObstacles r dt s;
                 e_slowTimer := slowTimer s;
                 e_score := (score s + Math_round (1 * dt))%Z;
                 e_combo := (combo s + Math_round (1 * dt))%Z;
                 e_log := []; changed := false |}) as [f Hf].
  exists (scaleSpeed f (advanceObstacle Math_sin s dt obs)).
  split; [|repeat split].
  unfold pickups. rewrite Hf. cbn [e_obstacles].
  apply in_map, in_or_app. left. unfold advanceObstacles.
  apply filter_In. split; [|exact Hon]. now apply in_map.
Qed.

(** C2. The vertical velocity stays within the cap
    [MAX_VELOCITY * speedMultiplier]: on every state a mounted component
    reaches, and after every further frame, whose time ratio is clamped to
    [[0.1, 2]]; the integration re-establishes the cap for any ratio, with
    or without a bounce. *)
Theorem C2_velocity_within_cap (s : RunState) :
  reachable Math_sin s ->
  forall (r : Rand) (timestamp dt : Q),
    Qabs (y (ballVel s)) <= MAX_VELOCITY * speedMultiplier s
    /\ 0.1 <= effectiveDeltaRatio (prevTime s) timestamp <= 2
    /\ Qabs (newTentativeVelY (integrate s dt))
       <= MAX_VELOCITY * speedMultiplier s
    /\ Qabs (y (ballVel (fst (gameLoop Math_sin r timestamp s))))
       <= MAX_VELOCITY * speedMultiplier (fst (gameLoop Math_sin r timestamp s)).
Proof.
  intros Hr r timestamp dt.
  pose proof (Inv_reachable s Hr) as Hi.
  pose proof (Inv_gameLoop r timestamp s Hi) as Hi'.
  repeat split.
  - apply (inv_vel _ Hi).
  - apply effectiveDeltaRatio_range.
  - apply effectiveDeltaRatio_range.
  - apply integrate_velocity_bound. pose proof (inv_speed _ Hi). lra.
  - apply (inv_vel _ Hi').
Qed.

(** C4. A frame bounces at most once.  The top test (the ball's upper edge
    at or above the top, [y - 12 <= 0], while moving up) comes first and
    wins; the bottom test (lower edge at or below [600] while moving down)
    is consulted only when the top one failed, and the two conditions
    exclude each other.  A bounce puts the ball on the boundary ([y = 12] at
    the top, [y = 588] at the bottom), stores the clamped velocity reversed
    and scaled by [0.7], so the ball moves away from the boundary at [0.7]
    of its speed, and queues one gravity flip; without a bounce nothing is
    flipped.  The position, the velocity and the gravity direction a frame
    stores are those of the integration, the old direction with the queued
    flips applied. *)
Theorem C4_single_bounce_per_frame (s : RunState) (dt : Q) :
  (List.length (flips (integrate s dt)) <= 1)%nat
  /\ ~ (In BounceTop (flips (integrate s dt))
        /\ In BounceBottom (flips (integrate s dt)))
  /\ (crossesTop s dt = true
      <-> y (ballPos s) + clampedVelY s dt * dt - 12 <= 0
          /\ clampedVelY s dt < 0)
  /\ (crossesBottom s dt = true
      <-> 600 <= y (ballPos s) + clampedVelY s dt * dt + 12
          /\ 0 < clampedVelY s dt)
  /\ (crossesTop s dt = true -> crossesBottom s dt = false)
  /\ (crossesTop s dt = true ->
      integrate s dt
      = mkIntegrated BALL_RADIUS (- clampedVelY s dt * BOUNCE_DAMPING) [BounceTop]
      /\ newTentativePosY (integrate s dt) == 12
      /\ newTentativeVelY (integrate s dt) == - (0.7 * clampedVelY s dt)
      /\ 0 < newTentativeVelY (integrate s dt)
      /\ Qabs (newTentativeVelY (integrate s dt))
         == 0.7 * Qabs (clampedVelY s dt)
      /\ applyFlips (flips (integrate s dt)) (gravityDir s) = - gravityDir s)
  /\ (crossesTop s dt = false -> crossesBottom s dt = true ->
      integrate s dt
      = mkIntegrated (CANVAS_HEIGHT - BALL_RADIUS)
          (- clampedVelY s dt * BOUNCE_DAMPING) [BounceBottom]
      /\ newTentativePosY (integrate s dt) == 588
      /\ newTentativeVelY (integrate s dt) == - (0.7 * clampedVelY s dt)
      /\ newTentativeVelY (integrate s dt) < 0
      /\ Qabs (newTentativeVelY (integrate s dt))
         == 0.7 * Qabs (clampedVelY s dt)
      /\ applyFlips (flips (integrate s dt)) (gravityDir s) = - gravityDir s)
  /\ (crossesTop s dt = false -> crossesBottom s dt = false ->
      integrate s dt = mkIntegrated (steppedPosY s dt) (clampedVelY s dt) []
      /\ applyFlips (flips (integrate s dt)) (gravityDir s) = gravityDir s)
  /\ forall (r : Rand) (timestamp : Q),
       gameState s = playing ->
       let ph := integrate s (effectiveDeltaRatio (prevTime s) timestamp) in
       let s' := fst (gameLoop Math_sin r timestamp s) in
       gravityDir s' = applyFlips (flips ph) (gravityDir s)
       /\ ballPos s' = mkPosition (x (ballPos s)) (newTentativePosY ph)
       /\ ballVel s' = mkPosition 0 (newTentativeVelY ph).
Proof.
  assert (Ht : crossesTop s dt = true
               <-> y (ballPos s) + clampedVelY s dt * dt - 12 <= 0
                   /\ clampedVelY s dt < 0).
  { unfold crossesTop, steppedPosY, BALL_RADIUS.
    rewrite andb_true_iff, Qle_bool_iff, Qltb_lt. reflexivity. }
  assert (Hb : crossesBottom s dt = true
               <-> 600 <= y (ballPos s) + clampedVelY s dt * dt + 12
                   /\ 0 < clampedVelY s dt).
  { unfold crossesBottom, steppedPosY, BALL_RADIUS, CANVAS_HEIGHT.
    rewrite andb_true_iff, Qle_bool_iff, Qltb_lt. reflexivity. }
  assert (Hframe : forall (r : Rand) (timestamp : Q),
       gameState s = playing ->
       let ph := integrate s (effectiveDeltaRatio (prevTime s) timestamp) in
       let s' := fst (gameLoop Math_sin r timestamp s) in
       gravityDir s' = applyFlips (flips ph) (gravityDir s)
       /\ ballPos s' = mkPosition (x (ballPos s)) (newTentativePosY ph)
       /\ ballVel s' = mkPosition 0 (newTentativeVelY ph)).
  { intros r timestamp G. cbv zeta. unfold gameLoop. rewrite G.
    repeat split. }
  split; [|split; [|split; [exact Ht|split; [exact Hb|]]]].
  - unfold integrate.
    destruct (crossesTop s dt); [|destruct (crossesBottom s dt)]; cbn; lia.
  - unfold integrate.
    destruct (crossesTop s dt); [|destruct (crossesBottom s dt)];
      cbn [flips]; intros [H1 H2]; cbn in H1, H2;
      repeat match goal with H : _ \/ _ |- _ => destruct H end;
      try discriminate; try contradiction.
  - split; [|split; [|split; [|split; [|exact Hframe]]]].
    + intro Et. apply Ht in Et as [_ Hv].
      apply not_true_is_false. intro Eb. apply Hb in Eb as [_ Hv']. lra.
    + intro Et. unfold integrate. rewrite Et.
      cbn [newTentativePosY newTentativeVelY flips applyFlips fold_left].
      apply Ht in Et as [_ Hv]. unfold BALL_RADIUS, BOUNCE_DAMPING.
      set (v := clampedVelY s dt) in *. clearbody v.
      split; [reflexivity|]. split; [reflexivity|]. split; [ring|].
      split; [lra|]. split; [|reflexivity].
      rewrite (Qabs_neg v) by lra. rewrite Qabs_pos by lra. ring.
    + intros Et Eb. unfold integrate. rewrite Et, Eb.
      cbn [newTentativePosY newTentativeVelY flips applyFlips fold_left].
      apply Hb in Eb as [_ Hv]. unfold CANVAS_HEIGHT, BALL_RADIUS, BOUNCE_DAMPING.
      set (v := clampedVelY s dt) in *. clearbody v.
      split; [reflexivity|]. split; [reflexivity|]. split; [ring|].
      split; [lra|]. split; [|reflexivity].
      rewrite (Qabs_pos v) by lra. rewrite Qabs_neg by lra. ring.
    + intros Et Eb. unfold integrate. rewrite Et, Eb. split; reflexivity.
Qed.

(** C9. The gravity-inversion hook outside a run does nothing: the state is
    returned as it was and no feedback is emitted.  During a run it negates
    the gravity direction and leaves the simulation's other fields alone
    (it sets [shake] and emits one burst).  The hook is a total function: it
    has no failing case. *)
Theorem C9_toggle_only_while_playing (s : RunState) :
  (gameState s <> playing -> toggleGravity s = (s, []))
  /\ (gameState s = playing ->
      gravityDir (fst (toggleGravity s)) = - gravityDir s
      /\ gameState (fst (toggleGravity s)) = playing
      /\ score (fst (toggleGravity s)) = score s
      /\ combo (fst (toggleGravity s)) = combo s
      /\ currentLevelIndex (fst (toggleGravity s)) = currentLevelIndex s
      /\ ballPos (fst (toggleGravity s)) = ballPos s
      /\ ballVel (fst (toggleGravity s)) = ballVel s
      /\ obstacles (fst (toggleGravity s)) = obstacles s
      /\ powerUps (fst (toggleGravity s)) = powerUps s
      /\ invulnerable (fst (toggleGravity s)) = invulnerable s
      /\ isEventActive (fst (toggleGravity s)) = isEventActive s
      /\ activeEventType (fst (toggleGravity s)) = activeEventType s
      /\ List.length (snd (toggleGravity s)) = 1%nat).
Proof.
  unfold toggleGravity. split.
  - intro H. destruct (gameState s); try reflexivity. now elim H.
  - intro G. rewrite G. cbn. repeat split.
Qed.

(** ** Pickups: the loop of [collectPowerUps] in closed form *)

Lemma countPicked_cons ball ty p pows :
  countPicked ball ty (p :: pows)
  = ((if picked ball p && PowerUpType_eqb (PowerUp.type p) ty then 1 else 0)
     + countPicked ball ty pows)%nat.
Proof.
  unfold countPicked. cbn [filter].
  destruct (picked ball p && PowerUpType_eqb (PowerUp.type p) ty); reflexivity.
Qed.

Lemma collectOne_unpicked now ball p acc :
  picked ball p = false -> collectOne now ball p acc = (p :: fst acc, snd acc).
Proof.
  unfold picked, collectOne. destruct (PowerUp.collected p); [reflexivity|].
  cbn. now intros ->.
Qed.

Lemma collectOne_picked now ball p acc :
  picked ball p = true ->
  collectOne now ball p acc
  = (markCollected p :: fst acc, applyPowerUp now p (snd acc)).
Proof.
  unfold picked, collectOne. destruct (PowerUp.collected p); [discriminate|].
  cbn. now intros ->.
Qed.

(** What the pass leaves: the visited power-ups with the picked ones marked,
    [500] and [5] per magnet, one slow-down per [slow], a fresh timer when a
    [slow] or a [shield] was picked. *)
Lemma collect_fold_spec now ball pows e :
  let res := fold_right (collectOne now ball) ([], e) pows in
  fst res = map (fun p => if picked ball p then markCollected p else p) pows
  /\ e_score (snd res)
     = (e_score e + 500 * Z.of_nat (countPicked ball magnet pows))%Z
  /\ e_combo (snd res)
     = (e_combo e + 5 * Z.of_nat (countPicked ball magnet pows))%Z
  /\ e_obstacles (snd res)
     = Nat.iter (countPicked ball slow pows) slowDown (e_obstacles e)
  /\ e_slowTimer (snd res)
     = (if (0 <? countPicked ball slow pows)%nat
        then Some (now + SLOW_MOTION_DURATION) else e_slowTimer e)
  /\ e_invulnerable (snd res)
     = ((0 <? countPicked ball shield pows)%nat || e_invulnerable e)
  /\ changed (snd res) = (existsb (picked ball) pows || changed e).
Proof.
  induction pows as [|p pows IH]; cbn zeta.
  - cbn. repeat split; try reflexivity. lia. lia.
  - cbn zeta in IH. destruct IH as (I1 & I2 & I3 & I4 & I5 & I6 & I7).
    cbn [fold_right map existsb]. rewrite !countPicked_cons.
    destruct (picked ball p) eqn:Ep.
    + rewrite (collectOne_picked _ _ _ _ Ep). cbn [fst snd].
      rewrite I1. unfold applyPowerUp.
      destruct (PowerUp.type p);
        cbn [e_score e_combo e_obstacles e_slowTimer e_invulnerable changed
             PowerUpType_eqb andb Nat.add Nat.iter nat_rect Nat.ltb Nat.leb orb];
        rewrite ?I2, ?I3, ?I4, ?I5, ?I6, ?I7;
        repeat split; try reflexivity; try lia.
    + rewrite (collectOne_unpicked _ _ _ _ Ep). cbn [fst snd andb Nat.add orb].
      rewrite I1. repeat split; assumption.
Qed.

Lemma Math_round_frame (prev : option Q) (timestamp : Q) :
  (0 <= Math_round (1 * effectiveDeltaRatio prev timestamp) <= 2)%Z.
Proof.
  pose proof (effectiveDeltaRatio_range prev timestamp) as [Hlo Hhi].
  unfold Math_round. split.
  - change 0%Z with (Qfloor 0). apply Qfloor_resp_le. lra.
  - change 2%Z with (Qfloor 2.5). apply Qfloor_resp_le. lra.
Qed.

(** A power-up in pickup range of a ball at [x = 100] is right of [-50]. *)
Lemma in_range_right_of_cutoff ball p :
  x ball = 100 -> inPickupRange ball p = true ->
  Qltb (-50) (x (PowerUp.position p)) = true.
Proof.
  intros Hx H. unfold inPickupRange in H. apply Qltb_lt in H. apply Qltb_lt.
  rewrite Hx in H. unfold POWERUP_COLLECTION_RADIUS_SQUARED in H.
  set (px := x (PowerUp.position p)) in *.
  set (d := y ball - y (PowerUp.position p)) in *.
  clearbody px d.
  assert (Hd : 0 <= d * d) by nra.
  nra.
Qed.

Lemma countPicked_pos ball ty q pows :
  In q pows -> picked ball q = true -> PowerUp.type q = ty ->
  (1 <= countPicked ball ty pows)%nat.
Proof.
  intros Hin Hp Hty. unfold countPicked.
  assert (H : In q (filter (fun p => picked ball p
                                     && PowerUpType_eqb (PowerUp.type p) ty) pows)).
  { apply filter_In. split; [exact Hin|]. rewrite Hp, Hty.
    destruct ty; reflexivity. }
  destruct (filter _ pows); [contradiction | cbn; lia].
Qed.

(** An uncollected power-up that its drift leaves right of [-80] is among
    the power-ups the drift updater returns. *)
Lemma advancePowerUps_keeps dt p pows :
  In p pows -> PowerUp.collected p = false ->
  Qltb (-80) (x (PowerUp.position (advancePowerUp dt p))) = true ->
  In (advancePowerUp dt p) (advancePowerUps dt pows).
Proof.
  intros Hin Hc Hx. unfold advancePowerUps.
  apply filter_In. split.
  - apply filter_In. split; [now apply in_map|]. rewrite Hx. reflexivity.
  - cbn [advancePowerUp PowerUp.collected]. rewrite Hc. reflexivity.
Qed.

(** C3, as the code has it.  In a frame of a run, an uncollected magnet that
    lies within the pickup radius of the ball (squared distance below [900]
    from the power-up's position after the frame's drift, both to the ball's
    position before the frame's integration and to its position after it)
    ends the frame marked collected, and the frame adds exactly [500] to the
    score and [5] to the combo for every magnet it collects, on top of the
    frame's own increment [Math.round(1 * dt)] (between 0 and 2) of both:
    with one magnet collected, [500 + Math.round(dt)] and
    [5 + Math.round(dt)].  The ball's [x] is [100], as on every reachable
    state ([reachable_ball_x]). *)
Theorem C3_magnet_bonus_on_top_of_frame (r : Rand) (timestamp : Q)
    (s : RunState) (p : PowerUp.t) :
  x (ballPos s) = 100 ->
  gameState s = playing ->
  let dt := effectiveDeltaRatio (prevTime s) timestamp in
  let s' := fst (gameLoop Math_sin r timestamp s) in
  let px := x (PowerUp.position p) - 2.5 * dt in
  let py := y (PowerUp.position p) in
  let n := countPicked (ballPos s) magnet
             (advancePowerUps dt (powerUps s) ++ spawnPowerUps r dt s) in
  In p (powerUps s) ->
  PowerUp.type p = magnet ->
  PowerUp.collected p = false ->
  (x (ballPos s) - px) * (x (ballPos s) - px)
  + (y (ballPos s) - py) * (y (ballPos s) - py) < 900 ->
  (x (ballPos s') - px) * (x (ballPos s') - px)
  + (y (ballPos s') - py) * (y (ballPos s') - py) < 900 ->
  In (PowerUp.mk (PowerUp.id p) magnet (mkPosition px py) true
        (PowerUp.pulse p + 0.15 * dt))
     (powerUps s')
  /\ (1 <= n)%nat
  /\ score s' = (score s + Math_round (1 * dt) + 500 * Z.of_nat n)%Z
  /\ combo s' = (combo s + Math_round (1 * dt) + 5 * Z.of_nat n)%Z
  /\ (0 <= Math_round (1 * dt) <= 2)%Z
  /\ (n = 1%nat ->
      score s' = (score s + (500 + Math_round (1 * dt)))%Z
      /\ combo s' = (combo s + (5 + Math_round (1 * dt)))%Z).
Proof.
  intros Hr G dt s' px py n Hin Hty Hc Hold _.
  set (live := advancePowerUps dt (powerUps s) ++ spawnPowerUps r dt s) in *.
  set (q := advancePowerUp dt p).
  assert (Hrange : inPickupRange (ballPos s) q = true).
  { unfold inPickupRange, POWERUP_COLLECTION_RADIUS_SQUARED. apply Qltb_lt.
    exact Hold. }
  assert (Hcut : Qltb (-50) (x (PowerUp.position q)) = true).
  { apply in_range_right_of_cutoff with (ball := ballPos s); assumption. }
  assert (Hq : In q live).
  { apply in_or_app. left. apply advancePowerUps_keeps; try assumption.
    fold q. apply Qltb_lt. apply Qltb_lt in Hcut. lra. }
  assert (Hp : picked (ballPos s) q = true).
  { unfold picked. cbn [q advancePowerUp PowerUp.collected]. rewrite Hc.
    exact Hrange. }
  assert (Hn : (1 <= n)%nat).
  { apply (countPicked_pos (ballPos s) magnet q live Hq Hp). exact Hty. }
  assert (Hs : score s' = (score s + Math_round (1 * dt) + 500 * Z.of_nat n)%Z
               /\ combo s' = (combo s + Math_round (1 * dt) + 5 * Z.of_nat n)%Z
               /\ powerUps s'
                  = filter (fun p => negb (PowerUp.collected p)
                                     || Qltb (-50) (x (PowerUp.position p)))
                      (map (fun p => if picked (ballPos s) p
                                     then markCollected p else p) live)).
  { subst s'. unfold gameLoop. rewrite G. fold dt.
    cbn [fst score combo powerUps]. unfold pickups, collectPowerUps.
    fold live. cbn [fst snd].
    destruct (collect_fold_spec timestamp (ballPos s) live
      {| e_invulnerable := invulnerable s; e_shieldTimer := shieldTimer s;
         e_obstacles := advanceObstacles Math_sin s dt (obstacles s)
                        ++ spawnObstacles r dt s;
         e_slowTimer := slowTimer s;
         e_score := (score s + Math_round (1 * dt))%Z;
         e_combo := (combo s + Math_round (1 * dt))%Z;
         e_log := []; changed := false |})
      as (I1 & I2 & I3 & _ & _ & _ & I7).
    cbn zeta in I1, I2, I3, I7. cbn [e_score e_combo changed] in I2, I3, I7.
    rewrite I2, I3, I7, I1.
    assert (Hex : existsb (picked (ballPos s)) live = true)
      by (apply existsb_exists; exists q; split; assumption).
    rewrite Hex. repeat split. }
  destruct Hs as (Hs1 & Hs2 & Hs3).
  split; [|split; [exact Hn|split; [exact Hs1|split; [exact Hs2|split]]]].
  - rewrite Hs3. apply filter_In. split.
    + apply in_map_iff. exists q. rewrite Hp. split; [|exact Hq].
      unfold markCollected, q, px, py.
      cbn [advancePowerUp PowerUp.id PowerUp.type PowerUp.position
           PowerUp.pulse]. rewrite Hty. reflexivity.
    + cbn [PowerUp.collected PowerUp.position negb orb]. exact Hcut.
  - apply Math_round_frame.
  - intro E. rewrite Hs1, Hs2, E. split; lia.
Qed.

(** ** Difficulty ladder *)

Lemma firesLevelUp_iff s :
  firesLevelUp s = true
  <-> (S (currentLevelIndex s) < List.length LEVELS)%nat
      /\ (thresholdScore (level (S (currentLevelIndex s))) <= score s)%Z.
Proof.
  unfold firesLevelUp, levelEffect.
  rewrite <- Nat.ltb_lt, <- Z.leb_le, <- andb_true_iff.
  destruct ((S (currentLevelIndex s) <? List.length LEVELS)%nat
            && (thresholdScore (level (S (currentLevelIndex s))) <=? score s)%Z);
    cbn; split; congruence.
Qed.

Lemma levelEffect_fired s :
  firesLevelUp s = true ->
  currentLevelIndex (fst (levelEffect s)) = S (currentLevelIndex s)
  /\ List.length (snd (levelEffect s)) = 1%nat.
Proof.
  unfold firesLevelUp, levelEffect.
  destruct ((S (currentLevelIndex s) <? List.length LEVELS)%nat
            && (thresholdScore (level (S (currentLevelIndex s))) <=? score s)%Z);
    cbn; [split; reflexivity | discriminate].
Qed.

Lemma levelEffect_quiet s :
  firesLevelUp s = false -> levelEffect s = (s, []).
Proof.
  unfold firesLevelUp, levelEffect.
  destruct ((S (currentLevelIndex s) <? List.length LEVELS)%nat
            && (thresholdScore (level (S (currentLevelIndex s))) <=? score s)%Z);
    cbn; [discriminate | reflexivity].
Qed.

Lemma levelEffect_level s :
  currentLevelIndex (fst (levelEffect s))
  = if firesLevelUp s then S (currentLevelIndex s) else currentLevelIndex s.
Proof.
  destruct (firesLevelUp s) eqn:E.
  - apply levelEffect_fired, E.
  - now rewrite (levelEffect_quiet s E).
Qed.

(** Within a run no action lowers the level. *)
Lemma step_level_le a s :
  match a with
  | Press _ _ => GameState_eqb (gameState s) playing
  | _ => true
  end = true ->
  (currentLevelIndex s <= currentLevelIndex (fst (step Math_sin a s)))%nat.
Proof.
  destruct a; cbn [step fst]; intro H.
  - unfold gameLoop. destruct (gameState s); cbn; lia.
  - unfold handleGameAction, toggleGravity.
    destruct (gameState s); cbn in H |- *; try discriminate; lia.
  - rewrite levelEffect_level. destruct (firesLevelUp s); lia.
  - unfold spawnRateEffect. destruct (Qle_bool 2 _); cbn; lia.
  - cbn. lia.
  - unfold setSpeedMultiplier. destruct (gameState s); cbn; try lia.
    destruct (Qle_bool 0.8 v && Qle_bool v 1.5); cbn; lia.
  - cbn. lia.
Qed.

Lemma sameRun_level_le acts : forall s,
  sameRun Math_sin acts s = true ->
  (currentLevelIndex s <= currentLevelIndex (fst (run Math_sin acts s)))%nat.
Proof.
  induction acts as [|a acts IH]; intros s H; [cbn; lia|].
  cbn [sameRun] in H. apply andb_true_iff in H as [Ha Hrest].
  rewrite run_cons. pose proof (step_level_le a s Ha). specialize (IH _ Hrest).
  lia.
Qed.

(** The signals of a run announce strictly increasing levels, all above the
    level the run segment starts from. *)
Lemma levelSignals_sorted acts : forall s,
  sameRun Math_sin acts s = true ->
  Forall (fun l => (currentLevelIndex s < l)%nat) (levelSignals Math_sin acts s)
  /\ StronglySorted lt (levelSignals Math_sin acts s).
Proof.
  induction acts as [|a acts IH]; intros s H.
  - cbn. split; constructor.
  - cbn [sameRun] in H. apply andb_true_iff in H as [Ha Hrest].
    destruct (IH _ Hrest) as [IHa IHs].
    pose proof (step_level_le a s Ha) as Hle.
    assert (Hrest_above :
      Forall (fun l => (currentLevelIndex s < l)%nat)
             (levelSignals Math_sin acts (fst (step Math_sin a s)))).
    { eapply Forall_impl; [|exact IHa]. cbn. intros l Hl. lia. }
    cbn [levelSignals].
    destruct a; cbn [app]; try (split; assumption).
    destruct (firesLevelUp s) eqn:E; cbn [app]; [|split; assumption].
    cbn [step fst] in IHa, IHs, Hrest_above |- *.
    destruct (levelEffect_fired s E) as [Hlvl _].
    split.
    + constructor; [lia | exact Hrest_above].
    + constructor; [exact IHs | exact IHa].
Qed.

Lemma StronglySorted_lt_NoDup (l : list nat) : StronglySorted lt l -> NoDup l.
Proof.
  induction 1 as [|a l Hs IH Hf]; constructor; [|exact IH].
  intro Hin. rewrite Forall_forall in Hf. specialize (Hf a Hin). lia.
Qed.

(** C5. Within a run the level index never regresses, whatever the score
    does.  The level effect fires exactly when the next level exists and the
    score has reached its threshold; firing moves the index up by one and
    emits one burst, not firing changes nothing.  The bursts of a run
    announce strictly increasing levels, so each threshold crossing is
    signalled at most once: re-running the effect with the score still above
    a crossed threshold cannot announce that level again. *)
Theorem C5_level_never_regresses (acts : list Action) (s : RunState) :
  sameRun Math_sin acts s = true ->
  (currentLevelIndex s <= currentLevelIndex (fst (run Math_sin acts s)))%nat
  /\ StronglySorted lt (levelSignals Math_sin acts s)
  /\ NoDup (levelSignals Math_sin acts s)
  /\ Forall (fun l => (currentLevelIndex s < l)%nat)
            (levelSignals Math_sin acts s)
  /\ (firesLevelUp s = true
      <-> (S (currentLevelIndex s) < List.length LEVELS)%nat
          /\ (thresholdScore (level (S (currentLevelIndex s))) <= score s)%Z)
  /\ (firesLevelUp s = true ->
      currentLevelIndex (fst (levelEffect s)) = S (currentLevelIndex s)
      /\ List.length (snd (levelEffect s)) = 1%nat
      /\ firesLevelUp (fst (levelEffect s))
         = ((S (S (currentLevelIndex s)) <? List.length LEVELS)%nat
            && (thresholdScore (level (S (S (currentLevelIndex s)))) <=? score s)%Z))
  /\ (firesLevelUp s = false -> levelEffect s = (s, [])).
Proof.
  intro H. destruct (levelSignals_sorted acts s H) as [Ha Hs].
  split; [now apply sameRun_level_le|].
  split; [exact Hs|].
  split; [now apply StronglySorted_lt_NoDup|].
  split; [exact Ha|].
  split; [apply firesLevelUp_iff|].
  split; [|apply levelEffect_quiet].
  intro E. destruct (levelEffect_fired s E) as [H1 H2].
  split; [exact H1|]. split; [exact H2|].
  unfold firesLevelUp at 1. unfold levelEffect at 1. rewrite H1.
  assert (Hsc : score (fst (levelEffect s)) = score s).
  { unfold levelEffect.
    destruct ((S (currentLevelIndex s) <? List.length LEVELS)%nat
              && (thresholdScore (level (S (currentLevelIndex s))) <=? score s)%Z);
      reflexivity. }
  rewrite Hsc.
  destruct ((S (S (currentLevelIndex s)) <? List.length LEVELS)%nat
            && (thresholdScore (level (S (S (currentLevelIndex s)))) <=? score s)%Z);
    reflexivity.
Qed.

(** ** Slow motion *)

Lemma advanceObstacle_speed s dt o :
  Obstacle.speed (advanceObstacle Math_sin s dt o) = Obstacle.speed o.
Proof. reflexivity. Qed.

Lemma advanceObstacle_id s dt o :
  Obstacle.id (advanceObstacle Math_sin s dt o) = Obstacle.id o.
Proof. reflexivity. Qed.

Lemma obstacleLife_speed ctx : forall o,
  Obstacle.speed (obstacleLife Math_sin ctx o) = Obstacle.speed o
  /\ Obstacle.id (obstacleLife Math_sin ctx o) = Obstacle.id o.
Proof.
  unfold obstacleLife. induction ctx as [|c ctx IH]; intro o; cbn [fold_left].
  - split; reflexivity.
  - destruct (IH (advanceObstacle Math_sin (fst c) (snd c) o)) as [H1 H2].
    rewrite H1, H2. split; reflexivity.
Qed.

Lemma slow_factor_round_trip (v : Q) : v * 0.6 / 0.6 == v.
Proof. field. Qed.

Lemma binary64_slow_factor_range : 1 # 2 <= binary64 0.6 <= 1.
Proof. rewrite binary64_06. split; discriminate. Qed.

(** The obstacles and the slow timer a frame stores, by the number of [slow]
    power-ups it picked. *)
Lemma frame_slow r timestamp s :
  gameState s = playing ->
  let dt := effectiveDeltaRatio (prevTime s) timestamp in
  let live := advancePowerUps dt (powerUps s) ++ spawnPowerUps r dt s in
  let n := countPicked (ballPos s) slow live in
  obstacles (fst (gameLoop Math_sin r timestamp s))
  = Nat.iter n slowDown
      (advanceObstacles Math_sin s dt (obstacles s) ++ spawnObstacles r dt s)
  /\ slowTimer (fst (gameLoop Math_sin r timestamp s))
     = if (0 <? n)%nat then Some (timestamp + SLOW_MOTION_DURATION)
       else slowTimer s.
Proof.
  intros G dt live n. unfold gameLoop. rewrite G. fold dt.
  cbn [fst obstacles slowTimer]. unfold pickups, collectPowerUps.
  fold live. cbn [snd].
  destruct (collect_fold_spec timestamp (ballPos s) live
    {| e_invulnerable := invulnerable s; e_shieldTimer := shieldTimer s;
       e_obstacles := advanceObstacles Math_sin s dt (obstacles s)
                      ++ spawnObstacles r dt s;
       e_slowTimer := slowTimer s;
       e_score := (score s + Math_round (1 * dt))%Z;
       e_combo := (combo s + Math_round (1 * dt))%Z;
       e_log := []; changed := false |})
    as (_ & _ & _ & I4 & I5 & _).
  cbn zeta in I4, I5. split; assumption.
Qed.

(** C6. Picking up a [slow] power-up multiplies the speed of every live
    obstacle by [0.6] and arms a timer [3000] ms ahead; when the timer is
    due every live obstacle's speed is divided by [0.6].  A frame that picks
    up no [slow] keeps the speed of every obstacle it keeps, and leaves the
    timer alone.  So an obstacle slowed at the pickup, carried through any
    frames, and alive when the timer fires leaves the expiry with the speed
    it had before the pickup: exactly on the rationals
    ([(v * 0.6) / 0.6 == v]), and in the binary64 arithmetic of the engine,
    where the product and the quotient are each rounded, within the
    relative tolerance [2^-52 + 2^-106] (two roundings), for every speed
    whose magnitude lies in [[2^-1021, 2^1023]], where no intermediate
    result leaves the normal range. *)
Theorem C6_slow_round_trip (o : Obstacle.t) (ctx : list (RunState * Q))
    (s : RunState) (now d : Q) :
  slowTimer s = Some d ->
  d <= now ->
  In (obstacleLife Math_sin ctx (scaleSpeed (fun v => v * 0.6) o))
     (obstacles s) ->
  (exists o',
      In o' (obstacles (runTimers now s))
      /\ Obstacle.speed o' == Obstacle.speed o
      /\ Obstacle.id o' = Obstacle.id o)
  /\ map Obstacle.speed (obstacles (runTimers now s))
     = map (fun v => v / 0.6) (map Obstacle.speed (obstacles s))
  /\ slowTimer (runTimers now s) = None
  /\ (forall t p e,
        PowerUp.type p = slow ->
        map Obstacle.speed (e_obstacles (applyPowerUp t p e))
        = map (fun v => v * 0.6) (map Obstacle.speed (e_obstacles e))
        /\ e_slowTimer (applyPowerUp t p e) = Some (t + 3000))
  /\ (forall r timestamp s0,
        gameState s0 = playing ->
        let dt := effectiveDeltaRatio (prevTime s0) timestamp in
        let n := countPicked (ballPos s0) slow
                   (advancePowerUps dt (powerUps s0) ++ spawnPowerUps r dt s0) in
        obstacles (fst (gameLoop Math_sin r timestamp s0))
        = Nat.iter n slowDown
            (advanceObstacles Math_sin s0 dt (obstacles s0)
             ++ spawnObstacles r dt s0)
        /\ slowTimer (fst (gameLoop Math_sin r timestamp s0))
           = if (0 <? n)%nat then Some (timestamp + 3000) else slowTimer s0)
  /\ (forall s0 dt o0,
        Obstacle.speed (advanceObstacle Math_sin s0 dt o0) = Obstacle.speed o0)
  /\ (forall l,
        map Obstacle.speed (slowDown64 l)
        = map (fun v => binary64 (v * binary64 0.6)) (map Obstacle.speed l)
        /\ map Obstacle.speed (slowRestore64 l)
           = map (fun v => binary64 (v / binary64 0.6)) (map Obstacle.speed l))
  /\ (let slowed := binary64 (Obstacle.speed o * binary64 0.6) in
      let restored :=
        Obstacle.speed
          (scaleSpeed (fun v => binary64 (v / binary64 0.6))
             (obstacleLife Math_sin ctx
                (scaleSpeed (fun v => binary64 (v * binary64 0.6)) o))) in
      restored == binary64 (slowed / binary64 0.6)
      /\ (pow2 (-1021) <= Qabs (Obstacle.speed o) <= pow2 1023 ->
          inRange64 (Obstacle.speed o * binary64 0.6)
          /\ inRange64 (slowed / binary64 0.6)
          /\ Qabs (restored - Obstacle.speed o)
             <= Qabs (Obstacle.speed o)
                * (2 * unit_roundoff + unit_roundoff * unit_roundoff))).
Proof.
  intros Ht Hd Hin.
  assert (Hdue : dueOpt now (slowTimer s) = true).
  { rewrite Ht. cbn. unfold due. now apply Qle_bool_iff. }
  assert (Hobs : obstacles (runTimers now s) = slowRestore (obstacles s)).
  { cbn. now rewrite Hdue. }
  split; [|split; [|split; [|split; [|split; [|split; [|split]]]]]].
  - exists (scaleSpeed (fun v => v / 0.6)
              (obstacleLife Math_sin ctx (scaleSpeed (fun v => v * 0.6) o))).
    split; [rewrite Hobs; unfold slowRestore; now apply in_map|].
    destruct (obstacleLife_speed ctx (scaleSpeed (fun v => v * 0.6) o))
      as [Hsp Hid].
    cbn [scaleSpeed Obstacle.speed Obstacle.id]. rewrite Hsp, Hid.
    split; [apply slow_factor_round_trip | reflexivity].
  - rewrite Hobs. unfold slowRestore. rewrite !map_map. reflexivity.
  - cbn. now rewrite Hdue.
  - intros t p e Hp. unfold applyPowerUp. rewrite Hp.
    cbn [e_obstacles e_slowTimer]. unfold slowDown. rewrite !map_map.
    split; reflexivity.
  - intros r timestamp s0 G. apply (frame_slow r timestamp s0 G).
  - reflexivity.
  - intro l. unfold slowDown64, slowRestore64. rewrite !map_map.
    split; reflexivity.
  - cbv zeta.
    destruct (obstacleLife_speed ctx
                (scaleSpeed (fun v => binary64 (v * binary64 0.6)) o))
      as [Hsp _].
    cbn [scaleSpeed Obstacle.speed] in Hsp |- *. rewrite Hsp.
    split; [reflexivity|]. intro Hrange.
    exact (scaled_round_trip (binary64 0.6) (Obstacle.speed o)
             binary64_slow_factor_range Hrange).
Qed.

(** ** Spawn gating *)

(** C7, as the code has it.  A frame appends obstacles only through the
    spawn gate, and the gate opens exactly when the draw is below
    [(obstacleBaseChance * spawnMultiplier + score * 0.00001) * dt] and the
    committed obstacle count is strictly below the level's [obstacleMax]:
    the score enters as an added term, not as a factor.  Behind an open gate
    a second draw below [0.25] selects a pattern, any other draw a single
    obstacle. *)
Theorem C7_spawn_gate (r : Rand) (dt : Q) (s : RunState) :
  (spawnGate r dt s = true
   <-> rSpawn r
       < (obstacleBaseChance (level (currentLevelIndex s)) * spawnMultiplier s
          + inject_Z (score s) * 0.00001) * dt
       /\ (List.length (obstacles s)
           < obstacleMax (level (currentLevelIndex s)))%nat)
  /\ (spawnObstacles r dt s <> [] ->
      (List.length (obstacles s) < obstacleMax (level (currentLevelIndex s)))%nat)
  /\ (spawnGate r dt s = false -> spawnObstacles r dt s = [])
  /\ (spawnGate r dt s = true ->
      (rPattern r < 0.25 -> spawnObstacles r dt s = generateObstaclePattern s r)
      /\ (0.25 <= rPattern r ->
          spawnObstacles r dt s = [generateObstacle s (rObstacle r)]))
  /\ forall timestamp,
       gameState s = playing ->
       exists f : Q -> Q,
         obstacles (fst (gameLoop Math_sin r timestamp s))
         = map (scaleSpeed f)
             (advanceObstacles Math_sin s
                (effectiveDeltaRatio (prevTime s) timestamp) (obstacles s)
              ++ spawnObstacles r (effectiveDeltaRatio (prevTime s) timestamp) s).
Proof.
  assert (Hgate : spawnGate r dt s = true
   <-> rSpawn r
       < (obstacleBaseChance (level (currentLevelIndex s)) * spawnMultiplier s
          + inject_Z (score s) * 0.00001) * dt
       /\ (List.length (obstacles s)
           < obstacleMax (level (currentLevelIndex s)))%nat).
  { unfold spawnGate, dynamicObstacleChance.
    rewrite andb_true_iff, Qltb_lt, Nat.ltb_lt. reflexivity. }
  split; [exact Hgate|]. split; [|split; [|split]].
  - unfold spawnObstacles. destruct (spawnGate r dt s) eqn:E.
    + intros _. now apply Hgate.
    + intro H. now elim H.
  - unfold spawnObstacles. now intros ->.
  - unfold spawnObstacles, patternChosen. intros ->. split; intro H.
    + apply Qltb_lt in H. now rewrite H.
    + apply Qltb_ge in H. now rewrite H.
  - intros timestamp G. unfold gameLoop. rewrite G. cbn [fst obstacles].
    unfold pickups. apply collect_obstacles_rescaled.
Qed.

(** ** Event modulator *)

Lemma triggerRandomEvent_active r now s :
  isEventActive s = true -> triggerRandomEvent r now s = s.
Proof. unfold triggerRandomEvent. now intros ->. Qed.

Lemma eventPhase_active r dt now s :
  isEventActive s = true -> eventPhase r dt now s = s.
Proof. unfold eventPhase. now intros ->. Qed.

Lemma runTimers_event_due now s :
  existsb (due now) (eventTimers s) = true ->
  isEventActive (runTimers now s) = false
  /\ activeEventType (runTimers now s) = None.
Proof. intro H. cbn. rewrite H. split; reflexivity. Qed.

(** X18. The event slot holds at most one event and is never overwritten
    while occupied: with an event active, the guard of the frame and the
    trigger function each return the state untouched, so a frame keeps the
    active event, its kind and its timers.  A trigger on an empty slot
    occupies it and arms a timer [4000] ms ahead, whatever kind was drawn;
    running the timers at any time from then on empties the slot, so an
    event lasts [4000] ms at most.  On every reachable state an active
    event has a pending timer, and whenever any timer of the slot is due the
    slot is emptied, whichever trigger armed it. *)
Theorem event_slot_is_single (s : RunState) :
  reachable Math_sin s ->
  (isEventActive s = true ->
   eventTimers s <> []
   /\ forall r dt now timestamp,
        triggerRandomEvent r now s = s
        /\ eventPhase r dt now s = s
        /\ (gameState s = playing ->
            isEventActive (fst (gameLoop Math_sin r timestamp s)) = true
            /\ activeEventType (fst (gameLoop Math_sin r timestamp s))
               = activeEventType s
            /\ eventTimers (fst (gameLoop Math_sin r timestamp s))
               = eventTimers s))
  /\ (isEventActive s = false ->
      forall r now later,
        isEventActive (triggerRandomEvent r now s) = true
        /\ eventTimers (triggerRandomEvent r now s)
           = eventTimers s ++ [now + 4000]
        /\ (now + 4000 <= later ->
            isEventActive (runTimers later (triggerRandomEvent r now s)) = false
            /\ activeEventType (runTimers later (triggerRandomEvent r now s))
               = None))
  /\ (forall now,
        existsb (due now) (eventTimers s) = true ->
        isEventActive (runTimers now s) = false
        /\ activeEventType (runTimers now s) = None).
Proof.
  intro Hr. pose proof (Inv_reachable s Hr) as Hi.
  split; [|split].
  - intro Ha. split; [apply (inv_event _ Hi Ha)|].
    intros r dt now timestamp.
    split; [now apply triggerRandomEvent_active|].
    split; [now apply eventPhase_active|].
    intro G. unfold gameLoop. rewrite G.
    cbn [fst isEventActive activeEventType eventTimers].
    rewrite (eventPhase_active _ _ _ _ Ha). repeat split. exact Ha.
  - intros Ha r now later.
    assert (Hin : In (now + EVENT_DURATION)
                     (eventTimers (triggerRandomEvent r now s))).
    { unfold triggerRandomEvent. rewrite Ha. cbn. apply in_or_app. right.
      now left. }
    split; [unfold triggerRandomEvent; now rewrite Ha|].
    split; [unfold triggerRandomEvent; now rewrite Ha|].
    intro Hlater. apply runTimers_event_due. apply existsb_exists.
    exists (now + EVENT_DURATION). split; [exact Hin|].
    unfold due. now apply Qle_bool_iff.
  - intros now. apply runTimers_event_due.
Qed.

(** ** Obstacle cap *)

(** C10. The level's [obstacleMax] is a soft cap.  The gate compares the
    committed count with [obstacleMax] before anything is appended, and a
    pattern appends three obstacles, so after a frame of any reachable
    state at most [obstacleMax + 2] obstacles are live; a spawn happens only
    below [obstacleMax], and a pattern drawn in range has exactly three
    obstacles.  The bound is met: the state [capRun] reaches has
    [obstacleMax - 1] obstacles, and a pattern frame takes it to
    [obstacleMax + 2]. *)
Theorem C10_obstacle_soft_cap (s : RunState) (r : Rand) (timestamp : Q) :
  reachable Math_sin s ->
  (List.length (obstacles (fst (gameLoop Math_sin r timestamp s)))
   <= obstacleMax (level (currentLevelIndex s)) + 2)%nat
  /\ (List.length (obstacles s)
      <= obstacleMax (level (currentLevelIndex s)) + 2)%nat
  /\ (forall dt,
        spawnObstacles r dt s <> [] ->
        (List.length (obstacles s)
         < obstacleMax (level (currentLevelIndex s)))%nat)
  /\ (0 <= rPatternIndex r < 1 ->
      List.length (generateObstaclePattern s r) = 3%nat)
  /\ (reachable Math_sin (fst (run Math_sin capRun (initialState 0)))
      /\ S (List.length
              (obstacles (fst (run Math_sin capRun (initialState 0)))))
         = obstacleMax
             (level (currentLevelIndex
                       (fst (run Math_sin capRun (initialState 0)))))
      /\ List.length
           (obstacles
              (fst (gameLoop Math_sin spawnPattern 49.98
                      (fst (run Math_sin capRun (initialState 0))))))
         = (obstacleMax
              (level (currentLevelIndex
                        (fst (run Math_sin capRun (initialState 0)))))
            + 2)%nat).
Proof.
  intro Hr. pose proof (Inv_reachable s Hr) as Hi.
  pose proof (inv_cap _ (Inv_gameLoop r timestamp s Hi)) as Hc.
  assert (Hlvl : currentLevelIndex (fst (gameLoop Math_sin r timestamp s))
                 = currentLevelIndex s).
  { unfold gameLoop. destruct (gameState s); reflexivity. }
  rewrite Hlvl in Hc.
  split; [exact Hc|]. split; [apply (inv_cap _ Hi)|]. split.
  - intros dt. unfold spawnObstacles, spawnGate.
    destruct (Qltb (rSpawn r) (dynamicObstacleChance s * dt)); cbn [andb].
    + destruct (List.length (obstacles s)
                <? obstacleMax (level (currentLevelIndex s)))%nat eqn:E.
      * intros _. now apply Nat.ltb_lt.
      * intro H. now elim H.
    + intro H. now elim H.
  - split; [apply generateObstaclePattern_three|].
    split; [exists 0, capRun; reflexivity|].
    split; vm_compute; reflexivity.
Qed.

End Properties.

(** * Closed instances *)

(** ** Shield (C1) *)

Definition shieldedState : RunState := sampleRun 0 300 0 1 [hitObstacle] [] true.

Definition exposedState : RunState := sampleRun 0 300 0 1 [hitObstacle] [] false.

(** The same frame without the shield ends the run. *)
Example exposed_overlap_ends_run :
  gameState (fst (gameLoop flat_sin quiet 1016.66 exposedState)) = gameOver.
Proof. vm_compute. reflexivity. Qed.

Lemma C1_shielded_frame_instance :
  gameState shieldedState = playing
  /\ invulnerable shieldedState = true
  /\ overlaps (ballPos (fst (gameLoop flat_sin quiet 1016.66 shieldedState)))
              hitObstacle = true
  /\ gameState (fst (gameLoop flat_sin quiet 1016.66 shieldedState)) = playing
  /\ exists obs',
       In obs' (obstacles (fst (gameLoop flat_sin quiet 1016.66 shieldedState)))
       /\ Obstacle.id obs' = Obstacle.id hitObstacle.
Proof.
  pose proof (C1_shield_ignores_overlap flat_sin quiet 1016.66 shieldedState
                eq_refl eq_refl) as H.
  cbv zeta in H. destruct H as (H1 & _ & _ & H4).
  split; [reflexivity|]. split; [reflexivity|].
  split; [vm_compute; reflexivity|]. split; [exact H1|].
  destruct (H4 hitObstacle (or_introl eq_refl)) as (o' & Hin & Hid & _);
    [vm_compute; reflexivity|].
  exists o'. split; assumption.
Defined.

(** ** Velocity cap (C2) *)

Definition capState : RunState := fst (run flat_sin capRun (initialState 0)).

Lemma capState_reachable : reachable flat_sin capState.
Proof. exists 0, capRun. reflexivity. Defined.

Lemma C2_velocity_instance :
  reachable flat_sin capState
  /\ Qabs (y (ballVel (fst (gameLoop flat_sin quiet 49.98 capState))))
     <= MAX_VELOCITY * speedMultiplier (fst (gameLoop flat_sin quiet 49.98 capState)).
Proof.
  split; [exact capState_reachable|].
  destruct (C2_velocity_within_cap flat_sin capState capState_reachable
              quiet 49.98 1) as (_ & _ & _ & H).
  exact H.
Defined.

(** ** Magnet (C3) *)

Definition magnetState : RunState := sampleRun 0 300 0 1 [] [nearMagnet] false.

(** One uncollected magnet within the radius, ten pixels from the ball
    before the frame and less after it; a frame at the reference interval.
    The magnet is collected, and the frame adds 501 to the score and 6 to
    the combo, not 500 and 5. *)
Lemma C3_magnet_frame_adds_501 :
  gameState magnetState = playing
  /\ In nearMagnet (powerUps magnetState)
  /\ PowerUp.type nearMagnet = magnet
  /\ PowerUp.collected nearMagnet = false
  /\ inPickupRange (ballPos magnetState) nearMagnet = true
  /\ inPickupRange (ballPos (fst (gameLoop flat_sin quiet 1016.66 magnetState)))
                   (advancePowerUp 1 nearMagnet) = true
  /\ map PowerUp.collected
         (powerUps (fst (gameLoop flat_sin quiet 1016.66 magnetState)))
     = [true]
  /\ score (fst (gameLoop flat_sin quiet 1016.66 magnetState))
     = (score magnetState + 501)%Z
  /\ combo (fst (gameLoop flat_sin quiet 1016.66 magnetState))
     = (combo magnetState + 6)%Z
  /\ score (fst (gameLoop flat_sin quiet 1016.66 magnetState))
     <> (score magnetState + 500)%Z
  /\ combo (fst (gameLoop flat_sin quiet 1016.66 magnetState))
     <> (combo magnetState + 5)%Z.
Proof.
  split; [reflexivity|]. split; [now left|]. split; [reflexivity|].
  split; [reflexivity|]. split; [vm_compute; reflexivity|].
  split; [vm_compute; reflexivity|]. split; [vm_compute; reflexivity|].
  split; [vm_compute; reflexivity|]. split; [vm_compute; reflexivity|].
  split; vm_compute; discriminate.
Qed.

Lemma C3_magnet_instance :
  x (ballPos magnetState) = 100
  /\ gameState magnetState = playing
  /\ In nearMagnet (powerUps magnetState)
  /\ countPicked (ballPos magnetState) magnet
       (advancePowerUps (effectiveDeltaRatio (prevTime magnetState) 1016.66)
          (powerUps magnetState)
        ++ spawnPowerUps quiet
             (effectiveDeltaRatio (prevTime magnetState) 1016.66) magnetState)
     = 1%nat
  /\ Math_round (1 * effectiveDeltaRatio (prevTime magnetState) 1016.66) = 1%Z
  /\ score (fst (gameLoop flat_sin quiet 1016.66 magnetState))
     = (score magnetState + (500 + 1))%Z
  /\ combo (fst (gameLoop flat_sin quiet 1016.66 magnetState))
     = (combo magnetState + (5 + 1))%Z
  /\ In (PowerUp.mk "pow-m" magnet
           (mkPosition
              (110 - 2.5 * effectiveDeltaRatio (prevTime magnetState) 1016.66)
              300)
           true
           (0 + 0.15 * effectiveDeltaRatio (prevTime magnetState) 1016.66))
        (powerUps (fst (gameLoop flat_sin quiet 1016.66 magnetState))).
Proof.
  assert (Hn : countPicked (ballPos magnetState) magnet
       (advancePowerUps (effectiveDeltaRatio (prevTime magnetState) 1016.66)
          (powerUps magnetState)
        ++ spawnPowerUps quiet
             (effectiveDeltaRatio (prevTime magnetState) 1016.66) magnetState)
     = 1%nat) by (vm_compute; reflexivity).
  assert (Hd : Math_round (1 * effectiveDeltaRatio (prevTime magnetState) 1016.66)
               = 1%Z) by (vm_compute; reflexivity).
  assert (Hin : In nearMagnet (powerUps magnetState)) by (now left).
  pose proof (C3_magnet_bonus_on_top_of_frame flat_sin quiet 1016.66 magnetState
                nearMagnet eq_refl eq_refl Hin eq_refl eq_refl) as H.
  cbv zeta in H.
  destruct H as (H1 & _ & _ & _ & _ & H6);
    [vm_compute; reflexivity | vm_compute; reflexivity |].
  destruct (H6 Hn) as [Hs Hc]. rewrite Hd in Hs, Hc.
  split; [reflexivity|]. split; [reflexivity|]. split; [exact Hin|].
  split; [exact Hn|]. split; [exact Hd|]. split; [exact Hs|].
  split; [exact Hc | exact H1].
Defined.

(** ** Bounce (C4) *)

(** A ball one pixel below the top boundary, moving up. *)
Definition topState : RunState := sampleRun 0 13 (-5) (-1) [] [] false.

(** A ball one pixel above the bottom boundary, moving down. *)
Definition bottomState : RunState := sampleRun 0 587 5 1 [] [] false.

Lemma C4_bounce_instance :
  (crossesTop topState 1 = true
   /\ clampedVelY topState 1 == -5.4
   /\ flips (integrate topState 1) = [BounceTop]
   /\ newTentativePosY (integrate topState 1) == 12
   /\ newTentativeVelY (integrate topState 1) == 3.78
   /\ applyFlips (flips (integrate topState 1)) (gravityDir topState)
      = - gravityDir topState)
  /\ (crossesTop bottomState 1 = false
      /\ crossesBottom bottomState 1 = true
      /\ clampedVelY bottomState 1 == 5.4
      /\ flips (integrate bottomState 1) = [BounceBottom]
      /\ newTentativePosY (integrate bottomState 1) == 588
      /\ newTentativeVelY (integrate bottomState 1) == -3.78
      /\ applyFlips (flips (integrate bottomState 1)) (gravityDir bottomState)
         = - gravityDir bottomState).
Proof.
  assert (Et : crossesTop topState 1 = true) by (vm_compute; reflexivity).
  assert (Ef : crossesTop bottomState 1 = false) by (vm_compute; reflexivity).
  assert (Eb : crossesBottom bottomState 1 = true) by (vm_compute; reflexivity).
  assert (Vt : clampedVelY topState 1 == -5.4) by (vm_compute; reflexivity).
  assert (Vb : clampedVelY bottomState 1 == 5.4) by (vm_compute; reflexivity).
  destruct (C4_single_bounce_per_frame flat_sin topState 1)
    as (_ & _ & _ & _ & _ & Htop & _).
  destruct (C4_single_bounce_per_frame flat_sin bottomState 1)
    as (_ & _ & _ & _ & _ & _ & Hbot & _).
  destruct (Htop Et) as (Hi & Hp & Hv & _ & _ & Hg).
  destruct (Hbot Ef Eb) as (Hi' & Hp' & Hv' & _ & _ & Hg').
  split.
  - split; [exact Et|]. split; [exact Vt|].
    split; [rewrite Hi; reflexivity|]. split; [exact Hp|].
    split; [rewrite Hv, Vt; reflexivity | exact Hg].
  - split; [exact Ef|]. split; [exact Eb|]. split; [exact Vb|].
    split; [rewrite Hi'; reflexivity|]. split; [exact Hp'|].
    split; [rewrite Hv', Vb; reflexivity | exact Hg'].
Defined.

Example bottom_bounce_flips_gravity :
  flips (integrate bottomState 1) = [BounceBottom]
  /\ gravityDir (fst (gameLoop flat_sin quiet 1016.66 bottomState)) == -1
  /\ y (ballPos (fst (gameLoop flat_sin quiet 1016.66 bottomState))) == 588.
Proof. vm_compute. repeat split; discriminate. Qed.

(** ** Level ladder (C5) *)

(** A run whose score has just reached the first threshold. *)
Definition thresholdState : RunState := sampleRun 500 300 0 1 [] [] false.

(** The effect, a frame, the effect again. *)
Definition ladderRun : list Action :=
  [LevelEffect; Frame quiet 1016.66; LevelEffect].

Lemma C5_level_instance :
  sameRun flat_sin ladderRun thresholdState = true
  /\ levelSignals flat_sin ladderRun thresholdState = [1%nat]
  /\ currentLevelIndex (fst (run flat_sin ladderRun thresholdState)) = 1%nat
  /\ (currentLevelIndex thresholdState
      <= currentLevelIndex (fst (run flat_sin ladderRun thresholdState)))%nat
  /\ NoDup (levelSignals flat_sin ladderRun thresholdState).
Proof.
  assert (E : sameRun flat_sin ladderRun thresholdState = true)
    by (vm_compute; reflexivity).
  destruct (C5_level_never_regresses flat_sin ladderRun thresholdState E)
    as (H1 & _ & H3 & _).
  split; [exact E|]. split; [vm_compute; reflexivity|].
  split; [vm_compute; reflexivity|]. split; [exact H1 | exact H3].
Defined.

(** ** Slow motion (C6) *)

(** An obstacle whose speed is the binary64 number [3.35]. *)
Definition fastObstacle : Obstacle.t :=
  Obstacle.mk "obs-fast" spinner (mkPosition 400 100) 40 70 0 (binary64 3.35) 0
              "hsl(0, 75%, 65%)".

(** A [slow] power-up next to the ball, two obstacles far to the right; the
    pickup frame, one more frame, then the timers after the duration. *)
Definition slowState0 : RunState :=
  sampleRun 0 300 0 1 [farObstacle; fastObstacle] [nearSlow] false.

Definition slowState1 : RunState :=
  fst (gameLoop flat_sin quiet 1016.66 slowState0).

Definition slowState2 : RunState :=
  fst (gameLoop flat_sin quiet 1033.32 slowState1).

(** The fast obstacle as the pickup frame advanced it, before the
    slow-down. *)
Definition obstacleAtPickup : Obstacle.t :=
  advanceObstacle flat_sin slowState0
    (effectiveDeltaRatio (prevTime slowState0) 1016.66) fastObstacle.

(** In binary64 the round trip of the speed [3.35] ends one unit in the last
    place below it: [3.3499999999999996]. *)
Example slow_round_trip_of_3_35 :
  binary64 3.35 == 7543529375845581 # 2251799813685248
  /\ binary64 (binary64 3.35 * binary64 0.6)
     == 1131529406376837 # 562949953421312
  /\ binary64 (binary64 (binary64 3.35 * binary64 0.6) / binary64 0.6)
     == 1885882343961395 # 562949953421312
  /\ binary64 (binary64 (binary64 3.35 * binary64 0.6) / binary64 0.6)
     == binary64 3.35 - (1 # 2 ^ 51).
Proof. vm_compute. repeat split. Qed.

Lemma C6_slow_instance :
  slowTimer slowState2 = Some (1016.66 + 3000)
  /\ 1016.66 + 3000 <= 4100
  /\ pow2 (-1021) <= Qabs (Obstacle.speed obstacleAtPickup) <= pow2 1023
  /\ map Obstacle.speed (obstacles slowState0) = [2.5; binary64 3.35]
  /\ map Obstacle.speed (obstacles slowState1)
     = [2.5 * 0.6; binary64 3.35 * 0.6]
  /\ map Obstacle.speed (obstacles (runTimers 4100 slowState2))
     = [2.5 * 0.6 / 0.6; binary64 3.35 * 0.6 / 0.6]
  /\ (exists o',
        In o' (obstacles (runTimers 4100 slowState2))
        /\ Obstacle.speed o' == binary64 3.35
        /\ Obstacle.id o' = "obs-fast"%string)
  /\ Qabs (binary64 (binary64 (binary64 3.35 * binary64 0.6) / binary64 0.6)
           - binary64 3.35)
     <= Qabs (binary64 3.35)
        * (2 * unit_roundoff + unit_roundoff * unit_roundoff)
  /\ ~ binary64 (binary64 (binary64 3.35 * binary64 0.6) / binary64 0.6)
       == binary64 3.35.
Proof.
  assert (Ht : slowTimer slowState2 = Some (1016.66 + 3000))
    by (vm_compute; reflexivity).
  assert (Hd : 1016.66 + 3000 <= 4100) by (vm_compute; discriminate).
  assert (Hin :
    In (obstacleLife flat_sin
          [(slowState1, effectiveDeltaRatio (prevTime slowState1) 1033.32)]
          (scaleSpeed (fun v => v * 0.6) obstacleAtPickup))
       (obstacles slowState2))
    by (vm_compute; right; left; reflexivity).
  assert (Hr : pow2 (-1021) <= Qabs (Obstacle.speed obstacleAtPickup)
               <= pow2 1023)
    by (split; vm_compute; discriminate).
  destruct (C6_slow_round_trip flat_sin obstacleAtPickup
              [(slowState1, effectiveDeltaRatio (prevTime slowState1) 1033.32)]
              slowState2 4100 (1016.66 + 3000) Ht Hd Hin)
    as (H1 & _ & _ & _ & _ & _ & _ & H8).
  cbv zeta in H8. destruct H8 as (_ & H8).
  destruct (H8 Hr) as (_ & _ & H9). clear H8.
  split; [exact Ht|]. split; [exact Hd|]. split; [exact Hr|].
  split; [vm_compute; reflexivity|]. split; [vm_compute; reflexivity|].
  split; [vm_compute; reflexivity|]. split; [exact H1|].
  split; [exact H9|]. vm_compute. discriminate.
Defined.

(** ** Spawn gating (C7) *)

(** Two states of one run at level 1 with the same score [1000]: the spawn
    multiplier is [1] in the first and [1.05] in the second, after the
    adaptive effect. *)
Definition spawnStateA : RunState :=
  fst (levelEffect (sampleRun 1000 300 0 1 [] [] false)).

Definition spawnStateB : RunState := spawnRateEffect 2000 spawnStateA.

(** No factor of the score turns [obstacleBaseChance * spawnMultiplier] into
    the spawn chance of both states: the score is added, not multiplied. *)
Lemma C7_score_term_is_not_a_factor :
  score spawnStateA = score spawnStateB
  /\ currentLevelIndex spawnStateA = currentLevelIndex spawnStateB
  /\ dynamicObstacleChance spawnStateA == 0.025
  /\ dynamicObstacleChance spawnStateB == 0.02575
  /\ ~ (exists scoreFactor : Q,
          dynamicObstacleChance spawnStateA
          == obstacleBaseChance (level (currentLevelIndex spawnStateA))
             * spawnMultiplier spawnStateA * scoreFactor
          /\ dynamicObstacleChance spawnStateB
             == obstacleBaseChance (level (currentLevelIndex spawnStateB))
                * spawnMultiplier spawnStateB * scoreFactor).
Proof.
  split; [reflexivity|]. split; [reflexivity|].
  assert (Ea : dynamicObstacleChance spawnStateA == 0.025)
    by (vm_compute; reflexivity).
  assert (Eb : dynamicObstacleChance spawnStateB == 0.02575)
    by (vm_compute; reflexivity).
  split; [exact Ea|]. split; [exact Eb|].
  intros [f [Ha Hb]]. rewrite Ea in Ha. rewrite Eb in Hb.
  assert (Ba : obstacleBaseChance (level (currentLevelIndex spawnStateA))
               * spawnMultiplier spawnStateA == 0.015)
    by (vm_compute; reflexivity).
  assert (Bb : obstacleBaseChance (level (currentLevelIndex spawnStateB))
               * spawnMultiplier spawnStateB == 0.01575)
    by (vm_compute; reflexivity).
  rewrite Ba in Ha. rewrite Bb in Hb. lra.
Qed.

(** Four obstacles at level 0: the cap is reached. *)
Definition fullState : RunState :=
  sampleRun 0 300 0 1 [farObstacle; farObstacle; farObstacle; farObstacle]
            [] false.

Lemma C7_spawn_gate_instance :
  spawnGate spawnPattern 1 capState = true
  /\ rPattern spawnPattern < 0.25
  /\ spawnObstacles spawnPattern 1 capState
     = generateObstaclePattern capState spawnPattern
  /\ spawnGate spawnPattern 1 fullState = false
  /\ spawnObstacles spawnPattern 1 fullState = [].
Proof.
  assert (E : spawnGate spawnPattern 1 capState = true)
    by (vm_compute; reflexivity).
  assert (P : rPattern spawnPattern < 0.25) by (vm_compute; reflexivity).
  destruct (C7_spawn_gate flat_sin spawnPattern 1 capState)
    as (_ & _ & _ & H & _).
  destruct (H E) as [Hp _].
  split; [exact E|]. split; [exact P|]. split; [exact (Hp P)|].
  split; vm_compute; reflexivity.
Defined.

(** ** Event slot (C8) *)

(** From the mount: start a game, then a frame whose draw triggers an
    event at wall-clock time [16.66]. *)
Definition eventState : RunState :=
  fst (run flat_sin [Press quiet 0; Frame stormy 16.66] (initialState 0)).

Lemma eventState_reachable : reachable flat_sin eventState.
Proof. exists 0, [Press quiet 0; Frame stormy 16.66]. reflexivity. Defined.

(** The run of the failing input of C8.  A game is started and its first
    frame triggers an event, whose timeout is due at [33.32 + 4000]; the
    start obstacle reaches the ball [32] frames later and ends the run at
    [1099.56].  A press at [1150] starts the next game, its first frame
    triggers an event at [1166.66], and [86] more frames take the game to
    [4032.18]. *)
Definition fastDraws : ObstacleDraws :=
  mkObstacleDraws 0 0.99 0.85 0 "obs-a" "hsl(0, 75%, 65%)".

Definition startFast : Rand :=
  mkRand 0.99 0 0.99 0.99 0 fastDraws (fun _ => fastDraws) 0.99 samplePowerUp.

Definition firstGame : list Action :=
  [Press startFast 0; Frame stormy 33.32]
  ++ map (fun k => Frame quiet (inject_Z (Z.of_nat k) * 33.32)) (seq 2 32).

Definition secondGame : list Action :=
  [Press quiet 1150; Frame stormy 1166.66]
  ++ map (fun k => Frame quiet (1166.66 + inject_Z (Z.of_nat k) * 33.32))
         (seq 1 86).

Definition staleTimerState : RunState :=
  fst (run flat_sin (firstGame ++ secondGame) (initialState 0)).

(** C8.  The event of the second game, triggered at [1166.66], is over at
    [4033.32], after [2866.66] ms instead of [4000]: the timeout that the
    event of the first game armed is still pending, since [startGame]
    clears the shield and the slow timeouts only, and it empties the slot
    whatever event occupies it. *)
Theorem C8_stale_timeout_ends_event_early :
  gameState (fst (run flat_sin firstGame (initialState 0))) = gameOver
  /\ isEventActive (fst (run flat_sin firstGame (initialState 0))) = true
  /\ eventTimers (fst (run flat_sin firstGame (initialState 0)))
     = [33.32 + 4000]
  /\ isEventActive
       (fst (run flat_sin (firstGame ++ [Press quiet 1150]) (initialState 0)))
     = false
  /\ reachable flat_sin staleTimerState
  /\ gameState staleTimerState = playing
  /\ isEventActive staleTimerState = true
  /\ activeEventType staleTimerState = Some storm
  /\ eventTimers staleTimerState = [33.32 + 4000; 1166.66 + 4000]
  /\ isEventActive (runTimers 4033.32 staleTimerState) = false
  /\ activeEventType (runTimers 4033.32 staleTimerState) = None
  /\ eventTimers (runTimers 4033.32 staleTimerState) = [1166.66 + 4000]
  /\ prevTime staleTimerState = Some (1166.66 + inject_Z 86 * 33.32)
  /\ 1166.66 + inject_Z 86 * 33.32 < 4033.32
  /\ 4033.32 - 1166.66 == 2866.66
  /\ 4033.32 < 1166.66 + 4000.
Proof.
  split; [vm_compute; reflexivity|]. split; [vm_compute; reflexivity|].
  split; [vm_compute; reflexivity|]. split; [vm_compute; reflexivity|].
  split; [exists 0, (firstGame ++ secondGame); reflexivity|].
  vm_compute. repeat split.
Qed.

Lemma event_slot_instance :
  reachable flat_sin eventState
  /\ isEventActive eventState = true
  /\ activeEventType eventState = Some storm
  /\ eventTimers eventState = [16.66 + 4000]
  /\ triggerRandomEvent stormy 33.32 eventState = eventState
  /\ isEventActive (fst (gameLoop flat_sin stormy 33.32 eventState)) = true
  /\ eventTimers (fst (gameLoop flat_sin stormy 33.32 eventState))
     = eventTimers eventState
  /\ isEventActive (runTimers 4016.66 eventState) = false
  /\ activeEventType (runTimers 4016.66 eventState) = None.
Proof.
  assert (Ea : isEventActive eventState = true) by (vm_compute; reflexivity).
  destruct (event_slot_is_single flat_sin eventState eventState_reachable)
    as (H1 & _ & H3).
  destruct (H1 Ea) as [_ H].
  destruct (H stormy 1 33.32 33.32) as (Ht & _ & Hf).
  destruct (Hf eq_refl) as (Hf1 & _ & Hf3).
  destruct (H3 4016.66) as [Hx Hy]; [vm_compute; reflexivity|].
  split; [exact eventState_reachable|]. split; [exact Ea|].
  split; [vm_compute; reflexivity|]. split; [vm_compute; reflexivity|].
  split; [exact Ht|]. split; [exact Hf1|]. split; [exact Hf3|].
  split; [exact Hx | exact Hy].
Defined.

(** ** Gravity hook (C9) *)

Lemma C9_toggle_instance :
  gameState (initialState 0) <> playing
  /\ toggleGravity (initialState 0) = (initialState 0, [])
  /\ gameState exposedState = playing
  /\ gravityDir (fst (toggleGravity exposedState)) = - gravityDir exposedState.
Proof.
  assert (Hm : gameState (initialState 0) <> playing) by discriminate.
  destruct (C9_toggle_only_while_playing (initialState 0)) as [H1 _].
  destruct (C9_toggle_only_while_playing exposedState) as [_ H2].
  destruct (H2 eq_refl) as (Hg & _).
  split; [exact Hm|]. split; [exact (H1 Hm)|].
  split; [reflexivity | exact Hg].
Defined.

(** ** Obstacle cap (C10) *)

Lemma C10_soft_cap_instance :
  reachable flat_sin capState
  /\ List.length (obstacles capState) = 3%nat
  /\ obstacleMax (level (currentLevelIndex capState)) = 4%nat
  /\ List.length (obstacles (fst (gameLoop flat_sin spawnPattern 49.98 capState)))
     = 6%nat
  /\ (List.length (obstacles (fst (gameLoop flat_sin spawnPattern 49.98 capState)))
      <= obstacleMax (level (currentLevelIndex capState)) + 2)%nat.
Proof.
  destruct (C10_obstacle_soft_cap flat_sin capState spawnPattern 49.98
              capState_reachable) as (H & _).
  split; [exact capState_reachable|].
  split; [vm_compute; reflexivity|]. split; [vm_compute; reflexivity|].
  split; [vm_compute; reflexivity | exact H].
Defined.

(** * Further properties of the source *)

(** ** Particles ([createParticles] and the particle updater of [gameLoop]) *)

Record Particle := mkParticle {
  pt_id : string; pt_position : Position; pt_velocity : Velocity;
  life : Q; pt_color : string; size : Q
}.

(** The draws of one particle: the two position jitters, the two velocity
    components, the size and the random part of the id. *)
Record ParticleDraws := mkParticleDraws {
  jx : Q; jy : Q; jvx : Q; jvy : Q; jsize : Q; jid : string
}.

Definition newParticle (position : Position) (color : string)
    (gravityEffect : bool) (d : ParticleDraws) : Particle :=
  {| pt_id := jid d;
     pt_position :=
       mkPosition (x position + (jx d - 0.5) * 15) (y position + (jy d - 0.5) * 15);
     pt_velocity :=
       mkPosition ((jvx d - 0.5) * 7)
                  ((jvy d - 0.5) * 7 - (if gravityEffect then 2 else 0));
     life := 1;
     pt_color := color;
     size := jsize d * 3.5 + 1.5 |}.

(** [arr.slice(-n)]: the last [n] elements, all of them when there are fewer. *)
Definition slice_last {A : Type} (n : nat) (l : list A) : list A :=
  skipn (List.length l - n) l.

(** [setParticles(prev => [...prev, ...newParticles].slice(-100))], the new
    particles being [Array.from({ length: count }).map(..)]. *)
Definition createParticles (position : Position) (count : nat) (color : string)
    (gravityEffect : bool) (draws : nat -> ParticleDraws)
    (prev : list Particle) : list Particle :=
  slice_last 100
    (prev ++ map (fun i => newParticle position color gravityEffect (draws i))
                 (seq 0 count)).

Definition advanceParticle (effectiveDeltaRatio : Q) (p : Particle) : Particle :=
  {| pt_id := pt_id p;
     pt_position :=
       mkPosition (x (pt_position p) + x (pt_velocity p) * effectiveDeltaRatio)
                  (y (pt_position p) + y (pt_velocity p) * effectiveDeltaRatio);
     pt_velocity :=
       mkPosition (x (pt_velocity p))
                  (y (pt_velocity p) + 0.1 * effectiveDeltaRatio);
     life := life p - 0.02 * effectiveDeltaRatio;
     pt_color := pt_color p; size := size p |}.

(** The particle updater of a frame. *)
Definition advanceParticles (effectiveDeltaRatio : Q) (prevParts : list Particle)
    : list Particle :=
  filter (fun p => Qltb 0 (life p))
         (map (advanceParticle effectiveDeltaRatio) prevParts).

(** The particles after the frames whose time ratios are [dts], in order. *)
Definition particlesAfter (dts : list Q) (parts : list Particle) : list Particle :=
  fold_left (fun ps dt => advanceParticles dt ps) dts parts.

(** ** Rendering filter of the power-ups ([renderGameArea]) *)

(** [powerUps.filter(p => !p.collected || p.pulse < Math.PI * 2)]. *)
Definition drawn (p : PowerUp.t) : bool :=
  negb (PowerUp.collected p) || Qltb (PowerUp.pulse p) (Math_PI * 2).

(** ** Draws that a random source can deliver *)

(** The speed jitters of a frame's generators are not negative. *)
Definition speedDrawsOk (r : Rand) : Prop :=
  0 <= dSpeed (rObstacle r) /\ forall i, 0 <= dSpeed (rSlot r i).

Definition actionDrawsOk (a : Action) : Prop :=
  match a with
  | Frame r _ | Press r _ => speedDrawsOk r
  | _ => True
  end.

(** What holds of a power-up from its spawn on: the pulse counts the
    distance drifted from the spawn column, and a collected power-up is left
    of the pickup radius' right edge. *)
Definition driftOk (p : PowerUp.t) : Prop :=
  PowerUp.pulse p == 0.06 * (440 - x (PowerUp.position p))
  /\ (PowerUp.collected p = true -> x (PowerUp.position p) < 130).

Definition uncollected (p : PowerUp.t) : bool := negb (PowerUp.collected p).

(** ** The level effect run to rest *)

(** The level effect depends on [currentLevelIndex]: each change of the
    index runs it again.  [settleLevel n] is up to [n] such runs in a row. *)
Fixpoint settleLevel (n : nat) (s : RunState) : RunState :=
  match n with
  | O => s
  | S k => settleLevel k (fst (levelEffect s))
  end.

(** ** Helper facts *)



Lemma level_speed_factor_pos (i : nat) : 0 < obstacleSpeedFactor (level i).
Proof.
  unfold level. do 5 (destruct i as [|i]; [cbn; reflexivity|]).
  destruct i; cbn; reflexivity.
Qed.


Lemma obstacleWidth_range (t : ObstacleType) : 30 <= obstacleWidth t <= 50.
Proof. destruct t; cbn; split; discriminate. Qed.

Lemma pattern_offsets_right (i : nat) :
  Forall (fun off => -100 <= dx off) (offsets (nth i PATTERNS (mkPattern []))).
Proof.
  do 4 (destruct i as [|i]; [cbn; repeat constructor; discriminate|]).
  destruct i; cbn; constructor.
Qed.

Lemma stormFactor_pos s : 0 < stormFactor s.
Proof.
  unfold stormFactor.
  destruct (isEventActive s && _); reflexivity.
Qed.

Lemma beatFactor_pos s : 0 < beatFactor s.
Proof. unfold beatFactor. destruct (beatActive s); reflexivity. Qed.

Lemma obstacleSpeed_pos s jitter :
  (0 <= score s)%Z -> 0 <= jitter -> 0 < obstacleSpeed s jitter.
Proof.
  intros Hs Hj. unfold obstacleSpeed.
  pose proof (level_speed_factor_pos (currentLevelIndex s)) as Hf.
  pose proof (stormFactor_pos s) as Hst. pose proof (beatFactor_pos s) as Hb.
  assert (Hsc : 0 <= inject_Z (score s)).
  { change 0 with (inject_Z 0). now rewrite <- Zle_Qle. }
  set (sc := inject_Z (score s)) in *.
  set (f := obstacleSpeedFactor (level (currentLevelIndex s))) in *.
  set (a := stormFactor s) in *. set (b := beatFactor s) in *.
  clearbody sc f a b.
  assert (H1 : 0 < 2.5 + jitter * 2 + sc / 5000).
  { assert (0 <= sc / 5000) by (apply Qle_shift_div_l; [reflexivity | lra]).
    lra. }
  apply Qmult_lt_0_compat; [|exact Hb].
  apply Qmult_lt_0_compat; [|exact Hst].
  apply Qmult_lt_0_compat; assumption.
Qed.

Lemma slice_last_length {A : Type} (n : nat) (l : list A) :
  List.length (slice_last n l) = Nat.min n (List.length l).
Proof. unfold slice_last. rewrite length_skipn. lia. Qed.

Lemma slice_last_suffix {A : Type} (n : nat) (l : list A) :
  exists dropped, l = dropped ++ slice_last n l
                  /\ List.length dropped = (List.length l - n)%nat.
Proof.
  exists (firstn (List.length l - n) l). unfold slice_last. split.
  - symmetry. apply firstn_skipn.
  - rewrite length_firstn. lia.
Qed.

Section Further.

Variable Math_sin : Q -> Q.

(** ** A second invariant of a mounted component *)

Lemma integrate_position_range (s : RunState) (dt : Q) :
  0 <= dt ->
  BALL_RADIUS <= y (ballPos s) <= CANVAS_HEIGHT - BALL_RADIUS ->
  BALL_RADIUS <= newTentativePosY (integrate s dt) <= CANVAS_HEIGHT - BALL_RADIUS.
Proof.
  intros Hdt [Hlo Hhi]. unfold integrate.
  destruct (crossesTop s dt) eqn:Et; [|destruct (crossesBottom s dt) eqn:Eb];
    cbn [newTentativePosY]; unfold BALL_RADIUS, CANVAS_HEIGHT in *.
  - split; lra.
  - split; lra.
  - unfold crossesTop in Et. unfold crossesBottom in Eb.
    unfold steppedPosY, BALL_RADIUS, CANVAS_HEIGHT in *.
    set (v := clampedVelY s dt) in *. set (p := y (ballPos s)) in *.
    clearbody v p.
    apply andb_false_iff in Et. apply andb_false_iff in Eb. split.
    + destruct Et as [Et | Et].
      * apply Qle_bool_gt in Et. lra.
      * apply Qltb_ge in Et. nra.
    + destruct Eb as [Eb | Eb].
      * apply Qle_bool_gt in Eb. lra.
      * apply Qltb_ge in Eb. nra.
Qed.

Lemma applyFlips_integrate (s : RunState) (dt : Q) :
  applyFlips (flips (integrate s dt)) (gravityDir s) = gravityDir s
  \/ applyFlips (flips (integrate s dt)) (gravityDir s) = - gravityDir s.
Proof.
  unfold integrate.
  destruct (crossesTop s dt); [|destruct (crossesBottom s dt)]; cbn; auto.
Qed.

Lemma count_uncollected_map_le (f : PowerUp.t -> PowerUp.t) (l : list PowerUp.t) :
  (forall p, PowerUp.collected p = true -> PowerUp.collected (f p) = true) ->
  (List.length (filter uncollected (map f l))
   <= List.length (filter uncollected l))%nat.
Proof.
  intro Hf. induction l as [|p l IH]; cbn [map filter]; [lia|].
  destruct (uncollected p) eqn:E, (uncollected (f p)) eqn:E';
    cbn [List.length]; try lia.
  unfold uncollected in E, E'. apply negb_false_iff in E.
  rewrite (Hf p E) in E'. discriminate.
Qed.

Lemma count_uncollected_filter_le (g : PowerUp.t -> bool) (l : list PowerUp.t) :
  (List.length (filter uncollected (filter g l))
   <= List.length (filter uncollected l))%nat.
Proof.
  induction l as [|p l IH]; cbn [filter]; [lia|].
  destruct (g p); cbn [filter]; destruct (uncollected p);
    cbn [List.length]; lia.
Qed.

Lemma advancePowerUps_uncollected dt l :
  (List.length (filter uncollected (advancePowerUps dt l))
   <= List.length (filter uncollected l))%nat.
Proof.
  unfold advancePowerUps.
  eapply Nat.le_trans; [apply count_uncollected_filter_le|].
  eapply Nat.le_trans; [apply count_uncollected_filter_le|].
  apply count_uncollected_map_le. intros p H. exact H.
Qed.

Lemma collectPowerUps_uncollected now ball pows e :
  (List.length (filter uncollected (fst (collectPowerUps now ball pows e)))
   <= List.length (filter uncollected pows))%nat.
Proof.
  unfold collectPowerUps. cbn [fst].
  destruct (changed (snd (fold_right (collectOne now ball) ([], e) pows)));
    [|lia].
  destruct (collect_fold_spec now ball pows e) as (I1 & _).
  cbn zeta in I1. rewrite I1.
  eapply Nat.le_trans; [apply count_uncollected_filter_le|].
  apply count_uncollected_map_le. intros p H.
  destruct (picked ball p); [reflexivity | exact H].
Qed.

Lemma spawnPowerUps_uncollected r dt s :
  (List.length (filter uncollected (powerUps s))
   + List.length (filter uncollected (spawnPowerUps r dt s)) <= 2)%nat
  \/ spawnPowerUps r dt s = [].
Proof.
  unfold spawnPowerUps.
  destruct (Qltb (rPowerUpChance r) _); cbn [andb]; [|now right].
  destruct (List.length (filter (fun p => negb (PowerUp.collected p)) (powerUps s))
            <? 2)%nat eqn:E; [|now right].
  left. apply Nat.ltb_lt in E.
  change (fun p => negb (PowerUp.collected p)) with uncollected in E.
  assert (Hone : List.length (filter uncollected [generatePowerUp (rPowerUp r)])
                 = 1%nat) by reflexivity.
  rewrite Hone. lia.
Qed.

Lemma frame_uncollected r timestamp dt s :
  (List.length (filter uncollected (powerUps s)) <= 2)%nat ->
  (List.length (filter uncollected (fst (pickups Math_sin r timestamp dt s)))
   <= 2)%nat.
Proof.
  intro H. unfold pickups.
  eapply Nat.le_trans; [apply collectPowerUps_uncollected|].
  rewrite filter_app, length_app.
  pose proof (advancePowerUps_uncollected dt (powerUps s)) as Ha.
  destruct (spawnPowerUps_uncollected r dt s) as [Hs | Hs].
  - lia.
  - rewrite Hs. cbn. lia.
Qed.

Lemma Forall_filter_keep {A : Type} (P : A -> Prop) (g : A -> bool) (l : list A) :
  Forall P l -> Forall P (filter g l).
Proof.
  rewrite !Forall_forall. intros H a Ha. apply filter_In in Ha. now apply H.
Qed.

(** The drift relation of the power-ups through a frame. *)
Lemma advancePowerUp_driftOk dt p :
  0 <= dt -> driftOk p -> driftOk (advancePowerUp dt p).
Proof.
  intros Hdt [Hp Hc]. unfold driftOk, advancePowerUp. cbn. split.
  - rewrite Hp. ring.
  - intro E. specialize (Hc E). lra.
Qed.

Lemma generatePowerUp_driftOk d : driftOk (generatePowerUp d).
Proof.
  unfold driftOk, generatePowerUp. cbn. split; [reflexivity | discriminate].
Qed.

Lemma inPickupRange_left_of_130 ball p :
  x ball = 100 -> inPickupRange ball p = true -> x (PowerUp.position p) < 130.
Proof.
  intros Hx H. unfold inPickupRange in H. apply Qltb_lt in H.
  rewrite Hx in H. unfold POWERUP_COLLECTION_RADIUS_SQUARED in H.
  set (px := x (PowerUp.position p)) in *.
  set (d := y ball - y (PowerUp.position p)) in *.
  clearbody px d.
  assert (Hd : 0 <= d * d) by nra.
  nra.
Qed.

Lemma frame_driftOk r timestamp dt s :
  0 <= dt -> x (ballPos s) = 100 ->
  Forall driftOk (powerUps s) ->
  Forall driftOk (fst (pickups Math_sin r timestamp dt s)).
Proof.
  intros Hdt Hx H. unfold pickups.
  set (live := advancePowerUps dt (powerUps s) ++ spawnPowerUps r dt s).
  assert (Hlive : Forall driftOk live).
  { subst live. apply Forall_app. split.
    - unfold advancePowerUps. do 2 apply Forall_filter_keep.
      rewrite Forall_map. eapply Forall_impl; [|exact H].
      intros p Hp. now apply advancePowerUp_driftOk.
    - unfold spawnPowerUps. destruct (_ && _); constructor; [|constructor].
      apply generatePowerUp_driftOk. }
  unfold collectPowerUps. cbn [fst].
  match goal with |- context [fold_right ?f ?a live] =>
    destruct (collect_fold_spec timestamp (ballPos s) live (snd a)) as (I1 & _)
  end.
  cbn zeta in I1. cbn [snd] in I1.
  destruct (changed _); [|exact Hlive].
  apply Forall_filter_keep. rewrite I1, Forall_map.
  eapply Forall_impl; [|exact Hlive].
  intros p [Hp Hc]. destruct (picked (ballPos s) p) eqn:Ep; [|split; assumption].
  unfold picked in Ep. apply andb_true_iff in Ep as [_ Er].
  split; [exact Hp|]. intros _.
  now apply inPickupRange_left_of_130 with (ball := ballPos s).
Qed.

Lemma collect_shield_timer now ball pows e :
  (e_invulnerable e = true -> e_shieldTimer e <> None) ->
  e_invulnerable (snd (collectPowerUps now ball pows e)) = true ->
  e_shieldTimer (snd (collectPowerUps now ball pows e)) <> None.
Proof.
  intro H. unfold collectPowerUps; cbn [snd].
  apply (collect_fold_preserves
           (fun e' => e_invulnerable e' = true -> e_shieldTimer e' <> None));
    [|exact H].
  intros p e' He'. unfold applyPowerUp.
  destruct (PowerUp.type p); cbn; try exact He'. intros _. discriminate.
Qed.

Record Inv2 (s : RunState) : Prop := mkInv2 {
  inv_bally : BALL_RADIUS <= y (ballPos s) <= CANVAS_HEIGHT - BALL_RADIUS;
  inv_gravity : gravityDir s = 1 \/ gravityDir s = -1;
  inv_spawnMultiplier : 0.8 <= spawnMultiplier s <= 1.5;
  inv_score : (0 <= combo s <= score s)%Z;
  inv_threshold : (thresholdScore (level (currentLevelIndex s)) <= score s)%Z;
  inv_uncollected : (List.length (filter uncollected (powerUps s)) <= 2)%nat;
  inv_drift : Forall driftOk (powerUps s);
  inv_shield : invulnerable s = true -> shieldTimer s <> None;
  inv_eventType : isEventActive s = false -> activeEventType s = None
}.

Lemma Inv2_initial now : Inv2 (initialState now).
Proof.
  constructor; cbn; try lia; try reflexivity; try discriminate; auto.
  - split; discriminate.
  - split; discriminate.
Qed.

Lemma Qopp_pm1 (d : Q) : d = 1 \/ d = -1 -> - d = 1 \/ - d = -1.
Proof. intros [-> | ->]; [right | left]; reflexivity. Qed.

Lemma Inv2_gameLoop r timestamp s :
  Inv s -> Inv2 s -> Inv2 (fst (gameLoop Math_sin r timestamp s)).
Proof.
  intros Hi H. unfold gameLoop.
  destruct (gameState s) eqn:G; cbn [fst]; try exact H.
  destruct H as [Hy Hg Hm Hsc Hth Hun Hdr Hsh Hev].
  set (dt := effectiveDeltaRatio (prevTime s) timestamp).
  assert (Hdt : 0 <= dt).
  { pose proof (effectiveDeltaRatio_range (prevTime s) timestamp) as [Hlo _].
    fold dt in Hlo. lra. }
  pose proof (Math_round_frame (prevTime s) timestamp) as Hround. fold dt in Hround.
  destruct (collect_fold_spec timestamp (ballPos s)
    (advancePowerUps dt (powerUps s) ++ spawnPowerUps r dt s)
    {| e_invulnerable := invulnerable s; e_shieldTimer := shieldTimer s;
       e_obstacles := advanceObstacles Math_sin s dt (obstacles s)
                      ++ spawnObstacles r dt s;
       e_slowTimer := slowTimer s;
       e_score := (score s + Math_round (1 * dt))%Z;
       e_combo := (combo s + Math_round (1 * dt))%Z;
       e_log := []; changed := false |})
    as (_ & I2 & I3 & _).
  cbn zeta in I2, I3. cbn [e_score e_combo] in I2, I3.
  constructor;
    cbn [ballPos gravityDir spawnMultiplier combo score currentLevelIndex
         powerUps invulnerable shieldTimer isEventActive activeEventType x y].
  - apply integrate_position_range; assumption.
  - destruct (applyFlips_integrate s dt) as [-> | ->];
      [exact Hg | now apply Qopp_pm1].
  - exact Hm.
  - unfold pickups, collectPowerUps. cbn [snd]. rewrite I2, I3. lia.
  - unfold pickups, collectPowerUps. cbn [snd]. rewrite I2. lia.
  - now apply frame_uncollected.
  - apply frame_driftOk; [exact Hdt | apply (inv_ballx _ Hi) | exact Hdr].
  - unfold pickups. now apply collect_shield_timer.
  - unfold eventPhase.
    destruct (negb (isEventActive s) && _); [|exact Hev].
    unfold triggerRandomEvent. destruct (isEventActive s) eqn:Ea.
    + rewrite Ea. discriminate.
    + cbn. discriminate.
Qed.

Lemma Inv2_toggleGravity s : Inv2 s -> Inv2 (fst (toggleGravity s)).
Proof.
  intro H. unfold toggleGravity.
  destruct (gameState s) eqn:G; cbn [fst]; try exact H.
  destruct H as [Hy Hg Hm Hsc Hth Hun Hdr Hsh Hev].
  constructor; try assumption. cbn. now apply Qopp_pm1.
Qed.

Lemma Inv2_startGame r now s : Inv2 s -> Inv2 (startGame r now s).
Proof.
  intros [Hy Hg Hm Hsc Hth Hun Hdr Hsh Hev].
  constructor; cbn; try lia; try reflexivity; try discriminate; auto.
  - split; discriminate.
  - split; discriminate.
Qed.

Lemma Inv2_levelEffect s : Inv2 s -> Inv2 (fst (levelEffect s)).
Proof.
  intro H. unfold levelEffect.
  destruct ((S (currentLevelIndex s) <? List.length LEVELS)%nat
            && (thresholdScore (level (S (currentLevelIndex s))) <=? score s)%Z)
    eqn:E; cbn [fst]; [|exact H].
  destruct H as [Hy Hg Hm Hsc Hth Hun Hdr Hsh Hev].
  apply andb_true_iff in E as [_ E]. apply Z.leb_le in E.
  constructor; try assumption.
Qed.

Lemma Inv2_spawnRateEffect now s : Inv2 s -> Inv2 (spawnRateEffect now s).
Proof.
  intro H. unfold spawnRateEffect.
  destruct (Qle_bool 2 _); [|exact H].
  destruct H as [Hy Hg Hm Hsc Hth Hun Hdr Hsh Hev].
  constructor; try assumption.
  cbn [spawnMultiplier].
  destruct (Qltb 15 _); [|destruct (Qltb _ 5)]; [| |exact Hm].
  - destruct (Math_min_spec 1.5 (spawnMultiplier s + 0.05)) as [[H1 ->] | [H1 ->]];
      split; lra.
  - destruct (Math_max_spec 0.8 (spawnMultiplier s - 0.05)) as [[H1 ->] | [H1 ->]];
      split; lra.
Qed.

Lemma Inv2_runTimers now s : Inv2 s -> Inv2 (runTimers now s).
Proof.
  intros [Hy Hg Hm Hsc Hth Hun Hdr Hsh Hev].
  constructor; cbn; try assumption.
  - destruct (dueOpt now (shieldTimer s)); [discriminate | exact Hsh].
  - destruct (existsb (due now) (eventTimers s)); [reflexivity | exact Hev].
Qed.

Lemma Inv2_setSpeedMultiplier v s : Inv2 s -> Inv2 (setSpeedMultiplier v s).
Proof.
  intro H. unfold setSpeedMultiplier.
  destruct (gameState s); try exact H.
  destruct (Qle_bool 0.8 v && Qle_bool v 1.5); [|exact H].
  destruct H as [Hy Hg Hm Hsc Hth Hun Hdr Hsh Hev]. constructor; assumption.
Qed.

Lemma Inv2_setBeatActive b s : Inv2 s -> Inv2 (setBeatActive b s).
Proof.
  intros [Hy Hg Hm Hsc Hth Hun Hdr Hsh Hev]. constructor; assumption.
Qed.

Lemma Inv2_step a s :
  Inv s -> Inv2 s -> Inv2 (fst (step Math_sin a s)).
Proof.
  intros Hi H. destruct a; cbn [step fst].
  - now apply Inv2_gameLoop.
  - unfold handleGameAction. destruct (gameState s);
      [apply Inv2_startGame | apply Inv2_toggleGravity | apply Inv2_startGame];
      exact H.
  - now apply Inv2_levelEffect.
  - now apply Inv2_spawnRateEffect.
  - now apply Inv2_runTimers.
  - now apply Inv2_setSpeedMultiplier.
  - now apply Inv2_setBeatActive.
Qed.

Lemma Inv2_run acts : forall s,
  Inv s -> Inv2 s -> Inv2 (fst (run Math_sin acts s)).
Proof.
  induction acts as [|a acts IH]; intros s Hi H; [exact H|].
  rewrite run_cons. apply IH; [now apply Inv_step | now apply Inv2_step].
Qed.

Lemma Inv2_reachable s : reachable Math_sin s -> Inv2 s.
Proof.
  intros (now & acts & ->). apply Inv2_run; [apply Inv_initial | apply Inv2_initial].
Qed.

(** ** The ball, the gravity and the adaptive spawn rate *)

(** X1. The ball never leaves the canvas: on every state a mounted component
    reaches, its centre is at [x = 100] and at least one radius away from
    the top and from the bottom. *)
Theorem ball_stays_in_canvas (s : RunState) :
  reachable Math_sin s ->
  x (ballPos s) = 100
  /\ BALL_RADIUS <= y (ballPos s) <= CANVAS_HEIGHT - BALL_RADIUS.
Proof.
  intro H. split.
  - apply (inv_ballx _ (Inv_reachable Math_sin s H)).
  - apply (inv_bally _ (Inv2_reachable s H)).
Qed.

(** X2. The gravity direction is always [1] or [-1]. *)
Theorem gravity_is_a_sign (s : RunState) :
  reachable Math_sin s -> gravityDir s = 1 \/ gravityDir s = -1.
Proof. intro H. apply (inv_gravity _ (Inv2_reachable s H)). Qed.

(** X3. The adaptive spawn multiplier never leaves [[0.8, 1.5]], whatever the
    scoring pace and however often the effect runs. *)
Theorem spawn_multiplier_bounded (s : RunState) :
  reachable Math_sin s -> 0.8 <= spawnMultiplier s <= 1.5.
Proof. intro H. apply (inv_spawnMultiplier _ (Inv2_reachable s H)). Qed.

(** ** Score *)

Lemma step_score_le a s :
  match a with
  | Press _ _ => GameState_eqb (gameState s) playing
  | _ => true
  end = true ->
  (score s <= score (fst (step Math_sin a s)))%Z
  /\ (combo s <= combo (fst (step Math_sin a s)))%Z.
Proof.
  destruct a; cbn [step fst]; intro H.
  - unfold gameLoop. destruct (gameState s); cbn [fst]; try lia.
    set (dt := effectiveDeltaRatio (prevTime s) timestamp).
    pose proof (Math_round_frame (prevTime s) timestamp) as Hround.
    fold dt in Hround.
    destruct (collect_fold_spec timestamp (ballPos s)
      (advancePowerUps dt (powerUps s) ++ spawnPowerUps r dt s)
      {| e_invulnerable := invulnerable s; e_shieldTimer := shieldTimer s;
         e_obstacles := advanceObstacles Math_sin s dt (obstacles s)
                        ++ spawnObstacles r dt s;
         e_slowTimer := slowTimer s;
         e_score := (score s + Math_round (1 * dt))%Z;
         e_combo := (combo s + Math_round (1 * dt))%Z;
         e_log := []; changed := false |})
      as (_ & I2 & I3 & _).
    cbn zeta in I2, I3. cbn [e_score e_combo] in I2, I3.
    cbn [score combo]. unfold pickups, collectPowerUps. cbn [snd].
    rewrite I2, I3. lia.
  - unfold handleGameAction, toggleGravity.
    destruct (gameState s); cbn in H |- *; try discriminate; lia.
  - unfold levelEffect. destruct (_ && _); cbn; lia.
  - unfold spawnRateEffect. destruct (Qle_bool 2 _); cbn; lia.
  - cbn. lia.
  - unfold setSpeedMultiplier. destruct (gameState s); cbn; try lia.
    destruct (Qle_bool 0.8 v && Qle_bool v 1.5); cbn; lia.
  - cbn. lia.
Qed.

(** X4. Within a run neither the score nor the combo ever decreases. *)
Theorem score_never_decreases (acts : list Action) (s : RunState) :
  sameRun Math_sin acts s = true ->
  (score s <= score (fst (run Math_sin acts s)))%Z
  /\ (combo s <= combo (fst (run Math_sin acts s)))%Z.
Proof.
  revert s. induction acts as [|a acts IH]; intros s H; [cbn; lia|].
  cbn [sameRun] in H. apply andb_true_iff in H as [Ha Hrest].
  rewrite run_cons. pose proof (step_score_le a s Ha).
  specialize (IH _ Hrest). lia.
Qed.

(** X5. The combo is between zero and the score, and the level is never ahead
    of the score: the score has reached the threshold of the current level. *)
Theorem level_not_ahead_of_score (s : RunState) :
  reachable Math_sin s ->
  (0 <= combo s <= score s)%Z
  /\ (thresholdScore (level (currentLevelIndex s)) <= score s)%Z.
Proof.
  intro H. pose proof (Inv2_reachable s H) as Hi. split.
  - apply (inv_score _ Hi).
  - apply (inv_threshold _ Hi).
Qed.

(** ** Power-ups *)

(** X8. At most two uncollected power-ups are live at any time. *)
Theorem at_most_two_uncollected (s : RunState) :
  reachable Math_sin s ->
  (List.length (filter (fun p => negb (PowerUp.collected p)) (powerUps s)) <= 2)%nat.
Proof. intro H. apply (inv_uncollected _ (Inv2_reachable s H)). Qed.

Lemma Math_PI_lt_4 : Math_PI < 4.
Proof. reflexivity. Qed.

Lemma collected_pulse s p :
  reachable Math_sin s -> In p (powerUps s) -> PowerUp.collected p = true ->
  18.6 < PowerUp.pulse p.
Proof.
  intros H Hin Hc. pose proof (inv_drift _ (Inv2_reachable s H)) as Hd.
  rewrite Forall_forall in Hd. destruct (Hd p Hin) as [Hp Hx].
  specialize (Hx Hc). rewrite Hp. lra.
Qed.

(** X9. A collected power-up has no fade-out: its pulse has drifted past the
    window before it can reach the ball, so it is never drawn and the next
    frame removes it; what a frame's drift keeps is uncollected. *)
Theorem collected_power_up_vanishes (s : RunState) (dt : Q) :
  reachable Math_sin s ->
  0 <= dt ->
  (forall p, In p (powerUps s) -> PowerUp.collected p = true -> drawn p = false)
  /\ Forall (fun p => PowerUp.collected p = false)
            (advancePowerUps dt (powerUps s)).
Proof.
  intros H Hdt. pose proof Math_PI_lt_4 as Hpi. split.
  - intros p Hin Hc. pose proof (collected_pulse s p H Hin Hc) as Hp.
    unfold drawn. rewrite Hc. cbn [negb orb]. apply Qltb_ge. lra.
  - apply Forall_forall. intros p' Hin.
    unfold advancePowerUps in Hin.
    apply filter_In in Hin as [Hin Hf]. apply filter_In in Hin as [Hin _].
    apply in_map_iff in Hin as (p & <- & Hin).
    destruct (PowerUp.collected (advancePowerUp dt p)) eqn:Hc; [|reflexivity].
    exfalso. cbn [negb orb] in Hf. apply Qltb_lt in Hf.
    cbn [advancePowerUp PowerUp.collected PowerUp.pulse] in Hc, Hf.
    pose proof (collected_pulse s p H Hin Hc) as Hp. lra.
Qed.

(** ** Shield and event flags *)

(** X10. A shielded ball always has a pending shield timer, and running the
    timers from its due time on ends the invulnerability. *)
Theorem shield_always_expires (s : RunState) :
  reachable Math_sin s ->
  invulnerable s = true ->
  exists d,
    shieldTimer s = Some d
    /\ forall now, d <= now ->
         invulnerable (runTimers now s) = false
         /\ shieldTimer (runTimers now s) = None.
Proof.
  intros H Hinv. pose proof (inv_shield _ (Inv2_reachable s H) Hinv) as Ht.
  destruct (shieldTimer s) as [d|] eqn:E; [|now elim Ht].
  exists d. split; [reflexivity|]. intros now Hd. cbn. rewrite E. cbn.
  unfold due. apply Qle_bool_iff in Hd. rewrite Hd. split; reflexivity.
Qed.

(** X11. The two event flags never disagree: without an active event no kind is
    stored, so the storm factor is decided by the stored kind alone. *)
Theorem event_flags_agree (s : RunState) :
  reachable Math_sin s ->
  (isEventActive s = false -> activeEventType s = None)
  /\ stormFactor s
     = match activeEventType s with Some storm => 1.2 | _ => 1 end.
Proof.
  intro H. pose proof (inv_eventType _ (Inv2_reachable s H)) as He.
  split; [exact He|]. unfold stormFactor.
  destruct (isEventActive s); [cbn [andb]|].
  - destruct (activeEventType s) as [[| |]|]; reflexivity.
  - rewrite (He eq_refl). reflexivity.
Qed.

(** ** Collision test *)

Lemma sq_nonneg (a : Q) : 0 <= a * a.
Proof. nra. Qed.

Lemma sq_grows_away (b near far : Q) :
  (b <= near <= far \/ far <= near <= b) ->
  (b - near) * (b - near) <= (b - far) * (b - far).
Proof.
  intros [[H1 H2] | [H1 H2]].
  - assert (0 <= (far - near) * (near - b)) by (apply Qmult_le_0_compat; lra).
    pose proof (sq_nonneg (far - near)). nra.
  - assert (0 <= (near - far) * (b - near)) by (apply Qmult_le_0_compat; lra).
    pose proof (sq_nonneg (near - far)). nra.
Qed.

Lemma sq_beyond_radius (b p : Q) :
  b + 12 < p \/ p < b - 12 -> 144 < (b - p) * (b - p).
Proof.
  intros [H | H].
  - assert (0 < (p - b - 12) * (p - b + 12)) by (apply Qmult_lt_0_compat; lra).
    nra.
  - assert (0 < (b - p - 12) * (b - p + 12)) by (apply Qmult_lt_0_compat; lra).
    nra.
Qed.

(** The clamp of [b] into [[lo, hi]] lies in the interval and is its point
    nearest to [b]. *)
Lemma clamp_nearest (lo hi b : Q) :
  lo <= hi ->
  lo <= Math_max lo (Math_min b hi) <= hi
  /\ forall p, lo <= p <= hi ->
       (b - Math_max lo (Math_min b hi)) * (b - Math_max lo (Math_min b hi))
       <= (b - p) * (b - p).
Proof.
  intro Hle.
  destruct (Math_min_spec b hi) as [[H1 ->] | [H1 ->]].
  - destruct (Math_max_spec lo b) as [[H2 ->] | [H2 ->]].
    + split; [split; lra|]. intros p _.
      pose proof (sq_nonneg (b - p)). nra.
    + split; [split; lra|]. intros p [Hp1 Hp2].
      apply sq_grows_away. left. split; lra.
  - destruct (Math_max_spec lo hi) as [[H2 ->] | [H2 ->]].
    + split; [split; lra|]. intros p [Hp1 Hp2].
      apply sq_grows_away. right. split; lra.
    + lra.
Qed.

(** X12. The collision test is exact: it answers [true] precisely when some
    point of the obstacle's box lies strictly inside the ball. *)
Theorem overlaps_iff_box_meets_ball (ball : Position) (obs : Obstacle.t) :
  0 <= Obstacle.width obs ->
  0 <= Obstacle.height obs ->
  (overlaps ball obs = true
   <-> exists px py,
         (x (Obstacle.position obs) - Obstacle.width obs / 2 <= px
          <= x (Obstacle.position obs) + Obstacle.width obs / 2)
         /\ (y (Obstacle.position obs) - Obstacle.height obs / 2 <= py
             <= y (Obstacle.position obs) + Obstacle.height obs / 2)
         /\ (x ball - px) * (x ball - px) + (y ball - py) * (y ball - py)
            < BALL_RADIUS * BALL_RADIUS).
Proof.
  clear Math_sin. intros Hw Hh. unfold overlaps.
  set (bx := x ball). set (by_ := y ball).
  set (L := x (Obstacle.position obs) - Obstacle.width obs / 2).
  set (R := x (Obstacle.position obs) + Obstacle.width obs / 2).
  set (T := y (Obstacle.position obs) - Obstacle.height obs / 2).
  set (B := y (Obstacle.position obs) + Obstacle.height obs / 2).
  assert (HLR : L <= R).
  { subst L R. assert (0 <= Obstacle.width obs / 2)
      by (apply Qle_shift_div_l; [reflexivity | lra]). lra. }
  assert (HTB : T <= B).
  { subst T B. assert (0 <= Obstacle.height obs / 2)
      by (apply Qle_shift_div_l; [reflexivity | lra]). lra. }
  clearbody bx by_ L R T B.
  destruct (clamp_nearest L R bx HLR) as [HcX HnX].
  destruct (clamp_nearest T B by_ HTB) as [HcY HnY].
  set (cX := Math_max L (Math_min bx R)) in *.
  set (cY := Math_max T (Math_min by_ B)) in *.
  clearbody cX cY. unfold BALL_RADIUS.
  split.
  - destruct (Qltb (bx + 12) L || Qltb R (bx - 12)
              || Qltb (by_ + 12) T || Qltb B (by_ - 12)); [discriminate|].
    intro H. apply Qltb_lt in H. exists cX, cY. repeat split; try tauto.
  - intros (px & py & Hpx & Hpy & Hd).
    specialize (HnX px Hpx). specialize (HnY py Hpy).
    pose proof (sq_nonneg (bx - px)) as Sx.
    pose proof (sq_nonneg (by_ - py)) as Sy.
    assert (E1 : Qltb (bx + 12) L = false).
    { apply Qltb_ge. apply Qnot_lt_le. intro Hc.
      assert (Hb : 144 < (bx - px) * (bx - px))
        by (apply sq_beyond_radius; left; lra). lra. }
    assert (E2 : Qltb R (bx - 12) = false).
    { apply Qltb_ge. apply Qnot_lt_le. intro Hc.
      assert (Hb : 144 < (bx - px) * (bx - px))
        by (apply sq_beyond_radius; right; lra). lra. }
    assert (E3 : Qltb (by_ + 12) T = false).
    { apply Qltb_ge. apply Qnot_lt_le. intro Hc.
      assert (Hb : 144 < (by_ - py) * (by_ - py))
        by (apply sq_beyond_radius; left; lra). lra. }
    assert (E4 : Qltb B (by_ - 12) = false).
    { apply Qltb_ge. apply Qnot_lt_le. intro Hc.
      assert (Hb : 144 < (by_ - py) * (by_ - py))
        by (apply sq_beyond_radius; right; lra). lra. }
    rewrite E1, E2, E3, E4. cbn [orb]. apply Qltb_lt. lra.
Qed.

(** ** What a spawn produces *)

Lemma right_of_ball_no_overlap ball o :
  x ball = 100 ->
  335 <= x (Obstacle.position o) - Obstacle.width o / 2 ->
  overlaps ball o = false.
Proof.
  intros Hx Hl. unfold overlaps.
  assert (E : Qltb (x ball + BALL_RADIUS)
                   (x (Obstacle.position o) - Obstacle.width o / 2) = true).
  { apply Qltb_lt. rewrite Hx. unfold BALL_RADIUS. lra. }
  rewrite E. reflexivity.
Qed.

Lemma half_width_le_25 t : obstacleWidth t / 2 <= 25.
Proof. destruct t; cbn; discriminate. Qed.

Lemma generateSlot_left_edge s off d :
  -100 <= dx off ->
  335 <= x (Obstacle.position (generateSlot s off d))
         - Obstacle.width (generateSlot s off d) / 2.
Proof.
  intro Hdx. unfold generateSlot. cbn [Obstacle.position Obstacle.width x].
  match goal with |- context [obstacleWidth ?t] =>
    pose proof (half_width_le_25 t) as Hw; set (w := obstacleWidth t / 2) in *
  end.
  clearbody w. unfold CANVAS_WIDTH. lra.
Qed.

Lemma generateSlots_left_edge s draws offs : forall i,
  Forall (fun off => -100 <= dx off) offs ->
  Forall (fun o => 335 <= x (Obstacle.position o) - Obstacle.width o / 2)
         (generateSlots s i draws offs).
Proof.
  induction offs as [|off offs IH]; intros i H; cbn [generateSlots];
    [constructor|].
  inversion H as [|? ? Hoff Hrest]; subst.
  constructor; [now apply generateSlot_left_edge | now apply IH].
Qed.

Lemma generateObstacle_left_edge s d :
  335 <= x (Obstacle.position (generateObstacle s d))
         - Obstacle.width (generateObstacle s d) / 2.
Proof.
  unfold generateObstacle. cbn [Obstacle.position Obstacle.width x].
  match goal with |- context [obstacleWidth ?t] =>
    pose proof (half_width_le_25 t) as Hw; set (w := obstacleWidth t / 2) in *
  end.
  clearbody w. unfold CANVAS_WIDTH. lra.
Qed.

(** X13. No spawn can hit the ball: whatever the draws, every obstacle a frame
    appends, and the one a new game starts with, stands clear of a ball at
    [x = 100]. *)
Theorem spawn_never_on_the_ball (r : Rand) (dt : Q) (s : RunState)
    (ball : Position) :
  x ball = 100 ->
  Forall (fun o => overlaps ball o = false) (spawnObstacles r dt s)
  /\ overlaps ball (generateObstacle s (rObstacle r)) = false.
Proof.
  intro Hx. split.
  - unfold spawnObstacles. destruct (spawnGate r dt s); [|constructor].
    destruct (patternChosen r).
    + unfold generateObstaclePattern.
      eapply Forall_impl;
        [|apply generateSlots_left_edge, pattern_offsets_right].
      intros o Ho. now apply right_of_ball_no_overlap.
    + constructor; [|constructor].
      apply right_of_ball_no_overlap; [exact Hx|apply generateObstacle_left_edge].
  - apply right_of_ball_no_overlap; [exact Hx|apply generateObstacle_left_edge].
Qed.



(** ** Pickups happen once *)

Lemma countPicked_zero_iff ball ty l :
  (forall p, In p l -> picked ball p = false) -> countPicked ball ty l = 0%nat.
Proof.
  intro H. unfold countPicked. induction l as [|p l IH]; [reflexivity|].
  cbn [filter]. rewrite (H p (or_introl eq_refl)). cbn [andb].
  apply IH. intros q Hq. apply H. now right.
Qed.

Lemma collect_result_unpicked now ball pows e :
  forall p, In p (fst (collectPowerUps now ball pows e)) -> picked ball p = false.
Proof.
  intros p Hin. unfold collectPowerUps in Hin. cbn [fst] in Hin.
  destruct (collect_fold_spec now ball pows e) as (I1 & _ & _ & _ & _ & _ & I7).
  cbn zeta in I1, I7.
  destruct (changed (snd (fold_right (collectOne now ball) ([], e) pows))) eqn:Ec.
  - apply filter_In in Hin as [Hin _]. rewrite I1 in Hin.
    apply in_map_iff in Hin as (q & Hq & _).
    destruct (picked ball q) eqn:Eq; subst p; [reflexivity | exact Eq].
  - symmetry in I7. apply orb_false_iff in I7 as [I7 _].
    destruct (picked ball p) eqn:Ep; [|reflexivity].
    assert (existsb (picked ball) pows = true)
      by (apply existsb_exists; exists p; split; assumption).
    congruence.
Qed.

(** X15. A pickup is applied once: after a pass of [collectPowerUps] nothing is
    left to pick at that ball position, so a second pass leaves the
    power-ups, the score, the combo, the obstacles and the shield as they
    are. *)
Theorem pickup_applies_once (now now' : Q) (ball : Position)
    (pows : list PowerUp.t) (e e' : Effects) :
  changed e' = false ->
  let once := fst (collectPowerUps now ball pows e) in
  let again := collectPowerUps now' ball once e' in
  fst again = once
  /\ e_score (snd again) = e_score e'
  /\ e_combo (snd again) = e_combo e'
  /\ e_obstacles (snd again) = e_obstacles e'
  /\ e_invulnerable (snd again) = e_invulnerable e'
  /\ e_slowTimer (snd again) = e_slowTimer e'.
Proof.
  intros Hc once again. subst again.
  assert (Hun : forall p, In p once -> picked ball p = false)
    by (apply collect_result_unpicked).
  clearbody once.
  destruct (collect_fold_spec now' ball once e')
    as (_ & I2 & I3 & I4 & I5 & I6 & I7).
  cbn zeta in I2, I3, I4, I5, I6, I7.
  rewrite (countPicked_zero_iff ball magnet once Hun) in I2, I3.
  rewrite (countPicked_zero_iff ball slow once Hun) in I4, I5.
  rewrite (countPicked_zero_iff ball shield once Hun) in I6.
  assert (Hex : existsb (picked ball) once = false).
  { destruct (existsb (picked ball) once) eqn:E; [|reflexivity].
    apply existsb_exists in E as (p & Hin & Hp). rewrite (Hun p Hin) in Hp.
    discriminate. }
  rewrite Hex, Hc in I7. cbn in I4, I5, I6, I7.
  unfold collectPowerUps. cbn [fst snd].
  rewrite I7, I2, I3, I4, I5, I6.
  repeat split; lia.
Qed.

(** ** The game-state machine *)

Lemma step_not_menu a s :
  gameState s <> menu -> gameState (fst (step Math_sin a s)) <> menu.
Proof.
  intro H. destruct (gameState s) eqn:G; [now elim H | |];
    destruct a; cbn [step fst];
    unfold gameLoop, handleGameAction, toggleGravity, levelEffect,
      spawnRateEffect, setSpeedMultiplier; rewrite ?G;
    cbn [fst gameState startGame runTimers setBeatActive];
    repeat match goal with
           | |- context [if ?c then _ else _] => destruct c
           end;
    cbn [fst gameState]; rewrite ?G; discriminate.
Qed.

Lemma run_not_menu acts : forall s,
  gameState s <> menu -> gameState (fst (run Math_sin acts s)) <> menu.
Proof.
  induction acts as [|a acts IH]; intros s H; [exact H|].
  rewrite run_cons. apply IH. now apply step_not_menu.
Qed.

(** X16. The game-state machine.  A press always leaves the game running: it
    starts a run from the menu and from game over, and during a run it only
    flips gravity.  A frame outside a run changes nothing; a frame of a run
    ends it exactly when the ball is not shielded and an obstacle of the
    committed list overlaps the ball's new position, and otherwise the run
    goes on.  No other action changes the game state, and no run of actions
    leads back to the menu. *)
Theorem game_state_transitions (s : RunState) :
  (forall r now, gameState (fst (step Math_sin (Press r now) s)) = playing)
  /\ (forall r now,
        gameState s <> playing ->
        step Math_sin (Press r now) s = (startGame r now s, []))
  /\ (forall r timestamp,
        gameState s <> playing -> step Math_sin (Frame r timestamp) s = (s, []))
  /\ (forall r timestamp,
        gameState s = playing ->
        let s' := fst (step Math_sin (Frame r timestamp) s) in
        (gameState s' = gameOver
         <-> invulnerable s = false
             /\ exists obs,
                  In obs (obstacles s) /\ overlaps (ballPos s') obs = true)
        /\ (gameState s' = playing
            <-> invulnerable s = true
                \/ forall obs,
                     In obs (obstacles s) -> overlaps (ballPos s') obs = false))
  /\ gameState (fst (step Math_sin LevelEffect s)) = gameState s
  /\ (forall now,
        gameState (fst (step Math_sin (SpawnRateEffect now) s)) = gameState s)
  /\ (forall now, gameState (fst (step Math_sin (Timers now) s)) = gameState s)
  /\ (forall v, gameState (fst (step Math_sin (Slider v) s)) = gameState s)
  /\ (forall b, gameState (fst (step Math_sin (Beat b) s)) = gameState s)
  /\ (forall acts,
        gameState s <> menu -> gameState (fst (run Math_sin acts s)) <> menu).
Proof.
  split; [|split; [|split; [|split; [|split; [|split; [|split; [|split;
    [|split]]]]]]]].
  - intros r now. cbn [step]. unfold handleGameAction, toggleGravity.
    destruct (gameState s) eqn:G; cbn [fst gameState startGame];
      first [reflexivity | exact G].
  - intros r now G. cbn [step]. unfold handleGameAction.
    destruct (gameState s); try reflexivity. now elim G.
  - intros r timestamp G. cbn [step]. unfold gameLoop.
    destruct (gameState s); try reflexivity. now elim G.
  - intros r timestamp G. cbv zeta. cbn [step]. unfold gameLoop. rewrite G.
    cbn [fst gameState ballPos].
    set (pos := mkPosition (x (ballPos s)) _).
    assert (Hc : checkObstacleCollisions pos (obstacles s) (invulnerable s) = true
                 <-> invulnerable s = false
                     /\ exists obs, In obs (obstacles s) /\ overlaps pos obs = true).
    { unfold checkObstacleCollisions. rewrite existsb_exists. split.
      - intros (obs & Hin & Ho). apply andb_true_iff in Ho as [Ho Hi].
        apply negb_true_iff in Hi. split; [exact Hi|]. exists obs. now split.
      - intros (Hi & obs & Hin & Ho). exists obs. split; [exact Hin|].
        rewrite Ho, Hi. reflexivity. }
    destruct (checkObstacleCollisions pos (obstacles s) (invulnerable s)) eqn:E.
    + split.
      * split; [intros _; now apply Hc | reflexivity].
      * split; [discriminate|]. intros [Hi | Hall].
        -- destruct (proj1 Hc eq_refl) as [Hi' _]. congruence.
        -- destruct (proj1 Hc eq_refl) as (_ & obs & Hin & Ho).
           rewrite (Hall obs Hin) in Ho. discriminate.
    + split.
      * split; [discriminate|]. intro H. apply Hc in H. discriminate.
      * split; [|reflexivity]. intros _.
        destruct (invulnerable s) eqn:Ei; [now left|]. right.
        intros obs Hin. destruct (overlaps pos obs) eqn:Eo; [|reflexivity].
        assert (true = false); [|discriminate].
        rewrite <- (proj2 Hc); [reflexivity|].
        split; [reflexivity|]. exists obs. now split.
  - cbn [step]. unfold levelEffect. destruct (_ && _); reflexivity.
  - intro now. cbn [step]. unfold spawnRateEffect.
    destruct (Qle_bool 2 _); reflexivity.
  - reflexivity.
  - intro v. cbn [step]. unfold setSpeedMultiplier.
    destruct (gameState s) eqn:G; cbn [fst]; try exact G.
    destruct (_ && _); cbn [gameState]; first [reflexivity | exact G].
  - reflexivity.
  - intros acts. apply run_not_menu.
Qed.

(** ** Slow motion: what the single timer does *)

Lemma slowDown_iter_speeds n : forall l,
  map Obstacle.speed (Nat.iter n slowDown l)
  = map (fun v => Nat.iter n (fun w => w * SLOW_FACTOR) v) (map Obstacle.speed l).
Proof.
  induction n as [|n IH]; intro l; cbn [Nat.iter nat_rect].
  - rewrite map_map. reflexivity.
  - change (nat_rect _ l (fun _ => slowDown) n) with (Nat.iter n slowDown l).
    unfold slowDown at 1. rewrite map_map.
    change (map (fun o => Obstacle.speed (scaleSpeed (fun v => v * SLOW_FACTOR) o))
                (Nat.iter n slowDown l))
      with (map (fun o => Obstacle.speed o * SLOW_FACTOR) (Nat.iter n slowDown l)).
    rewrite <- (map_map Obstacle.speed (fun v => v * SLOW_FACTOR)).
    rewrite IH, !map_map. reflexivity.
Qed.

Lemma Forall2_Qeq_map (f g : Q -> Q) (l : list Q) :
  (forall v, f v == g v) -> Forall2 Qeq (map f l) (map g l).
Proof.
  intro H. induction l as [|v l IH]; cbn [map]; constructor; auto.
Qed.

(** X17. Slow pickups share one timer, so their restores do not add up: a
    frame that picks [n] slow power-ups multiplies every speed by [0.6] [n]
    times and arms one timer [3000] ms ahead, replacing any pending one; the
    expiry divides by [0.6] once and leaves no timer behind.  After two
    pickups in one frame the obstacles therefore keep [0.6] of their speed
    when the slow motion has expired. *)
Theorem slow_restores_once (r : Rand) (timestamp now : Q) (s : RunState) :
  gameState s = playing ->
  timestamp + 3000 <= now ->
  let dt := effectiveDeltaRatio (prevTime s) timestamp in
  let n := countPicked (ballPos s) slow
             (advancePowerUps dt (powerUps s) ++ spawnPowerUps r dt s) in
  let base := advanceObstacles Math_sin s dt (obstacles s)
              ++ spawnObstacles r dt s in
  let s1 := fst (gameLoop Math_sin r timestamp s) in
  (0 < n)%nat ->
  slowTimer s1 = Some (timestamp + 3000)
  /\ map Obstacle.speed (obstacles s1)
     = map (fun v => Nat.iter n (fun w => w * 0.6) v) (map Obstacle.speed base)
  /\ map Obstacle.speed (obstacles (runTimers now s1))
     = map (fun v => Nat.iter n (fun w => w * 0.6) v / 0.6)
           (map Obstacle.speed base)
  /\ slowTimer (runTimers now s1) = None
  /\ (n = 1%nat ->
      Forall2 Qeq (map Obstacle.speed (obstacles (runTimers now s1)))
              (map Obstacle.speed base))
  /\ (n = 2%nat ->
      Forall2 Qeq (map Obstacle.speed (obstacles (runTimers now s1)))
              (map (fun v => v * 0.6) (map Obstacle.speed base))).
Proof.
  intros G Hnow dt n base s1 Hn.
  destruct (frame_slow Math_sin r timestamp s G) as [Ho Ht].
  cbn zeta in Ho, Ht. fold dt in Ho, Ht. fold n in Ho, Ht. fold base in Ho.
  fold s1 in Ho, Ht.
  apply Nat.ltb_lt in Hn. rewrite Hn in Ht.
  assert (Hdue : dueOpt now (slowTimer s1) = true).
  { rewrite Ht. cbn. unfold due. now apply Qle_bool_iff. }
  assert (Hs1 : map Obstacle.speed (obstacles s1)
                = map (fun v => Nat.iter n (fun w => w * 0.6) v)
                      (map Obstacle.speed base)).
  { rewrite Ho. apply slowDown_iter_speeds. }
  assert (Hs2 : map Obstacle.speed (obstacles (runTimers now s1))
                = map (fun v => Nat.iter n (fun w => w * 0.6) v / 0.6)
                      (map Obstacle.speed base)).
  { cbn [runTimers obstacles]. rewrite Hdue. unfold slowRestore.
    rewrite map_map.
    change (map (fun o => Obstacle.speed (scaleSpeed (fun v => v / SLOW_FACTOR) o))
                (obstacles s1))
      with (map (fun o => Obstacle.speed o / 0.6) (obstacles s1)).
    rewrite <- (map_map Obstacle.speed (fun v => v / 0.6)).
    rewrite Hs1, !map_map. reflexivity. }
  split; [exact Ht|]. split; [exact Hs1|]. split; [exact Hs2|].
  split; [cbn [runTimers slowTimer]; now rewrite Hdue|].
  split; intros E; rewrite Hs2, E; cbn [Nat.iter nat_rect].
  - rewrite <- (map_id (map Obstacle.speed base)) at 2.
    apply Forall2_Qeq_map. intro v. field.
  - apply Forall2_Qeq_map. intro v. field.
Qed.

(** ** Particles *)

(** X19. The particle list is capped at 100 and drops its oldest entries first:
    a burst leaves [min 100 (old + count)] particles, which are the tail of
    the old ones followed by the new ones; a burst of at most 100 keeps all
    its new particles. *)
Theorem particles_capped_at_100 (position : Position) (count : nat)
    (color : string) (gravityEffect : bool) (draws : nat -> ParticleDraws)
    (prev : list Particle) :
  let news := map (fun i => newParticle position color gravityEffect (draws i))
                  (seq 0 count) in
  let result := createParticles position count color gravityEffect draws prev in
  List.length result = Nat.min 100 (List.length prev + count)
  /\ (exists dropped,
        prev ++ news = dropped ++ result
        /\ List.length dropped = (List.length prev + count - 100)%nat)
  /\ ((count <= 100)%nat ->
      exists kept, result = kept ++ news).
Proof.
  intros news result. subst result. unfold createParticles. fold news.
  assert (Hn : List.length news = count)
    by (subst news; now rewrite length_map, length_seq).
  split; [|split].
  - rewrite slice_last_length, length_app, Hn. reflexivity.
  - destruct (slice_last_suffix 100 (prev ++ news)) as (dropped & H1 & H2).
    exists dropped. split; [exact H1|]. rewrite H2, length_app, Hn. reflexivity.
  - intro Hc. unfold slice_last. rewrite length_app, Hn.
    exists (skipn (List.length prev + count - 100) prev).
    rewrite skipn_app.
    replace (List.length prev + count - 100 - List.length prev)%nat with 0%nat
      by lia.
    reflexivity.
Qed.

Lemma advanceParticles_alive dt parts :
  Forall (fun p => 0 < life p) (advanceParticles dt parts).
Proof.
  unfold advanceParticles. apply Forall_forall. intros p Hin.
  apply filter_In in Hin as [_ Hp]. now apply Qltb_lt.
Qed.

Lemma particlesAfter_alive dts : forall parts,
  Forall (fun p => 0 < life p) parts ->
  Forall (fun p => 0 < life p) (particlesAfter dts parts).
Proof.
  unfold particlesAfter.
  induction dts as [|dt dts IH]; intros parts H; cbn [fold_left]; [exact H|].
  apply IH, advanceParticles_alive.
Qed.

Lemma advanceParticles_life dt parts c :
  0.1 <= dt ->
  Forall (fun p => life p <= c) parts ->
  Forall (fun p => life p <= c - 0.002) (advanceParticles dt parts).
Proof.
  intros Hdt H. unfold advanceParticles. apply Forall_filter_keep.
  rewrite Forall_map. eapply Forall_impl; [|exact H].
  intros p Hp. cbn beta in Hp |- *. unfold advanceParticle. cbn [life]. lra.
Qed.

Lemma particlesAfter_life dts : forall parts c,
  Forall (fun dt => 0.1 <= dt) dts ->
  Forall (fun p => life p <= c) parts ->
  Forall (fun p => life p <= c - 0.002 * inject_Z (Z.of_nat (List.length dts)))
         (particlesAfter dts parts).
Proof.
  unfold particlesAfter.
  induction dts as [|dt dts IH]; intros parts c Hd H; cbn [fold_left].
  - eapply Forall_impl; [|exact H]. intros p Hp. cbn beta in Hp |- *.
    cbn [List.length Z.of_nat]. change (inject_Z 0) with 0. lra.
  - inversion Hd as [|? ? Hdt Hrest]; subst.
    specialize (IH (advanceParticles dt parts) (c - 0.002) Hrest
                   (advanceParticles_life dt parts c Hdt H)).
    eapply Forall_impl; [|exact IH]. intros p Hp. cbn beta in Hp |- *.
    cbn [List.length]. rewrite Nat2Z.inj_succ. unfold Z.succ.
    rewrite inject_Z_plus.
    set (n := inject_Z (Z.of_nat (List.length dts))) in *. clearbody n.
    change (inject_Z 1) with 1. lra.
Qed.

(** X20. Every particle dies: a particle is born with life 1, each frame takes
    at least [0.002] of it (the time ratio is at least 0.1), so no particle
    is left after 500 frames. *)
Theorem particles_gone_after_500_frames (dts : list Q) (parts : list Particle) :
  Forall (fun dt => 0.1 <= dt) dts ->
  Forall (fun p => life p <= 1) parts ->
  (500 <= List.length dts)%nat ->
  particlesAfter dts parts = [].
Proof.
  intros Hd Hl Hn.
  pose proof (particlesAfter_life dts parts 1 Hd Hl) as Hle.
  assert (Hpos : Forall (fun p => 0 < life p) (particlesAfter dts parts)).
  { destruct dts as [|dt dts]; [cbn in Hn; lia|].
    unfold particlesAfter. cbn [fold_left].
    apply particlesAfter_alive, advanceParticles_alive. }
  destruct (particlesAfter dts parts) as [|p rest]; [reflexivity|].
  exfalso. inversion Hle as [|? ? Hp _]; subst.
  inversion Hpos as [|? ? Hp' _]; subst.
  assert (Hk : 500 <= inject_Z (Z.of_nat (List.length dts))).
  { change 500 with (inject_Z 500). rewrite <- Zle_Qle. lia. }
  set (n := inject_Z (Z.of_nat (List.length dts))) in *. clearbody n. lra.
Qed.

(** ** Obstacles move left *)

Definition allSpeedsPositive (s : RunState) : Prop :=
  Forall (fun o => 0 < Obstacle.speed o) (obstacles s).

Lemma slowDown_positive l :
  Forall (fun o => 0 < Obstacle.speed o) l ->
  Forall (fun o => 0 < Obstacle.speed o) (slowDown l).
Proof.
  intro H. unfold slowDown. rewrite Forall_map.
  eapply Forall_impl; [|exact H]. intros o Ho. cbn beta in Ho |- *.
  cbn [scaleSpeed Obstacle.speed]. unfold SLOW_FACTOR. lra.
Qed.

Lemma slowRestore_positive l :
  Forall (fun o => 0 < Obstacle.speed o) l ->
  Forall (fun o => 0 < Obstacle.speed o) (slowRestore l).
Proof.
  intro H. unfold slowRestore. rewrite Forall_map.
  eapply Forall_impl; [|exact H]. intros o Ho. cbn beta in Ho |- *.
  cbn [scaleSpeed Obstacle.speed]. unfold SLOW_FACTOR.
  apply Qlt_shift_div_l; [reflexivity | lra].
Qed.

Lemma generateSlots_positive s draws offs : forall i,
  (0 <= score s)%Z -> (forall j, 0 <= dSpeed (draws j)) ->
  Forall (fun o => 0 < Obstacle.speed o) (generateSlots s i draws offs).
Proof.
  induction offs as [|off offs IH]; intros i Hs Hd; cbn [generateSlots];
    constructor; [|now apply IH].
  unfold generateSlot. cbn [Obstacle.speed]. now apply obstacleSpeed_pos.
Qed.

Lemma spawnObstacles_positive r dt s :
  (0 <= score s)%Z -> speedDrawsOk r ->
  Forall (fun o => 0 < Obstacle.speed o) (spawnObstacles r dt s).
Proof.
  intros Hs [Hd1 Hd2]. unfold spawnObstacles.
  destruct (spawnGate r dt s); [|constructor].
  destruct (patternChosen r).
  - unfold generateObstaclePattern. now apply generateSlots_positive.
  - constructor; [|constructor]. unfold generateObstacle. cbn [Obstacle.speed].
    now apply obstacleSpeed_pos.
Qed.

Lemma advanceObstacles_positive s dt l :
  Forall (fun o => 0 < Obstacle.speed o) l ->
  Forall (fun o => 0 < Obstacle.speed o) (advanceObstacles Math_sin s dt l).
Proof.
  intro H. unfold advanceObstacles. apply Forall_filter_keep.
  rewrite Forall_map. eapply Forall_impl; [|exact H].
  intros o Ho. exact Ho.
Qed.

Lemma speeds_step a s :
  (0 <= score s)%Z -> actionDrawsOk a ->
  allSpeedsPositive s -> allSpeedsPositive (fst (step Math_sin a s)).
Proof.
  unfold allSpeedsPositive. intros Hs Ha H. destruct a; cbn [step].
  - unfold gameLoop. destruct (gameState s); cbn [fst obstacles]; try exact H.
    unfold pickups, collectPowerUps. cbn [snd].
    apply (collect_fold_preserves
             (fun e' => Forall (fun o => 0 < Obstacle.speed o) (e_obstacles e'))).
    + intros p e' He'. unfold applyPowerUp.
      destruct (PowerUp.type p); cbn [e_obstacles]; try exact He'.
      now apply slowDown_positive.
    + cbn [e_obstacles]. apply Forall_app. split.
      * now apply advanceObstacles_positive.
      * now apply spawnObstacles_positive.
  - unfold handleGameAction, toggleGravity.
    destruct (gameState s); cbn [fst obstacles startGame]; try exact H.
    + constructor; [|constructor]. unfold generateObstacle. cbn [Obstacle.speed].
      apply obstacleSpeed_pos; [exact Hs | apply Ha].
    + constructor; [|constructor]. unfold generateObstacle. cbn [Obstacle.speed].
      apply obstacleSpeed_pos; [exact Hs | apply Ha].
  - unfold levelEffect. destruct (_ && _); exact H.
  - unfold spawnRateEffect. destruct (Qle_bool 2 _); exact H.
  - cbn [fst runTimers obstacles].
    destruct (dueOpt now (slowTimer s)); [now apply slowRestore_positive | exact H].
  - unfold setSpeedMultiplier. destruct (gameState s); try exact H.
    destruct (_ && _); exact H.
  - exact H.
Qed.

Lemma speeds_run acts : forall s,
  Inv s -> Inv2 s -> Forall actionDrawsOk acts ->
  allSpeedsPositive s -> allSpeedsPositive (fst (run Math_sin acts s)).
Proof.
  induction acts as [|a acts IH]; intros s Hi Hi2 Ha H; [exact H|].
  inversion Ha as [|? ? Ha1 Harest]; subst.
  rewrite run_cons. apply IH; try assumption.
  - now apply Inv_step.
  - now apply Inv2_step.
  - apply speeds_step; try assumption. pose proof (inv_score _ Hi2). lia.
Qed.

(** X21. Obstacles only ever move left: on a run whose speed jitters are not
    negative, every live obstacle has a positive speed, through slow-downs
    and restores, so every frame moves it strictly to the left. *)
Theorem obstacles_move_left (now : Q) (acts : list Action) :
  Forall actionDrawsOk acts ->
  Forall (fun o => 0 < Obstacle.speed o)
         (obstacles (fst (run Math_sin acts (initialState now))))
  /\ forall dt o,
       0 < dt ->
       In o (obstacles (fst (run Math_sin acts (initialState now)))) ->
       x (Obstacle.position
            (advanceObstacle Math_sin
               (fst (run Math_sin acts (initialState now))) dt o))
       < x (Obstacle.position o).
Proof.
  intro Ha.
  assert (H : allSpeedsPositive (fst (run Math_sin acts (initialState now)))).
  { apply speeds_run; try assumption.
    - apply Inv_initial.
    - apply Inv2_initial.
    - constructor. }
  split; [exact H|].
  intros dt o Hdt Hin. unfold allSpeedsPositive in H.
  rewrite Forall_forall in H. specialize (H o Hin).
  set (s := fst (run Math_sin acts (initialState now))).
  unfold advanceObstacle. cbn [Obstacle.position x].
  pose proof (stormFactor_pos s) as Hst. pose proof (beatFactor_pos s) as Hb.
  assert (Hprod : 0 < Obstacle.speed o * stormFactor s * beatFactor s * dt).
  { repeat apply Qmult_lt_0_compat; assumption. }
  lra.
Qed.

(** ** The level settles on the score table *)

Lemma settleLevel_quiet n : forall s,
  firesLevelUp s = false -> settleLevel n s = s.
Proof.
  induction n as [|n IH]; intros s H; [reflexivity|].
  cbn [settleLevel]. rewrite (levelEffect_quiet s H). cbn [fst]. now apply IH.
Qed.

Lemma levelEffect_score s : score (fst (levelEffect s)) = score s.
Proof. unfold levelEffect. destruct (_ && _); reflexivity. Qed.

Lemma settleLevel_rests n : forall s,
  (List.length LEVELS <= S (currentLevelIndex s) + n)%nat ->
  firesLevelUp (settleLevel n s) = false
  /\ score (settleLevel n s) = score s
  /\ (currentLevelIndex s <= currentLevelIndex (settleLevel n s))%nat.
Proof.
  induction n as [|n IH]; intros s H; cbn [settleLevel].
  - split; [|split; [reflexivity | lia]].
    destruct (firesLevelUp s) eqn:E; [|reflexivity].
    apply firesLevelUp_iff in E as [E _]. lia.
  - destruct (firesLevelUp s) eqn:E.
    + destruct (levelEffect_fired s E) as [Hl _].
      destruct (IH (fst (levelEffect s))) as (H1 & H2 & H3); [rewrite Hl; lia|].
      rewrite levelEffect_score in H2. rewrite Hl in H3.
      split; [exact H1|]. split; [exact H2 | lia].
    + rewrite (levelEffect_quiet s E). cbn [fst].
      rewrite (settleLevel_quiet n s E).
      split; [exact E|]. split; [reflexivity | lia].
Qed.

Lemma Inv2_settleLevel n : forall s, Inv2 s -> Inv2 (settleLevel n s).
Proof.
  induction n as [|n IH]; intros s H; [exact H|].
  cbn [settleLevel]. apply IH, Inv2_levelEffect, H.
Qed.

(** X6. After at most four runs the level effect rests, and the level is then
    the one the table assigns to the score: the highest whose threshold the
    score has reached. *)
Theorem level_settles_on_score_table (s : RunState) :
  reachable Math_sin s ->
  firesLevelUp (settleLevel 4 s) = false
  /\ score (settleLevel 4 s) = score s
  /\ (thresholdScore (level (currentLevelIndex (settleLevel 4 s))) <= score s)%Z
  /\ ((S (currentLevelIndex (settleLevel 4 s)) < List.length LEVELS)%nat ->
      (score s < thresholdScore (level (S (currentLevelIndex (settleLevel 4 s)))))%Z).
Proof.
  intro H.
  destruct (settleLevel_rests 4 s) as (H1 & H2 & _); [cbn; lia|].
  pose proof (inv_threshold _ (Inv2_settleLevel 4 s (Inv2_reachable s H))) as Ht.
  rewrite H2 in Ht.
  split; [exact H1|]. split; [exact H2|]. split; [exact Ht|].
  intro Hn. apply Z.lt_nge. intro Hle.
  assert (E : firesLevelUp (settleLevel 4 s) = true).
  { apply firesLevelUp_iff. split; [exact Hn|]. now rewrite H2. }
  congruence.
Qed.

(** X7. The level lookup never misses: on every reachable state the level
    index is below [LEVELS.length], so [LEVELS[currentLevelIndexRef.current]]
    is an entry of the table. *)
Theorem level_lookup_defined (s : RunState) :
  reachable Math_sin s ->
  (currentLevelIndex s < List.length LEVELS)%nat
  /\ nth_error LEVELS (currentLevelIndex s) = Some (level (currentLevelIndex s)).
Proof.
  intro H. pose proof (inv_level _ (Inv_reachable Math_sin s H)) as Hl.
  split; [exact Hl|]. unfold level. now apply nth_error_nth'.
Qed.

(** ** The time ratio *)

(** X22. The time ratio of a frame saturates: with a previous frame time, a gap
    of at most a tenth of the reference interval (also a clock that went
    backwards) counts as [0.1], a gap of two intervals or more counts as
    [2], and in between the ratio is the gap over the reference interval;
    without a previous frame time the ratio is one. *)
Theorem time_ratio_saturates (p timestamp : Q) :
  ~ p == 0 ->
  (timestamp - p <= 1.666 -> effectiveDeltaRatio (Some p) timestamp == 0.1)
  /\ (33.32 <= timestamp - p -> effectiveDeltaRatio (Some p) timestamp == 2)
  /\ (1.666 <= timestamp - p <= 33.32 ->
      effectiveDeltaRatio (Some p) timestamp == (timestamp - p) / 16.66)
  /\ effectiveDeltaRatio None timestamp == 1.
Proof.
  intro Hp. unfold effectiveDeltaRatio.
  assert (E : Qeq_bool p 0 = false).
  { destruct (Qeq_bool p 0) eqn:E; [|reflexivity].
    apply Qeq_bool_iff in E. now elim Hp. }
  rewrite E.
  assert (Hdiv : (timestamp - p) / 16.66 == (timestamp - p) * (100 # 1666))
    by (unfold Qdiv; reflexivity).
  set (d := (timestamp - p) / 16.66) in *. clearbody d.
  split; [|split; [|split]]; try intro H;
    try (destruct (Math_max_spec 0.1 d) as [[H1 E1] | [H1 E1]]; rewrite E1;
         [ destruct (Math_min_spec 2 d) as [[H2 E2] | [H2 E2]]
         | destruct (Math_min_spec 2 0.1) as [[H2 E2] | [H2 E2]] ];
         rewrite E2; lra).
  vm_compute. reflexivity.
Qed.

End Further.

(** * Closed instances of the further properties *)

(** ** A run that picks up a shield *)

Definition shieldDraws : PowerUpDraws := mkPowerUpDraws 0.1 (12 # 450) "pow-sh".

Definition lowObstacle : ObstacleDraws :=
  mkObstacleDraws 0 0 0.99 0 "obs-low" "hsl(0, 75%, 65%)".

Definition startLow : Rand :=
  mkRand 0.99 0 0.99 0.99 0 lowObstacle (fun _ => lowObstacle)
         0.99 samplePowerUp.

Definition spawnShield : Rand :=
  mkRand 0.99 0 0.99 0.99 0 sampleObstacle (fun _ => sampleObstacle)
         0 shieldDraws.

(** [n] frames, two reference intervals apart, numbered from [from]. *)
Definition framesAt (r : Rand) (from n : nat) : list Action :=
  map (fun k => Frame r (inject_Z (Z.of_nat k) * 33.32)) (seq from n).

(** Start a game, spawn a shield power-up in the first frame, then let it
    drift to the ball: the 65th frame after the spawn picks it up. *)
Definition shieldRun : list Action :=
  [Press startLow 0; Frame spawnShield 33.32] ++ framesAt quiet 2 65.

Definition shieldedReached : RunState :=
  fst (run flat_sin shieldRun (initialState 0)).

Lemma shieldedReached_reachable : reachable flat_sin shieldedReached.
Proof. exists 0, shieldRun. reflexivity. Defined.

Example shieldedReached_facts :
  gameState shieldedReached = playing
  /\ invulnerable shieldedReached = true
  /\ map PowerUp.collected (powerUps shieldedReached) = [true]
  /\ shieldTimer shieldedReached = Some (inject_Z 66 * 33.32 + SHIELD_DURATION).
Proof. vm_compute. repeat split. Qed.

(** ** Ball, gravity, spawn rate *)

Lemma ball_in_canvas_instance :
  reachable flat_sin shieldedReached
  /\ x (ballPos shieldedReached) = 100
  /\ BALL_RADIUS <= y (ballPos shieldedReached) <= CANVAS_HEIGHT - BALL_RADIUS.
Proof.
  split; [exact shieldedReached_reachable|].
  exact (ball_stays_in_canvas flat_sin shieldedReached shieldedReached_reachable).
Defined.

Lemma gravity_sign_instance :
  reachable flat_sin shieldedReached
  /\ (gravityDir shieldedReached = 1 \/ gravityDir shieldedReached = -1).
Proof.
  split; [exact shieldedReached_reachable|].
  exact (gravity_is_a_sign flat_sin shieldedReached shieldedReached_reachable).
Defined.

(** Five seconds without a point: the effect lowers the multiplier. *)
Definition slowPaceState : RunState :=
  fst (run flat_sin [Press quiet 0; SpawnRateEffect 5000] (initialState 0)).

Lemma slowPaceState_reachable : reachable flat_sin slowPaceState.
Proof. exists 0, [Press quiet 0; SpawnRateEffect 5000]. reflexivity. Defined.

Lemma spawn_multiplier_instance :
  reachable flat_sin slowPaceState
  /\ spawnMultiplier slowPaceState == 0.95
  /\ 0.8 <= spawnMultiplier slowPaceState <= 1.5.
Proof.
  split; [exact slowPaceState_reachable|]. split; [vm_compute; reflexivity|].
  exact (spawn_multiplier_bounded flat_sin slowPaceState slowPaceState_reachable).
Defined.

(** ** Score and level *)

Lemma score_monotone_instance :
  sameRun flat_sin ladderRun thresholdState = true
  /\ (score thresholdState <= score (fst (run flat_sin ladderRun thresholdState)))%Z
  /\ (combo thresholdState <= combo (fst (run flat_sin ladderRun thresholdState)))%Z.
Proof.
  assert (E : sameRun flat_sin ladderRun thresholdState = true)
    by (vm_compute; reflexivity).
  split; [exact E|].
  exact (score_never_decreases flat_sin ladderRun thresholdState E).
Defined.

Lemma level_behind_score_instance :
  reachable flat_sin shieldedReached
  /\ (0 <= combo shieldedReached <= score shieldedReached)%Z
  /\ (thresholdScore (level (currentLevelIndex shieldedReached))
      <= score shieldedReached)%Z.
Proof.
  split; [exact shieldedReached_reachable|].
  exact (level_not_ahead_of_score flat_sin shieldedReached
           shieldedReached_reachable).
Defined.

Lemma level_settles_instance :
  reachable flat_sin shieldedReached
  /\ firesLevelUp (settleLevel 4 shieldedReached) = false
  /\ currentLevelIndex (settleLevel 4 shieldedReached) = 0%nat.
Proof.
  destruct (level_settles_on_score_table flat_sin shieldedReached
              shieldedReached_reachable) as (H & _).
  split; [exact shieldedReached_reachable|]. split; [exact H|].
  vm_compute. reflexivity.
Defined.

(** ** Power-ups, shield, event flags *)

Lemma two_uncollected_instance :
  reachable flat_sin shieldedReached
  /\ (List.length (filter (fun p => negb (PowerUp.collected p))
                          (powerUps shieldedReached)) <= 2)%nat.
Proof.
  split; [exact shieldedReached_reachable|].
  exact (at_most_two_uncollected flat_sin shieldedReached
           shieldedReached_reachable).
Defined.

Lemma collected_vanishes_instance :
  reachable flat_sin shieldedReached
  /\ 0 <= 1
  /\ map PowerUp.collected (powerUps shieldedReached) = [true]
  /\ map drawn (powerUps shieldedReached) = [false]
  /\ Forall (fun p => PowerUp.collected p = false)
            (advancePowerUps 1 (powerUps shieldedReached)).
Proof.
  assert (H01 : 0 <= 1) by discriminate.
  destruct (collected_power_up_vanishes flat_sin shieldedReached 1
              shieldedReached_reachable H01) as [_ H].
  split; [exact shieldedReached_reachable|]. split; [exact H01|].
  split; [vm_compute; reflexivity|]. split; [vm_compute; reflexivity|].
  exact H.
Defined.

Lemma shield_expires_instance :
  reachable flat_sin shieldedReached
  /\ invulnerable shieldedReached = true
  /\ exists d,
       shieldTimer shieldedReached = Some d
       /\ forall now, d <= now ->
            invulnerable (runTimers now shieldedReached) = false
            /\ shieldTimer (runTimers now shieldedReached) = None.
Proof.
  assert (E : invulnerable shieldedReached = true) by (vm_compute; reflexivity).
  split; [exact shieldedReached_reachable|]. split; [exact E|].
  exact (shield_always_expires flat_sin shieldedReached
           shieldedReached_reachable E).
Defined.

Lemma event_flags_instance :
  reachable flat_sin eventState
  /\ activeEventType eventState = Some storm
  /\ stormFactor eventState
     = match activeEventType eventState with Some storm => 1.2 | _ => 1 end.
Proof.
  destruct (event_flags_agree flat_sin eventState eventState_reachable)
    as [_ H].
  split; [exact eventState_reachable|]. split; [vm_compute; reflexivity|].
  exact H.
Defined.

(** ** Collision test and spawns *)

Lemma overlap_geometry_instance :
  0 <= Obstacle.width hitObstacle
  /\ 0 <= Obstacle.height hitObstacle
  /\ overlaps (mkPosition 100 300) hitObstacle = true
  /\ exists px py,
       (x (Obstacle.position hitObstacle) - Obstacle.width hitObstacle / 2 <= px
        <= x (Obstacle.position hitObstacle) + Obstacle.width hitObstacle / 2)
       /\ (y (Obstacle.position hitObstacle) - Obstacle.height hitObstacle / 2 <= py
           <= y (Obstacle.position hitObstacle) + Obstacle.height hitObstacle / 2)
       /\ (x (mkPosition 100 300) - px) * (x (mkPosition 100 300) - px)
          + (y (mkPosition 100 300) - py) * (y (mkPosition 100 300) - py)
          < BALL_RADIUS * BALL_RADIUS.
Proof.
  assert (Hw : 0 <= Obstacle.width hitObstacle) by discriminate.
  assert (Hh : 0 <= Obstacle.height hitObstacle) by discriminate.
  assert (E : overlaps (mkPosition 100 300) hitObstacle = true)
    by (vm_compute; reflexivity).
  split; [exact Hw|]. split; [exact Hh|]. split; [exact E|].
  exact (proj1 (overlaps_iff_box_meets_ball (mkPosition 100 300) hitObstacle
                  Hw Hh) E).
Defined.

Lemma spawn_clear_instance :
  x (mkPosition 100 300) = 100
  /\ List.length (spawnObstacles spawnPattern 1 capState) = 3%nat
  /\ Forall (fun o => overlaps (mkPosition 100 300) o = false)
            (spawnObstacles spawnPattern 1 capState).
Proof.
  destruct (spawn_never_on_the_ball spawnPattern 1 capState (mkPosition 100 300)
              eq_refl) as [H _].
  split; [reflexivity|]. split; [vm_compute; reflexivity | exact H].
Defined.


(** ** Game-state machine *)

(** The state the exposed frame ends in: game over. *)
Definition overState : RunState :=
  fst (gameLoop flat_sin quiet 1016.66 exposedState).

Lemma game_state_instance :
  (gameState (initialState 0) = menu
   /\ gameState (fst (step flat_sin (Press quiet 0) (initialState 0))) = playing
   /\ step flat_sin (Frame quiet 16.66) (initialState 0) = (initialState 0, []))
  /\ (gameState exposedState = playing
      /\ invulnerable exposedState = false
      /\ overlaps (ballPos overState) hitObstacle = true
      /\ gameState overState = gameOver)
  /\ (gameState shieldedState = playing
      /\ overlaps (ballPos (fst (gameLoop flat_sin quiet 1016.66 shieldedState)))
                  hitObstacle = true
      /\ gameState (fst (gameLoop flat_sin quiet 1016.66 shieldedState))
         = playing)
  /\ (gameState (fst (step flat_sin (Press quiet 2000) overState)) = playing
      /\ score (fst (step flat_sin (Press quiet 2000) overState)) = 0%Z
      /\ gameState (fst (run flat_sin [Timers 3000; Press quiet 4000;
                                       Frame quiet 4016.66] overState))
         <> menu).
Proof.
  destruct (game_state_transitions flat_sin (initialState 0))
    as (Hp & _ & Hf & _).
  destruct (game_state_transitions flat_sin exposedState)
    as (_ & _ & _ & He & _).
  destruct (game_state_transitions flat_sin shieldedState)
    as (_ & _ & _ & Hs & _).
  destruct (game_state_transitions flat_sin overState)
    as (Hp' & Hst & _ & _ & _ & _ & _ & _ & _ & Hm).
  assert (Ho : overlaps (ballPos overState) hitObstacle = true)
    by (vm_compute; reflexivity).
  assert (Ho' : overlaps
                  (ballPos (fst (gameLoop flat_sin quiet 1016.66 shieldedState)))
                  hitObstacle = true) by (vm_compute; reflexivity).
  assert (Go : gameState overState <> playing) by (vm_compute; discriminate).
  assert (Gm : gameState overState <> menu) by (vm_compute; discriminate).
  split; [|split; [|split]].
  - split; [reflexivity|]. split; [apply Hp|]. apply Hf. discriminate.
  - split; [reflexivity|]. split; [reflexivity|]. split; [exact Ho|].
    apply (He quiet 1016.66 eq_refl). split; [reflexivity|].
    exists hitObstacle. split; [now left | exact Ho].
  - split; [reflexivity|]. split; [exact Ho'|].
    apply (Hs quiet 1016.66 eq_refl). now left.
  - split; [apply Hp'|]. split; [rewrite (Hst quiet 2000 Go); reflexivity|].
    apply Hm. exact Gm.
Defined.

(** ** Pickups and timers *)

Definition noEffects : Effects :=
  mkEffects false None [farObstacle] None 0 0 [] false.

Lemma pickup_once_instance :
  changed noEffects = false
  /\ e_score (snd (collectPowerUps 1000 (mkPosition 100 300) [nearMagnet] noEffects))
     = 500%Z
  /\ e_score (snd (collectPowerUps 2000 (mkPosition 100 300)
                     (fst (collectPowerUps 1000 (mkPosition 100 300)
                             [nearMagnet] noEffects))
                     noEffects))
     = e_score noEffects.
Proof.
  destruct (pickup_applies_once 1000 2000 (mkPosition 100 300) [nearMagnet]
              noEffects noEffects eq_refl) as (_ & H & _).
  split; [reflexivity|]. split; [vm_compute; reflexivity | exact H].
Defined.

(** Two [slow] power-ups within the radius in one frame. *)
Definition nearSlow' : PowerUp.t :=
  PowerUp.mk "pow-t" slow (mkPosition 115 310) false 0.

Definition twoSlowState : RunState :=
  sampleRun 0 300 0 1 [farObstacle] [nearSlow; nearSlow'] false.

Lemma slow_restores_once_instance :
  gameState twoSlowState = playing
  /\ 1016.66 + 3000 <= 4100
  /\ countPicked (ballPos twoSlowState) slow
       (advancePowerUps (effectiveDeltaRatio (prevTime twoSlowState) 1016.66)
          (powerUps twoSlowState)
        ++ spawnPowerUps quiet
             (effectiveDeltaRatio (prevTime twoSlowState) 1016.66) twoSlowState)
     = 2%nat
  /\ map Obstacle.speed (obstacles twoSlowState) = [2.5]
  /\ slowTimer (fst (gameLoop flat_sin quiet 1016.66 twoSlowState))
     = Some (1016.66 + 3000)
  /\ map Obstacle.speed
         (obstacles (fst (gameLoop flat_sin quiet 1016.66 twoSlowState)))
     = [2.5 * 0.6 * 0.6]
  /\ map Obstacle.speed
         (obstacles
            (runTimers 4100 (fst (gameLoop flat_sin quiet 1016.66 twoSlowState))))
     = [2.5 * 0.6 * 0.6 / 0.6]
  /\ Forall2 Qeq
       (map Obstacle.speed
          (obstacles
             (runTimers 4100
                (fst (gameLoop flat_sin quiet 1016.66 twoSlowState)))))
       [1.5]
  /\ slowTimer
       (runTimers 4100 (fst (gameLoop flat_sin quiet 1016.66 twoSlowState)))
     = None.
Proof.
  assert (Hd : 1016.66 + 3000 <= 4100) by (vm_compute; discriminate).
  assert (E : countPicked (ballPos twoSlowState) slow
       (advancePowerUps (effectiveDeltaRatio (prevTime twoSlowState) 1016.66)
          (powerUps twoSlowState)
        ++ spawnPowerUps quiet
             (effectiveDeltaRatio (prevTime twoSlowState) 1016.66) twoSlowState)
     = 2%nat) by (vm_compute; reflexivity).
  assert (Hn : (0 < countPicked (ballPos twoSlowState) slow
       (advancePowerUps (effectiveDeltaRatio (prevTime twoSlowState) 1016.66)
          (powerUps twoSlowState)
        ++ spawnPowerUps quiet
             (effectiveDeltaRatio (prevTime twoSlowState) 1016.66) twoSlowState))%nat)
    by (rewrite E; lia).
  destruct (slow_restores_once flat_sin quiet 1016.66 4100 twoSlowState
              eq_refl Hd Hn) as (H1 & _ & _ & H4 & _ & H6).
  pose proof (H6 E) as H2.
  split; [reflexivity|]. split; [exact Hd|]. split; [exact E|].
  split; [reflexivity|]. split; [exact H1|].
  split; [vm_compute; reflexivity|]. split; [vm_compute; reflexivity|].
  split; [|exact H4].
  assert (Eb : map (fun v => v * 0.6)
                 (map Obstacle.speed
                    (advanceObstacles flat_sin twoSlowState
                       (effectiveDeltaRatio (prevTime twoSlowState) 1016.66)
                       (obstacles twoSlowState)
                     ++ spawnObstacles quiet
                          (effectiveDeltaRatio (prevTime twoSlowState) 1016.66)
                          twoSlowState))
               = [2.5 * 0.6]) by (vm_compute; reflexivity).
  rewrite Eb in H2. inversion H2 as [|v1 v2 l1 l2 Hv Hl E1 E2]; subst.
  inversion Hl; subst. constructor; [|constructor].
  rewrite Hv. reflexivity.
Defined.

(** ** Particles *)

Definition sparkDraws : ParticleDraws := mkParticleDraws 0.5 0.5 0.5 0.5 0.5 "part-a".

Definition spark : Particle :=
  newParticle (mkPosition 100 300) "#FFD700" false sparkDraws.

Lemma particles_die_instance :
  Forall (fun dt => 0.1 <= dt) (repeat 0.1 500%nat)
  /\ Forall (fun p => life p <= 1) [spark]
  /\ (500 <= List.length (repeat 0.1%Q 500))%nat
  /\ particlesAfter (repeat 0.1 500%nat) [spark] = [].
Proof.
  assert (H1 : Forall (fun dt => 0.1 <= dt) (repeat 0.1 500%nat)).
  { apply Forall_forall. intros dt Hin. apply repeat_spec in Hin. subst dt.
    discriminate. }
  assert (H2 : Forall (fun p => life p <= 1) [spark])
    by (constructor; [discriminate | constructor]).
  assert (H3 : (500 <= List.length (repeat 0.1%Q 500))%nat)
    by (rewrite repeat_length; lia).
  split; [exact H1|]. split; [exact H2|]. split; [exact H3|].
  exact (particles_gone_after_500_frames (repeat 0.1 500%nat) [spark] H1 H2 H3).
Defined.

(** ** Obstacles move left *)

Lemma capRun_draws_ok : Forall actionDrawsOk capRun.
Proof.
  repeat constructor; try discriminate; intros i; discriminate.
Defined.

Lemma move_left_instance :
  Forall actionDrawsOk capRun
  /\ List.length (obstacles (fst (run flat_sin capRun (initialState 0)))) = 3%nat
  /\ Forall (fun o => 0 < Obstacle.speed o)
            (obstacles (fst (run flat_sin capRun (initialState 0)))).
Proof.
  destruct (obstacles_move_left flat_sin 0 capRun capRun_draws_ok) as [H _].
  split; [exact capRun_draws_ok|]. split; [vm_compute; reflexivity | exact H].
Defined.

(** ** Time ratio *)

Lemma time_ratio_instance :
  ~ 1000 == 0
  /\ effectiveDeltaRatio (Some 1000) 6000 == 2
  /\ effectiveDeltaRatio (Some 1000) 999 == 0.1.
Proof.
  assert (Hp : ~ 1000 == 0) by discriminate.
  destruct (time_ratio_saturates 1000 6000 Hp) as (_ & H2 & _).
  destruct (time_ratio_saturates 1000 999 Hp) as (H1 & _).
  split; [exact Hp|]. split; [apply H2 | apply H1]; vm_compute; discriminate.
Defined.

(** ** Level lookup *)

Lemma level_lookup_instance :
  reachable flat_sin shieldedReached
  /\ (currentLevelIndex shieldedReached < List.length LEVELS)%nat
  /\ nth_error LEVELS (currentLevelIndex shieldedReached)
     = Some (level (currentLevelIndex shieldedReached)).
Proof.
  split; [exact shieldedReached_reachable|].
  exact (level_lookup_defined flat_sin shieldedReached shieldedReached_reachable).
Defined.

(** ** Particle cap *)

Lemma particles_cap_instance :
  List.length (createParticles (mkPosition 100 300) 8 "#FFB6C1" false
                 (fun _ => sparkDraws) (repeat spark 95)) = 100%nat
  /\ exists kept,
       createParticles (mkPosition 100 300) 8 "#FFB6C1" false
         (fun _ => sparkDraws) (repeat spark 95)
       = kept ++ map (fun i => newParticle (mkPosition 100 300) "#FFB6C1" false
                                 ((fun _ => sparkDraws) i))
                     (seq 0 8).
Proof.
  destruct (particles_capped_at_100 (mkPosition 100 300) 8 "#FFB6C1" false
              (fun _ => sparkDraws) (repeat spark 95)) as (H1 & _ & H3).
  cbv zeta in H1, H3. split.
  - rewrite H1, repeat_length. reflexivity.
  - apply H3. lia.
Defined.
